(** * Timeline visualizer: date-expression parser, viewport and collision layout

  A shallow embedding of the two computational cores of the application:

  - [DateParser] (the IIFE of the same name): [parse] and its pattern
    strategies, over an explicit model of the regular expressions the
    source writes down;
  - [Renderer]: [constrainPan], [setZoom], [assignLevelsToEvents],
    [calculateEventPositions] and the per-row level assignment of
    [renderSplitTimeline].

  JavaScript strings are sequences of UTF-16 code units ([list N]).
  JavaScript numbers that hold pixel positions, zoom factors and scales are
  modelled as exact rationals ([Q]); time values are integer milliseconds
  ([Z]).  Host services the source calls but does not define (Unicode
  lower-casing, [new Date(text)], the local-time getters of [Date], the
  clock) are section variables. *)

From Stdlib Require Import ZArith NArith QArith Qminmax Qround Qabs List String Ascii Bool Lia Lqa.
From Stdlib Require Import Sorting.Sorted DecimalString.
Import ListNotations.

Set Implicit Arguments.
Close Scope Q_scope.
Open Scope nat_scope.

(* ================================================================= *)
(** ** JavaScript strings and the few built-ins the parser uses *)

Module JS.

Definition jstring := list N.

(** An ASCII literal as a sequence of code units. *)
Definition u (s : string) : jstring :=
  List.map N_of_ascii (list_ascii_of_string s).

Definition jeqb (a b : jstring) : bool :=
  if list_eq_dec N.eq_dec a b then true else false.

Definition isDigit (c : N) : bool := ((48 <=? c) && (c <=? 57))%N.

(** WhiteSpace and LineTerminator of ECMAScript: what [\s] matches and what
    [trim] strips. *)
Definition isSpace (c : N) : bool :=
  existsb (N.eqb c)
    [9; 10; 11; 12; 13; 32; 160; 5760; 8232; 8233; 8239; 8287; 12288; 65279]%N
  || ((8192 <=? c) && (c <=? 8202))%N.

Fixpoint trimStart (s : jstring) : jstring :=
  match s with
  | c :: s' => if isSpace c then trimStart s' else s
  | [] => []
  end.

Definition trim (s : jstring) : jstring :=
  rev (trimStart (rev (trimStart s))).

(** ASCII lower-casing; what [toLowerCase] does on ASCII text. *)
Definition asciiLower (c : N) : N :=
  if ((65 <=? c) && (c <=? 90))%N then (c + 32)%N else c.

Definition isAscii (s : jstring) : bool := forallb (fun c => (c <? 128)%N) s.

(** [Canonicalize] of a non-unicode, ignore-case regular expression,
    restricted to what an ASCII pattern character can be compared with:
    ASCII letters are upper-cased, every other code unit is left alone (a
    non-ASCII code unit never canonicalizes to an ASCII one). *)
Definition canonicalize (c : N) : N :=
  if ((97 <=? c) && (c <=? 122))%N then (c - 32)%N else c.

(** A number that may be [NaN] ([None]). *)
Definition num := option N.

Definition digitVal (c : N) : N := (c - 48)%N.

Fixpoint parseDigits (acc : N) (s : jstring) : N :=
  match s with
  | c :: s' => if isDigit c then parseDigits (10 * acc + digitVal c)%N s' else acc
  | [] => acc
  end.

(** [parseInt] on the arguments the parser gives it: the decimal value of
    the leading run of digits, [NaN] when the string does not start with a
    digit or is [undefined]. *)
Definition parseInt (s : option jstring) : num :=
  match s with
  | Some (c :: s') => if isDigit c then Some (parseDigits 0 (c :: s')) else None
  | _ => None
  end.

Definition stringOfN (n : N) : jstring :=
  u (NilEmpty.string_of_uint (N.to_uint n)).

Definition stringOfZ (z : Z) : jstring :=
  match z with
  | Zneg p => u "-" ++ stringOfN (Npos p)
  | _ => stringOfN (Z.to_N z)
  end.

(** [String(x)] / template interpolation of a number. *)
Definition stringOfNum (x : num) : jstring :=
  match x with
  | Some n => stringOfN n
  | None => u "NaN"
  end.

(** [String(x)] of the result of a property lookup, which is [undefined]
    when the key is absent. *)
Definition stringOfLookup (x : option N) : jstring :=
  match x with
  | Some n => stringOfN n
  | None => u "undefined"
  end.

(** [s.padStart(2, '0')]. *)
Definition padStart2 (s : jstring) : jstring :=
  List.repeat 48%N (2 - List.length s) ++ s.

Definition numAdd (x : option N) (k : N) : num :=
  option_map (fun n => (n + k)%N) x.

(** A JavaScript completion: a value, or a thrown exception. *)
Inductive completion (A : Type) : Type :=
| Normal (a : A)
| Throw (what : string).
Arguments Normal {A} a.
Arguments Throw {A} what.

Definition bind {A B} (m : completion A) (f : A -> completion B) : completion B :=
  match m with
  | Normal a => f a
  | Throw e => Throw e
  end.

(** [try { body } catch (e) { handler }]. *)
Definition tryCatch {A} (body : completion A) (handler : string -> completion A)
  : completion A :=
  match body with
  | Normal a => Normal a
  | Throw e => handler e
  end.

End JS.

Import JS.

Declare Scope js_scope.
Notation "x <- m ;; k" := (JS.bind m (fun x => k))
(at level 61, m at next level, right associativity) : js_scope.

(* ================================================================= *)
(** ** Regular expressions as the source writes them

    A backtracking matcher with the semantics of ECMAScript for the constructs
    the parser's patterns use: ordered alternation, greedy quantifiers,
    numbered capture groups, [^] and [$], and the ignore-case flag.
    Quantifiers other than [?] are only ever applied to a character class in
    the source ([\s*], [\s+], [\d{4}], [\d{2,4}]), which is what [Rep]
    offers. *)

Module Regex.

Inductive class : Type :=
| Digit                      (* \d *)
| Space                      (* \s *)
| OneOf (l : list N).        (* [...] *)

Definition inClass (k : class) (c : N) : bool :=
  match k with
  | Digit => isDigit c
  | Space => isSpace c
  | OneOf l => existsb (N.eqb c) l
  end.

Inductive re : Type :=
| Eps
| Lit (c : N)
| Cls (k : class)
| Seq (a b : re)
| Alt (a b : re)
| Opt (a : re)                               (* (?:a)? *)
| Rep (k : class) (lo : nat) (hi : option nat) (* k{lo,hi}, greedy *)
| Grp (i : nat) (a : re)                     (* the i-th capture group *)
| Bol                                        (* ^ *)
| Eol.                                       (* $ *)

(** Captures: [c i] is [match[i]], [None] standing for [undefined]. *)
Definition caps := nat -> option jstring.

Definition noCaps : caps := fun _ => None.

Definition setCap (i : nat) (v : jstring) (c : caps) : caps :=
  fun j => if Nat.eqb j i then Some v else c j.

Definition kont := nat -> jstring -> caps -> option caps.

Definition litEq (ci : bool) (p c : N) : bool :=
  if ci then N.eqb (canonicalize p) (canonicalize c) else N.eqb p c.

Fixpoint rep (k : class) (lo : nat) (hi : option nat)
             (pos : nat) (s : jstring) (c : caps) (cont : kont) : option caps :=
  let stop := match lo with O => cont pos s c | S _ => None end in
  let more := match hi with Some O => false | _ => true end in
  match s with
  | x :: s' =>
      if more && inClass k x then
        match rep k (Nat.pred lo) (option_map Nat.pred hi) (S pos) s' c cont with
        | Some r => Some r
        | None => stop
        end
      else stop
  | [] => stop
  end.

(** [exec ci r pos s c cont]: match [r] at offset [pos], where [s] is the
    text from [pos] on, then continue with [cont]; [None] is failure, which
    makes the caller backtrack. *)
Fixpoint exec (ci : bool) (r : re) (pos : nat) (s : jstring) (c : caps)
              (cont : kont) : option caps :=
  match r with
  | Eps => cont pos s c
  | Lit p =>
      match s with
      | x :: s' => if litEq ci p x then cont (S pos) s' c else None
      | [] => None
      end
  | Cls k =>
      match s with
      | x :: s' => if inClass k x then cont (S pos) s' c else None
      | [] => None
      end
  | Seq a b => exec ci a pos s c (fun pos' s' c' => exec ci b pos' s' c' cont)
  | Alt a b =>
      match exec ci a pos s c cont with
      | Some r => Some r
      | None => exec ci b pos s c cont
      end
  | Opt a =>
      match exec ci a pos s c cont with
      | Some r => Some r
      | None => cont pos s c
      end
  | Rep k lo hi => rep k lo hi pos s c cont
  | Grp i a =>
      exec ci a pos s c
        (fun pos' s' c' => cont pos' s' (setCap i (firstn (pos' - pos) s) c'))
  | Bol => if Nat.eqb pos 0 then cont pos s c else None
  | Eol => match s with [] => cont pos s c | _ :: _ => None end
  end.

Definition accept : kont := fun _ _ c => Some c.

Fixpoint searchFrom (ci : bool) (r : re) (pos : nat) (s : jstring) : option caps :=
  match exec ci r pos s noCaps accept with
  | Some c => Some c
  | None =>
      match s with
      | [] => None
      | _ :: s' => searchFrom ci r (S pos) s'
      end
  end.

(** [text.match(/r/)] for a pattern without the global flag: the captures of
    the leftmost match, or [None] for [null].  [ci] is the [i] flag. *)
Definition jsMatch (ci : bool) (r : re) (text : jstring) : option caps :=
  searchFrom ci r 0 text.

(** Pattern-building shorthands. *)
Definition str (w : string) : re :=
  fold_right (fun ch r => Seq (Lit (N_of_ascii ch)) r) Eps (list_ascii_of_string w).

Fixpoint cat (l : list re) : re :=
  match l with
  | [] => Eps
  | [r] => r
  | r :: l' => Seq r (cat l')
  end.

Fixpoint alts (l : list re) : re :=
  match l with
  | [] => Eps
  | [r] => r
  | r :: l' => Alt r (alts l')
  end.

Definition ws0 : re := Rep Space 0 None.          (* \s* *)
Definition ws1 : re := Rep Space 1 None.          (* \s+ *)
Definition d4 : re := Rep Digit 4 (Some 4).       (* \d{4} *)
Definition d1 : re := Cls Digit.                  (* \d *)
Definition dash : re := Cls (OneOf [45; 8211; 8212]%N).  (* [-–—] *)

(** The groups that are set in every successful match of a pattern. *)
Fixpoint sure (r : re) : list nat :=
  match r with
  | Seq a b => sure a ++ sure b
  | Alt a b => filter (fun i => existsb (Nat.eqb i) (sure b)) (sure a)
  | Grp i a => i :: sure a
  | _ => []
  end.

(** *** What a successful match says about the captures

    For a property [P] of strings: every capture has it ([capsAll]), no
    defined capture is lost ([capsLe]), and the outcome of a match came out
    of its continuation, called on a rest of the text with [P] and with the
    groups [extra] defined ([through]). *)
Section Captures.

Variable P : jstring -> Prop.

Definition capsAll (c : caps) : Prop := forall i v, c i = Some v -> P v.

Definition capsLe (c c' : caps) : Prop := forall i, c i <> None -> c' i <> None.

Definition through (s : jstring) (c : caps) (cont : kont) (out : caps)
                   (extra : list nat) : Prop :=
  exists pos' s' c',
    cont pos' s' c' = Some out /\ P s' /\ capsAll c' /\ capsLe c c'
    /\ forall i, In i extra -> c' i <> None.

End Captures.

End Regex.

Import Regex.

(* ================================================================= *)
(** ** DateParser *)

Module DateParser.

Open Scope js_scope.

Open Scope string_scope.

(** Month names mapping (0-based month index), in the order the object
    literal lists its keys, which is the order [Object.entries] yields. *)
Definition MONTHS : list (string * N) :=
  [ ("january", 0); ("jan", 0);
    ("february", 1); ("feb", 1);
    ("march", 2); ("mar", 2);
    ("april", 3); ("apr", 3);
    ("may", 4);
    ("june", 5); ("jun", 5);
    ("july", 6); ("jul", 6);
    ("august", 7); ("aug", 7);
    ("september", 8); ("sep", 8); ("sept", 8);
    ("october", 9); ("oct", 9);
    ("november", 10); ("nov", 10);
    ("december", 11); ("dec", 11) ]%N.

(** Quarter to month mapping; the source comments the values as
    "February (middle of Q1)", "May", "August", "November". *)
Definition QUARTERS : list (string * N) :=
  [ ("q1", 1); ("q2", 4); ("q3", 7); ("q4", 10) ]%N.

(** Season to month mapping. *)
Definition SEASONS : list (string * N) :=
  [ ("spring", 3); ("summer", 6); ("fall", 9); ("autumn", 9); ("winter", 0) ]%N.

Close Scope string_scope.

(** [TABLE[key]]: [None] is [undefined]. *)
Definition lookup (tbl : list (string * N)) (key : jstring) : option N :=
  option_map snd (find (fun kv => jeqb (u (fst kv)) key) tbl).

Record ParseResult : Type := mkResult {
  startDate : jstring;
  endDate : option jstring;     (* [None] is [null] *)
  isOngoing : bool
}.

Definition point (s : jstring) : ParseResult :=
  {| startDate := s; endDate := None; isOngoing := false |}.

(** Truthiness of a value that is a string or [null]. *)
Definition truthy (r : option jstring) : bool :=
  match r with
  | Some (_ :: _) => true
  | _ => false
  end.

Definition numLt (x : num) (k : N) : bool :=
  match x with Some n => (n <? k)%N | None => false end.
Definition numGe (x : num) (k : N) : bool :=
  match x with Some n => (k <=? n)%N | None => false end.
Definition numLe (x : num) (k : N) : bool :=
  match x with Some n => (n <=? k)%N | None => false end.

(** *** The patterns *)

(** (january|jan|february|feb|...|december|dec) *)
Definition monthNames : re :=
  alts (List.map str
    [ "january"; "jan"; "february"; "feb"; "march"; "mar"; "april"; "apr";
      "may"; "june"; "jun"; "july"; "jul"; "august"; "aug"; "september";
      "sep"; "sept"; "october"; "oct"; "november"; "nov"; "december"; "dec" ]%string).

(** /(months)\s+(\d{4})\s*[-–—]\s*(months)\s+(\d{4})/i *)
Definition monthRangeYearsPattern : re :=
  cat [Grp 1 monthNames; ws1; Grp 2 d4; ws0; dash; ws0;
       Grp 3 monthNames; ws1; Grp 4 d4].

(** /(months)\s*[-–—]\s*(months)\s+(\d{4})/i *)
Definition monthRangePattern : re :=
  cat [Grp 1 monthNames; ws0; dash; ws0; Grp 2 monthNames; ws1; Grp 3 d4].

(** /q(\d)\s*[-–—]\s*q(\d)\s+(\d{4})/i *)
Definition quarterRangePattern : re :=
  cat [str "q"; Grp 1 d1; ws0; dash; ws0; str "q"; Grp 2 d1; ws1; Grp 3 d4].

(** /(\d{4})\s*[-–—]\s*(\d{4})/ *)
Definition yearRangePattern : re :=
  cat [Grp 1 d4; ws0; dash; ws0; Grp 2 d4].

(** /(?:fy|fiscal\s+year)\s*(\d{2,4})/i *)
Definition fyPattern : re :=
  cat [alts [str "fy"; cat [str "fiscal"; ws1; str "year"]]; ws0;
       Grp 1 (Rep Digit 2 (Some 4))].

(** /(?:q|quarter)\s*(\d)\s*(?:of\s+)?(\d{4})/i *)
Definition qPattern : re :=
  cat [alts [str "q"; str "quarter"]; ws0; Grp 1 d1; ws0;
       Opt (cat [str "of"; ws1]); Grp 2 d4].

(** new RegExp(`${season}\\s+(?:of\\s+)?(\\d{4})`, 'i') *)
Definition seasonPattern (season : string) : re :=
  cat [str season; ws1; Opt (cat [str "of"; ws1]); Grp 1 d4].

(** new RegExp(`(?:by\\s+)?${monthName}\\s+(\\d{4})`, 'i') *)
Definition monthPattern (monthName : string) : re :=
  cat [Opt (cat [str "by"; ws1]); str monthName; ws1; Grp 1 d4].

(** /early[- ](\d{4})/ and its two siblings, with the [month] field. *)
Definition vaguePatterns : list (re * N) :=
  [ (cat [str "early"; Cls (OneOf [45; 32]%N); Grp 1 d4], 2);   (* March *)
    (cat [str "mid"; Cls (OneOf [45; 32]%N); Grp 1 d4], 7);     (* July *)
    (cat [str "late"; Cls (OneOf [45; 32]%N); Grp 1 d4], 10) ]%N. (* November *)

(** /(?:end\s+of|by\s+the\s+end\s+of)\s+(\d{4})/i *)
Definition endPattern : re :=
  cat [alts [cat [str "end"; ws1; str "of"];
             cat [str "by"; ws1; str "the"; ws1; str "end"; ws1; str "of"]];
       ws1; Grp 1 d4].

(** /(?:start(?:ing)?\s+in|beginning\s+(?:in|of))\s+(\d{4})/i *)
Definition startPattern : re :=
  cat [alts [cat [str "start"; Opt (str "ing"); ws1; str "in"];
             cat [str "beginning"; ws1; alts [str "in"; str "of"]]];
       ws1; Grp 1 d4].

(** /by\s+(\d{4})/i *)
Definition byYearPattern : re := cat [str "by"; ws1; Grp 1 d4].

(** /(?:^|\s)(\d{4})(?:\s|$)/ *)
Definition yearPattern : re :=
  cat [alts [Bol; Cls Space]; Grp 1 d4; alts [Cls Space; Eol]].

(** `${y}-${mm}-${dd}` with [mm] already padded and [dd] a literal. *)
Definition iso (y : jstring) (mm : jstring) (dd : string) : jstring :=
  y ++ u "-" ++ mm ++ u "-" ++ u dd.

Definition resultEqb (a b : ParseResult) : bool :=
  jeqb (startDate a) (startDate b)
  && match endDate a, endDate b with
     | Some x, Some y => jeqb x y
     | None, None => true
     | _, _ => false
     end
  && Bool.eqb (isOngoing a) (isOngoing b).

Section Host.

(** [String.prototype.toLowerCase]. *)
Variable toLowerCase : jstring -> jstring.
(** The time value of [new Date(text)]; [None] when it is [NaN]. *)
Variable Date_parse : jstring -> option Z.
(** [getFullYear], [getMonth] and [getDate] of the date with a time value. *)
Variables getFullYear getMonth getDate : Z -> Z.
(** The time value of [new Date()]. *)
Variable now : Z.

(** Format date object to ISO string. *)
Definition formatDate (date : Z) : jstring :=
  let year := getFullYear date in
  let month := padStart2 (stringOfZ (getMonth date + 1)) in
  let day := padStart2 (stringOfZ (getDate date)) in
  stringOfZ year ++ u "-" ++ month ++ u "-" ++ day.

(** [x.toLowerCase()] where [x] is a capture: a [TypeError] on [undefined]. *)
Definition toLowerCaseOf (x : option jstring) : completion jstring :=
  match x with
  | Some s => Normal (toLowerCase s)
  | None => Throw "TypeError: Cannot read properties of undefined"
  end.

(** Parse date range patterns. *)
Definition parseRange (text : jstring) : completion (option ParseResult) :=
  match jsMatch true monthRangeYearsPattern text with
  | Some m =>
      k1 <- toLowerCaseOf (m 1) ;;
      let startMonth := lookup MONTHS k1 in
      let startYear := parseInt (m 2) in
      k3 <- toLowerCaseOf (m 3) ;;
      let endMonth := lookup MONTHS k3 in
      let endYear := parseInt (m 4) in
      Normal (Some
        {| startDate := iso (stringOfNum startYear)
                            (padStart2 (stringOfNum (numAdd startMonth 1))) "01";
           endDate := Some (iso (stringOfNum endYear)
                            (padStart2 (stringOfNum (numAdd endMonth 1))) "28");
           isOngoing := false |})
  | None =>
  match jsMatch true monthRangePattern text with
  | Some m =>
      k1 <- toLowerCaseOf (m 1) ;;
      let startMonth := lookup MONTHS k1 in
      k2 <- toLowerCaseOf (m 2) ;;
      let endMonth := lookup MONTHS k2 in
      let year := parseInt (m 3) in
      Normal (Some
        {| startDate := iso (stringOfNum year)
                            (padStart2 (stringOfNum (numAdd startMonth 1))) "01";
           endDate := Some (iso (stringOfNum year)
                            (padStart2 (stringOfNum (numAdd endMonth 1))) "28");
           isOngoing := false |})
  | None =>
  let yearRange :=
    match jsMatch false yearRangePattern text with
    | Some m =>
        let startYear := parseInt (m 1) in
        let endYear := parseInt (m 2) in
        Some {| startDate := stringOfNum startYear ++ u "-01-01";
                endDate := Some (stringOfNum endYear ++ u "-12-31");
                isOngoing := false |}
    | None => None
    end in
  match jsMatch true quarterRangePattern text with
  | Some m =>
      let startQ := parseInt (m 1) in
      let endQ := parseInt (m 2) in
      let year := parseInt (m 3) in
      if numGe startQ 1 && numLe startQ 4 && numGe endQ 1 && numLe endQ 4 then
        let startMonth := lookup QUARTERS (u "q" ++ stringOfNum startQ) in
        let endMonth := lookup QUARTERS (u "q" ++ stringOfNum endQ) in
        Normal (Some
          {| startDate := iso (stringOfNum year)
                              (padStart2 (stringOfLookup startMonth)) "01";
             endDate := Some (iso (stringOfNum year)
                              (padStart2 (stringOfNum (numAdd endMonth 2))) "28");
             isOngoing := false |})
      else Normal yearRange
  | None => Normal yearRange
  end end end.

(** Parse fiscal year patterns: FY27 = fiscal year ending Sept 30, 2027. *)
Definition parseFiscalYear (text : jstring) : option jstring :=
  match jsMatch true fyPattern text with
  | Some m =>
      let year := parseInt (m 1) in
      let year := if numLt year 100 then numAdd year 2000 else year in
      Some (stringOfNum year ++ u "-09-30")
  | None => None
  end.

(** Parse quarter patterns. *)
Definition parseQuarter (text : jstring) : option jstring :=
  match jsMatch true qPattern text with
  | Some m =>
      let quarter := parseInt (m 1) in
      let year := parseInt (m 2) in
      if numGe quarter 1 && numLe quarter 4 then
        let month := lookup QUARTERS (u "q" ++ stringOfNum quarter) in
        Some (iso (stringOfNum year) (padStart2 (stringOfLookup month)) "01")
      else None
  | None => None
  end.

(** Parse season patterns: the [for ... of Object.entries(SEASONS)] loop. *)
Fixpoint parseSeasonIn (entries : list (string * N)) (text : jstring)
  : option jstring :=
  match entries with
  | [] => None
  | (season, month) :: rest =>
      match jsMatch true (seasonPattern season) text with
      | Some m =>
          let year := parseInt (m 1) in
          let adjustedYear :=
            if String.eqb season "winter" && N.eqb month 0
            then numAdd year 1 else year in
          Some (iso (stringOfNum adjustedYear)
                    (padStart2 (stringOfN (month + 1))) "01")
      | None => parseSeasonIn rest text
      end
  end.

Definition parseSeason (text : jstring) : option jstring :=
  parseSeasonIn SEASONS text.

(** Parse month patterns: the [for ... of Object.entries(MONTHS)] loop. *)
Fixpoint parseMonthIn (entries : list (string * N)) (text : jstring)
  : option jstring :=
  match entries with
  | [] => None
  | (monthName, monthIndex) :: rest =>
      match jsMatch true (monthPattern monthName) text with
      | Some m =>
          let year := parseInt (m 1) in
          Some (iso (stringOfNum year)
                    (padStart2 (stringOfN (monthIndex + 1))) "01")
      | None => parseMonthIn rest text
      end
  end.

Definition parseMonth (text : jstring) : option jstring :=
  parseMonthIn MONTHS text.

(** Parse early/mid/late patterns: the [for (const pattern of patterns)]
    loop. *)
Fixpoint parseVagueIn (patterns : list (re * N)) (text : jstring)
  : option jstring :=
  match patterns with
  | [] => None
  | (regex, month) :: rest =>
      match jsMatch false regex text with
      | Some m =>
          let year := parseInt (m 1) in
          Some (iso (stringOfNum year) (padStart2 (stringOfN month)) "01")
      | None => parseVagueIn rest text
      end
  end.

Definition parseVaguePeriod (text : jstring) : option jstring :=
  parseVagueIn vaguePatterns text.

(** Parse "end of year" patterns. *)
Definition parseEndOfYear (text : jstring) : option jstring :=
  match jsMatch true endPattern text with
  | Some m => Some (stringOfNum (parseInt (m 1)) ++ u "-12-31")
  | None => None
  end.

(** Parse "starting in" patterns. *)
Definition parseStartingIn (text : jstring) : option jstring :=
  match jsMatch true startPattern text with
  | Some m => Some (stringOfNum (parseInt (m 1)) ++ u "-01-01")
  | None => None
  end.

(** Parse just year. *)
Definition parseYear (text : jstring) : option jstring :=
  let standalone :=
    match jsMatch false yearPattern text with
    | Some m =>
        let year := parseInt (m 1) in
        if numGe year 2000 && numLe year 2100
        then Some (stringOfNum year ++ u "-07-01")
        else None
    | None => None
    end in
  match jsMatch true byYearPattern text with
  | Some m =>
      let year := parseInt (m 1) in
      if numGe year 2000 && numLe year 2100
      then Some (stringOfNum year ++ u "-01-01")
      else standalone
  | None => standalone
  end.

(** [result = strategy(normalized); if (result) return {startDate: result,
    endDate: null, isOngoing: false};] followed by the rest of the block. *)
Definition orElse (result : option jstring)
                  (rest : completion (option ParseResult))
  : completion (option ParseResult) :=
  match result with
  | Some s => if truthy result then Normal (Some (point s)) else rest
  | None => rest
  end.

Definition isOngoingLiteral (normalized : jstring) : bool :=
  jeqb normalized (u "ongoing") || jeqb normalized (u "continuous")
  || jeqb normalized (u "tbd") || jeqb normalized (u "indefinite").

(** Parse a vague date string and return ISO date or date range. *)
Definition parse (text : jstring) : completion (option ParseResult) :=
  match text with
  | [] => Normal None                               (* if (!text) return null *)
  | _ :: _ =>
      let normalized := trim (toLowerCase text) in
      if isOngoingLiteral normalized then
        Normal (Some {| startDate := formatDate now;
                        endDate := None;
                        isOngoing := true |})
      else
        rangeResult <- parseRange normalized ;;
        match rangeResult with
        | Some r => Normal (Some r)
        | None =>
            tryCatch
              (orElse (parseFiscalYear normalized)
              (orElse (parseQuarter normalized)
              (orElse (parseSeason normalized)
              (orElse (parseMonth normalized)
              (orElse (parseVaguePeriod normalized)
              (orElse (parseEndOfYear normalized)
              (orElse (parseStartingIn normalized)
              (orElse (parseYear normalized)
                 match Date_parse text with
                 | Some t => Normal (Some (point (formatDate t)))
                 | None => Normal None
                 end))))))))
              (fun _ => Normal None)
        end
  end.

(** *** [parse] in pieces, for stating what it does

    [singleDate] is the body of the [try] block, [parseNormalized] is [parse]
    from the ongoing check on, and [noStrategyMatches] says that every
    pattern strategy came back empty-handed. *)

Definition singleDate (text normalized : jstring) : completion (option ParseResult) :=
  orElse (parseFiscalYear normalized)
  (orElse (parseQuarter normalized)
  (orElse (parseSeason normalized)
  (orElse (parseMonth normalized)
  (orElse (parseVaguePeriod normalized)
  (orElse (parseEndOfYear normalized)
  (orElse (parseStartingIn normalized)
  (orElse (parseYear normalized)
     match Date_parse text with
     | Some t => Normal (Some (point (formatDate t)))
     | None => Normal None
     end))))))).

Definition parseNormalized (text normalized : jstring)
  : completion (option ParseResult) :=
  if isOngoingLiteral normalized then
    Normal (Some {| startDate := formatDate now;
                    endDate := None;
                    isOngoing := true |})
  else
    rangeResult <- parseRange normalized ;;
    match rangeResult with
    | Some r => Normal (Some r)
    | None => tryCatch (singleDate text normalized) (fun _ => Normal None)
    end.

Definition noStrategyMatches (normalized : jstring) : Prop :=
  isOngoingLiteral normalized = false
  /\ parseRange normalized = Normal None
  /\ parseFiscalYear normalized = None
  /\ parseQuarter normalized = None
  /\ parseSeason normalized = None
  /\ parseMonth normalized = None
  /\ parseVaguePeriod normalized = None
  /\ parseEndOfYear normalized = None
  /\ parseStartingIn normalized = None
  /\ parseYear normalized = None.

(** Running [parse] on an ASCII text, lower-cased as ASCII, and comparing
    with an expected result. *)
Definition yields (text : jstring) (expected : ParseResult) : bool :=
  isAscii text
  && match parseNormalized text (trim (List.map asciiLower text)) with
     | Normal (Some r) => resultEqb r expected
     | _ => false
     end.

(** What [toLowerCase] does on ASCII text, as a property of a host. *)
Definition lowersAscii : Prop :=
  forall s, isAscii s = true -> toLowerCase s = List.map asciiLower s.

(** The three kinds of canonical temporal value. *)
Definition isPoint (r : ParseResult) : Prop :=
  endDate r = None /\ isOngoing r = false.
Definition isRange (r : ParseResult) : Prop :=
  endDate r <> None /\ isOngoing r = false.
Definition isOngoingValue (r : ParseResult) : Prop :=
  isOngoing r = true /\ endDate r = None.

End Host.

(** [outcome] is the normal completion with the non-null result [expected]. *)
Definition returns (outcome : completion (option ParseResult))
                   (expected : ParseResult) : bool :=
  match outcome with
  | Normal (Some r) => resultEqb r expected
  | _ => false
  end.

(** The texts "Q<n> <year>" and "<word>-<year>". *)
Definition quarterText (n y : N) : jstring :=
  u "Q" ++ stringOfN n ++ u " " ++ stringOfN y.

Definition vagueText (word : string) (y : N) : jstring :=
  u word ++ u "-" ++ stringOfN y.

(** The years the parser itself takes for plausible: 2000..2100. *)
Definition plausibleYears : list N :=
  List.map N.of_nat (seq (N.to_nat 2000) (N.to_nat 101)).

End DateParser.

(* ================================================================= *)
(** ** A reference host

    One concrete host, used to run the embedding on concrete inputs: ASCII
    lower-casing, a [Date] that reads the ISO calendar-date form
    [YYYY-MM-DD] as UTC midnight (every other text is an invalid date), a
    local time zone equal to UTC, and a fixed clock. *)

Module RefHost.

Open Scope Z_scope.

Definition toLowerCase (s : jstring) : jstring := List.map asciiLower s.

Definition msPerDay : Z := 86400000.

(** Days since 1970-01-01 of a proleptic Gregorian date. *)
Definition daysFromCivil (y m d : Z) : Z :=
  let y' := if m <=? 2 then y - 1 else y in
  let era := y' / 400 in
  let yoe := y' - era * 400 in
  let mp := if 2 <? m then m - 3 else m + 9 in
  let doy := (153 * mp + 2) / 5 + d - 1 in
  let doe := yoe * 365 + yoe / 4 - yoe / 100 + doy in
  era * 146097 + doe - 719468.

(** The (year, month 1..12, day) of a day number. *)
Definition civilFromDays (z : Z) : Z * Z * Z :=
  let z := z + 719468 in
  let era := z / 146097 in
  let doe := z - era * 146097 in
  let yoe := (doe - doe / 1460 + doe / 36524 - doe / 146096) / 365 in
  let doy := doe - (365 * yoe + yoe / 4 - yoe / 100) in
  let mp := (5 * doy + 2) / 153 in
  let d := doy - (153 * mp + 2) / 5 + 1 in
  let m := if mp <? 10 then mp + 3 else mp - 9 in
  let y := yoe + era * 400 in
  ((if m <=? 2 then y + 1 else y), m, d).

Definition isLeap (y : Z) : bool :=
  ((y mod 4 =? 0) && negb (y mod 100 =? 0)) || (y mod 400 =? 0).

Definition daysInMonth (y m : Z) : Z :=
  if m =? 2 then (if isLeap y then 29 else 28)
  else if (m =? 4) || (m =? 6) || (m =? 9) || (m =? 11) then 30 else 31.

Definition Date_parse (s : jstring) : option Z :=
  match s with
  | [y1; y2; y3; y4; 45%N; m1; m2; 45%N; d1; d2] =>
      if forallb isDigit [y1; y2; y3; y4; m1; m2; d1; d2] then
        let y := Z.of_N (parseDigits 0 [y1; y2; y3; y4]) in
        let m := Z.of_N (parseDigits 0 [m1; m2]) in
        let d := Z.of_N (parseDigits 0 [d1; d2]) in
        if (1 <=? m) && (m <=? 12) && (1 <=? d) && (d <=? daysInMonth y m)
        then Some (daysFromCivil y m d * msPerDay)
        else None
      else None
  | _ => None
  end.

Definition getFullYear (t : Z) : Z := fst (fst (civilFromDays (t / msPerDay))).
Definition getMonth (t : Z) : Z := snd (fst (civilFromDays (t / msPerDay))) - 1.
Definition getDate (t : Z) : Z := snd (civilFromDays (t / msPerDay)).

(** 2026-11-02T00:00:00Z *)
Definition now : Z := 1793577600000.

Definition parse : jstring -> completion (option DateParser.ParseResult) :=
  DateParser.parse toLowerCase Date_parse getFullYear getMonth getDate now.

End RefHost.

(* ================================================================= *)
(** ** Renderer: viewport transform and collision layout *)

Module Renderer.

Open Scope Q_scope.

(** A property of an event as the renderer reads it: absent, [null], or a
    string. *)
Inductive field : Type :=
| Undefined
| Null
| Str (s : jstring).

Definition field_eq_dec (a b : field) : {a = b} + {a <> b}.
Proof. decide equality. apply (list_eq_dec N.eq_dec). Defined.

Definition truthy (v : field) : bool :=
  match v with
  | Str (_ :: _) => true
  | _ => false
  end.

(** [a || b] *)
Definition orField (a b : field) : field := if truthy a then a else b.

Inductive ViewMode : Type := single | entity | goal.

Definition isSplit (m : ViewMode) : bool :=
  match m with
  | single => false
  | entity | goal => true
  end.

Record Event : Type := mkEvent {
  ev_id : jstring;
  ev_startDate : field;
  ev_computedDate : field;
  ev_endDate : field;
  ev_isOngoing : bool;
  ev_entities : option (list jstring);   (* [None]: not an array *)
  ev_entity : field;
  ev_secondaryEntities : option (list jstring);
  ev_goal : field
}.

Record Filters : Type := mkFilters {
  f_search : jstring;
  f_entity : jstring;
  f_goal : jstring
}.

(** The renderer's [state] object. *)
Record State : Type := mkState {
  viewMode : ViewMode;
  zoom : Q;
  panX : Q;
  panY : Q;
  events : list Event;
  filters : Filters;
  entityColors : list (jstring * jstring);
  isDragging : bool;
  lastMouseX : Q;
  lastMouseY : Q
}.

Definition withZoom (z : Q) (st : State) : State :=
  mkState (viewMode st) z (panX st) (panY st) (events st) (filters st)
          (entityColors st) (isDragging st) (lastMouseX st) (lastMouseY st).
Definition withPanX (p : Q) (st : State) : State :=
  mkState (viewMode st) (zoom st) p (panY st) (events st) (filters st)
          (entityColors st) (isDragging st) (lastMouseX st) (lastMouseY st).
Definition withPanY (p : Q) (st : State) : State :=
  mkState (viewMode st) (zoom st) (panX st) p (events st) (filters st)
          (entityColors st) (isDragging st) (lastMouseX st) (lastMouseY st).

(** [svg.getBoundingClientRect()]; the [svg] element itself is an
    [option Rect], [None] when the canvas was not found. *)
Record Rect : Type := mkRect { width : Q; height : Q }.

(** Timeline dimensions. *)
Definition MARGIN_top : Q := 60.
Definition MARGIN_right : Q := 100.
Definition MARGIN_bottom : Q := 60.
Definition MARGIN_left : Q := 100.
Definition SPLIT_VIEW_LABEL_WIDTH : Q := 180.
Definition BASE_ROW_HEIGHT : Q := 80.

Definition ltb (a b : Q) : bool := negb (Qle_bool b a).

(** [date - startDate] of two time values, as a number. *)
Definition elapsed (date startDate : Z) : Q := inject_Z (date - startDate).

(** [Math.min(...dates)] and [Math.max(...dates)] of a non-empty list. *)
Definition minOf (d : Z) (dates : list Z) : Z := fold_left Z.min dates d.
Definition maxOf (d : Z) (dates : list Z) : Z := fold_left Z.max dates d.

(** The time value of [new Date(x)] for a number [x]: truncation towards
    zero.  (The range limit of time values is not modelled.) *)
Definition timeClip (x : Q) : Z :=
  if Qle_bool 0 x then Qfloor x else Qceiling x.

Definition primaryEntities (e : Event) : list field :=
  match ev_entities e with
  | Some l => List.map Str l
  | None => [ev_entity e]
  end.

Definition secondaryEntities (e : Event) : list field :=
  match ev_secondaryEntities e with
  | Some l => List.map Str l
  | None => []
  end.

(** [array.includes(key)] *)
Definition includes (l : list field) (key : field) : bool :=
  existsb (fun x => if field_eq_dec x key then true else false) l.

Section Host.

(** The time value of [new Date(text)]; [None] when it is [NaN]. *)
Variable Date_parse : jstring -> option Z.

(** [new Date(v)] for a property value: [undefined] is an invalid date,
    [null] is the epoch, a string is parsed. *)
Definition newDate (v : field) : option Z :=
  match v with
  | Undefined => None
  | Null => Some 0%Z
  | Str s => Date_parse s
  end.

(** The [dates] array that [constrainPan] and the render functions build:
    every valid start, and every valid end of an event that has one. *)
Definition datesOf (evs : list Event) : list Z :=
  flat_map (fun e =>
    (match newDate (orField (ev_startDate e) (ev_computedDate e)) with
     | Some t => [t] | None => [] end)
    ++ (if truthy (ev_endDate e)
        then match newDate (ev_endDate e) with Some t => [t] | None => [] end
        else [])) evs.

(** [minDate], [maxDate], [padding], [startDate], [endDate]: the padded date
    range, as time values. *)
Definition paddedRange (d : Z) (dates : list Z) : Z * Z :=
  let minDate := minOf d dates in
  let maxDate := maxOf d dates in
  let span := elapsed maxDate minDate * (1 # 10) in
  let padding := if Qeq_bool span 0 then 86400000 * 30 else span in
  (timeClip (inject_Z minDate - padding), timeClip (inject_Z maxDate + padding)).

(** The date range of [renderSingleTimeline] and [renderSplitTimeline]: the
    dates of the events on display with today pushed at the end; nothing is
    drawn when no event has a valid date. *)
Definition renderRange (evs : list Event) (today : Z) : option (Z * Z) :=
  match datesOf evs ++ [today] with
  | _ :: [] => None
  | d :: dates => Some (paddedRange d dates)
  | [] => None
  end.

(** Calculate dynamic row height based on zoom level. *)
Definition getRowHeight (st : State) : Q :=
  let zoomThreshold := 25 # 10 in
  if Qle_bool zoomThreshold (zoom st) then BASE_ROW_HEIGHT
  else BASE_ROW_HEIGHT * (zoomThreshold / zoom st).

Definition leftMarginOf (st : State) : Q :=
  if isSplit (viewMode st) then SPLIT_VIEW_LABEL_WIDTH else MARGIN_left.

(** Number of rows of the split views: the size of the [Set] of entities, or
    of goals. *)
Definition rowCount (st : State) : nat :=
  match viewMode st with
  | entity =>
      List.length (nodup field_eq_dec
        (flat_map (fun e => primaryEntities e ++ secondaryEntities e) (events st)))
  | _ =>
      List.length (nodup field_eq_dec
        (flat_map (fun e => if truthy (ev_goal e) then [ev_goal e] else [])
                  (events st)))
  end.

(** Constrain pan to keep timeline endpoints visible. *)
Definition constrainPan (svg : option Rect) (st : State) : State :=
  match svg, events st with
  | None, _ => st
  | _, [] => st
  | Some rect, _ :: _ =>
      match datesOf (events st) with
      | [] => st
      | d :: dates =>
          let (startDate, endDate) := paddedRange d dates in
          let leftMargin := leftMarginOf st in
          let timelineWidth := width rect - leftMargin - MARGIN_right in
          let scale := (timelineWidth * zoom st) / elapsed endDate startDate in
          let totalTimelineWidth := elapsed endDate startDate * scale in
          let maxPanX := width rect - leftMargin in
          let minPanX := - (totalTimelineWidth - leftMargin) in
          let st := withPanX (Qmax minPanX (Qmin maxPanX (panX st))) st in
          if isSplit (viewMode st) then
            let rows := rowCount st in
            if (0 <? rows)%nat then
              let rowHeight := getRowHeight st in
              let totalContentHeight := inject_Z (Z.of_nat rows) * rowHeight in
              let maxPanY := 0 in
              let minPanY :=
                - (totalContentHeight - height rect + MARGIN_top + MARGIN_bottom) in
              withPanY (Qmax minPanY (Qmin maxPanY (panY st))) st
            else st
          else st
      end
  end.

(** [Math.max(0.1, Math.min(10, newZoom))] *)
Definition clampZoom (newZoom : Q) : Q := Qmax (1 # 10) (Qmin 10 newZoom).

(** [setZoom] up to, and not including, its call of [constrainPan]: the new
    zoom, and the pan re-solved about the viewport centre. *)
Definition zoomAboutCenter (rect : Rect) (newZoom : Q) (st : State) : State :=
  let viewportCenterX := width rect / 2 in
  let viewportCenterY := height rect / 2 in
  let oldZoom := zoom st in
  let timelinePosAtCenter := viewportCenterX - panX st - MARGIN_left in
  let relativePos := timelinePosAtCenter / oldZoom in
  let oldRowHeight := getRowHeight st in
  let st := withZoom (clampZoom newZoom) st in
  let newTimelinePosAtCenter := relativePos * zoom st in
  let st := withPanX (viewportCenterX - newTimelinePosAtCenter - MARGIN_left) st in
  if isSplit (viewMode st) then
    let newRowHeight := getRowHeight st in
    if negb (Qeq_bool oldRowHeight newRowHeight) then
      let rowAtCenter := (viewportCenterY - panY st - MARGIN_top) / oldRowHeight in
      withPanY (viewportCenterY - MARGIN_top - rowAtCenter * newRowHeight) st
    else st
  else st.

(** Set zoom level with viewport center as fixed point.  (The slider update
    and the re-render that follow are outside the model.) *)
Definition setZoom (svg : option Rect) (newZoom : Q) (st : State) : State :=
  match svg with
  | None => withZoom (clampZoom newZoom) st
  | Some rect => constrainPan svg (zoomAboutCenter rect newZoom st)
  end.

(** *** Time to pixels, as the two render functions compute it *)

(** [timelineWidth], [scale] and [axisStartX] of [renderSingleTimeline]
    (mode [single]) and of [renderSplitTimeline] (the other two), for the
    padded date range [startDate .. endDate] of what is on display. *)
Definition scaleOf (rect : Rect) (st : State) (startDate endDate : Z) : Q :=
  let timelineWidth := width rect - leftMarginOf st - MARGIN_right in
  (timelineWidth * zoom st) / elapsed endDate startDate.

Definition axisStartXOf (st : State) : Q := leftMarginOf st + panX st.


(** *** Level assignment *)

(** An element of [eventsWithX]. *)
Record Item : Type := mkItem {
  it_event : Event;
  it_x : Q;
  it_x2 : Q;
  it_date : Z
}.

(** A reserved span of a date label. *)
Record Span : Type := mkSpan { sp_x : Q; sp_x2 : Q }.

(** [events.map(...).filter(e => e !== null)] of [calculateEventPositions]
    and of [renderSplitTimeline]. *)
Definition itemOf (startDate : Z) (axisStartX scale : Q) (e : Event) : option Item :=
  match newDate (orField (ev_startDate e) (ev_computedDate e)) with
  | None => None
  | Some eventDate =>
      let x := axisStartX + elapsed eventDate startDate * scale in
      let x2 :=
        if truthy (ev_endDate e) && negb (ev_isOngoing e) then
          match newDate (ev_endDate e) with
          | Some endEventDate => axisStartX + elapsed endEventDate startDate * scale
          | None => x
          end
        else x in
      Some (mkItem e x x2 eventDate)
  end.

Fixpoint itemsOf (startDate : Z) (axisStartX scale : Q) (evs : list Event)
  : list Item :=
  match evs with
  | [] => []
  | e :: rest =>
      match itemOf startDate axisStartX scale e with
      | Some it => it :: itemsOf startDate axisStartX scale rest
      | None => itemsOf startDate axisStartX scale rest
      end
  end.

(** [eventsWithX.sort((a, b) => a.date - b.date)]: a stable sort by date. *)
Fixpoint insertByDate (it : Item) (l : list Item) : list Item :=
  match l with
  | [] => [it]
  | y :: l' =>
      if (it_date it <=? it_date y)%Z then it :: l
      else y :: insertByDate it l'
  end.

Definition sortByDate (l : list Item) : list Item :=
  fold_right insertByDate [] l.

(** The loop every level assignment of the source runs: the first level, in
    order, that accepts the item; a new level at the end when none does;
    the item pushed at the end of that level. *)
Fixpoint findLevel (fits : list Item -> bool) (levels : list (list Item))
  : option nat :=
  match levels with
  | [] => None
  | lvl :: rest =>
      if fits lvl then Some O
      else option_map S (findLevel fits rest)
  end.

Fixpoint pushAt (i : nat) (it : Item) (levels : list (list Item))
  : list (list Item) :=
  match levels, i with
  | [], _ => []
  | lvl :: rest, O => (lvl ++ [it]) :: rest
  | lvl :: rest, S j => lvl :: pushAt j it rest
  end.

Definition place (fits : list Item -> Item -> bool)
                 (levels : list (list Item)) (it : Item) : list (list Item) :=
  match findLevel (fun lvl => fits lvl it) levels with
  | Some assignedLevel => pushAt assignedLevel it levels
  | None => levels ++ [[it]]
  end.

Definition assignLevels (fits : list Item -> Item -> bool) (items : list Item)
  : list (list Item) :=
  fold_left (place fits) items [].

(** [place], by recursion on the levels. *)
Fixpoint placeRec (fits : list Item -> Item -> bool)
                  (levels : list (list Item)) (it : Item) : list (list Item) :=
  match levels with
  | [] => [[it]]
  | lvl :: rest =>
      if fits lvl it then (lvl ++ [it]) :: rest
      else lvl :: placeRec fits rest it
  end.

(** The acceptance test of [assignLevelsToEvents]: clear of the last event
    of the level by more than the spacing, and clear of every date label. *)
Definition conflictsWithDateLabel (dateLabelPositions : list Span) (it : Item) : bool :=
  existsb (fun dateLabel =>
             negb (ltb (it_x2 it + 30) (sp_x dateLabel)
                   || ltb (sp_x2 dateLabel) (it_x it - 30)))
          dateLabelPositions.

Definition fitsAfterLast (MIN_SPACING : Q) (dateLabelPositions : list Span)
                         (lvl : list Item) (it : Item) : bool :=
  match rev lvl with
  | lastInLevel :: _ =>
      ltb (it_x2 lastInLevel + MIN_SPACING) (it_x it)
      && negb (conflictsWithDateLabel dateLabelPositions it)
  | [] => false             (* a level is never empty *)
  end.

(** Assign collision-free levels to events. *)
Definition assignLevelsToEvents (eventsWithX : list Item) (MIN_SPACING : Q)
                                (dateLabelPositions : list Span)
  : list (list Item) :=
  assignLevels (fitsAfterLast MIN_SPACING dateLabelPositions) eventsWithX.

(** [fitsInLevelSingle] and [fitsInLevel]: no overlap with the spaced-out
    extent of any event of the level. *)
Definition fitsInLevel (MIN_SPACING : Q) (lvl : list Item) (it : Item) : bool :=
  forallb (fun existing =>
             let existingStart := it_x existing - MIN_SPACING in
             let existingEnd := it_x2 existing + MIN_SPACING in
             ltb (it_x2 it) existingStart || ltb existingEnd (it_x it))
          lvl.

(** An element of [positions]. *)
Record Position : Type := mkPosition {
  p_event : Event;
  p_x : Q;
  p_x2 : Q;
  p_y : Q;
  p_level : nat
}.

(** [levels.forEach((level, levelIndex) => level.forEach(... push ...))],
    from level index [levelIndex] on. *)
Fixpoint positionsFrom {A} (mk : nat -> Item -> A) (levelIndex : nat)
                       (levels : list (list Item)) : list A :=
  match levels with
  | [] => []
  | level :: rest =>
      List.map (mk levelIndex) level ++ positionsFrom mk (S levelIndex) rest
  end.

Definition LABEL_HEIGHT : Q := 30.

Definition levelQ (n : nat) : Q := inject_Z (Z.of_nat n).

Definition abovePosition (axisY : Q) (levelIndex : nat) (it : Item) : Position :=
  let offset := levelQ levelIndex + 1 in
  mkPosition (it_event it) (it_x it) (it_x2 it)
             (axisY - offset * LABEL_HEIGHT) levelIndex.

Definition belowPosition (axisY : Q) (levelIndex : nat) (it : Item) : Position :=
  let offset := levelQ levelIndex + 1 in
  mkPosition (it_event it) (it_x it) (it_x2 it)
             (axisY + offset * LABEL_HEIGHT) levelIndex.

Definition alternatingPosition (axisY : Q) (levelIndex : nat) (it : Item) : Position :=
  let direction := if Nat.even levelIndex then -1 else 1 in
  let offset := levelQ (Nat.div levelIndex 2) + 2 in
  mkPosition (it_event it) (it_x it) (it_x2 it)
             (axisY + direction * offset * LABEL_HEIGHT) levelIndex.

(** Calculate event positions with collision detection.  [state] is read for
    [state.filters.entity] only; [endDate] is a parameter the body does not
    use. *)
Definition calculateEventPositions (st : State) (evs : list Event)
    (startDate endDate : Z) (axisStartX scale axisY : Q)
    (dateLabelPositions : list Span) : list Position :=
  let MIN_SPACING := 200 in
  let filteringByEntity := f_entity (filters st) in
  let eventsWithX := sortByDate (itemsOf startDate axisStartX scale evs) in
  match filteringByEntity with
  | _ :: _ =>
      let isPrimary := fun it =>
        includes (primaryEntities (it_event it)) (Str filteringByEntity) in
      let primaryEvents := filter isPrimary eventsWithX in
      let secondaryEvents := filter (fun it => negb (isPrimary it)) eventsWithX in
      let primaryLevels :=
        assignLevelsToEvents primaryEvents MIN_SPACING dateLabelPositions in
      let secondaryLevels :=
        assignLevelsToEvents secondaryEvents MIN_SPACING dateLabelPositions in
      positionsFrom (abovePosition axisY) 0 primaryLevels
      ++ positionsFrom (belowPosition axisY) 0 secondaryLevels
  | [] =>
      let levels := assignLevels (fitsInLevel MIN_SPACING) eventsWithX in
      positionsFrom (alternatingPosition axisY) 0 levels
  end.

(** An element of [positioned], of the split views. *)
Record Positioned : Type := mkPositioned {
  r_event : Event;
  r_x : Q;
  r_x2 : Q;
  r_labelYOffset : Q
}.

Definition primaryLabel (levelIndex : nat) (it : Item) : Positioned :=
  mkPositioned (it_event it) (it_x it) (it_x2 it)
               (- (levelQ levelIndex * LABEL_HEIGHT + 15)).

Definition secondaryLabel (levelIndex : nat) (it : Item) : Positioned :=
  mkPositioned (it_event it) (it_x it) (it_x2 it)
               (levelQ levelIndex * LABEL_HEIGHT + 20).

(** The layout of one row of [renderSplitTimeline]: the events of the row
    [key], split into primary and secondary when rows are entities, levelled
    on each side, and turned into label offsets. *)
Definition splitRowPositions (splitBy : ViewMode) (key : jstring)
    (rowEvents : list Event) (startDate : Z) (axisStartX scale : Q)
  : list Positioned :=
  let eventsWithX := sortByDate (itemsOf startDate axisStartX scale rowEvents) in
  let isPrimary := fun it =>
    match splitBy with
    | entity => includes (primaryEntities (it_event it)) (Str key)
    | _ => true
    end in
  let primaryEvents := filter isPrimary eventsWithX in
  let secondaryEvents := filter (fun it => negb (isPrimary it)) eventsWithX in
  let MIN_SPACING := 80 in
  let primaryLevels := assignLevels (fitsInLevel MIN_SPACING) primaryEvents in
  let secondaryLevels := assignLevels (fitsInLevel MIN_SPACING) secondaryEvents in
  positionsFrom primaryLabel 0 primaryLevels
  ++ positionsFrom secondaryLabel 0 secondaryLevels.

End Host.

(** *** The vocabulary of the layout properties *)

(** The spaced-out extents [x - spacing, x2 + spacing] of two placements do
    not intersect. *)
Definition paddedDisjoint (spacing x x2 x' x2' : Q) : Prop :=
  x2 + spacing < x' - spacing \/ x2' + spacing < x - spacing.

(** What [fitsInLevelSingle] and [fitsInLevel] compare: the fields [x'] and
    [x2'] of the new item, as they are stored, with the fields of an item of
    the level moved out by the spacing. *)
Definition passes (spacing x x2 x' x2' : Q) : Prop :=
  x2' < x - spacing \/ x2 + spacing < x'.

Definition passesItems (spacing : Q) (a b : Item) : Prop :=
  passes spacing (it_x a) (it_x2 a) (it_x b) (it_x2 b).

(** An event takes up the pixels between its markers at [x] and at [x2],
    whichever of the two is on the left; its label sits half-way.  The later
    placement lies wholly outside the extent of the earlier one widened by
    the spacing on both sides: all of it is left of that extent, or all of it
    is right of it. *)
Definition clearOf (spacing x x2 x' x2' : Q) : Prop :=
  Qmax x' x2' < Qmin x x2 - spacing \/ Qmax x x2 + spacing < Qmin x' x2'.

(** The item is stored left to right. *)
Definition leftToRight (it : Item) : Prop := it_x it <= it_x2 it.

(** The order of the sort, and the order of the pixel positions. *)
Definition byDate (a b : Item) : Prop := (it_date a <= it_date b)%Z.
Definition byX (a b : Item) : Prop := it_x a <= it_x b.

(** The item is what [itemOf] makes of its event. *)
Definition madeBy (Date_parse : jstring -> option Z)
                  (startDate : Z) (axisStartX scale : Q) (it : Item) : Prop :=
  itemOf Date_parse startDate axisStartX scale (it_event it) = Some it.

(** The next item starts more than the spacing after the end of this one. *)
Definition rightOf (spacing : Q) (a b : Item) : Prop :=
  it_x2 a + spacing < it_x b.

(** A placement is above the baseline. *)
Definition isAbove (axisY : Q) (p : Position) : bool := ltb (p_y p) axisY.





End Renderer.

(* ================================================================= *)
(** ** Concrete inputs *)

Module Examples.

Import Renderer.

Open Scope Q_scope.

Definition pointEvent (id date : string) : Event :=
  {| ev_id := u id;
     ev_startDate := Str (u date);
     ev_computedDate := Str (u date);
     ev_endDate := Null;
     ev_isOngoing := false;
     ev_entities := Some [u "Alice"];
     ev_entity := Undefined;
     ev_secondaryEntities := Some [];
     ev_goal := Str (u "Launch") |}.

(** The event the data manager stores for a parse result. *)
Definition eventOf (id : string) (r : DateParser.ParseResult) : Event :=
  {| ev_id := u id;
     ev_startDate := Str (DateParser.startDate r);
     ev_computedDate := Str (DateParser.startDate r);
     ev_endDate := match DateParser.endDate r with Some e => Str e | None => Null end;
     ev_isOngoing := DateParser.isOngoing r;
     ev_entities := Some [u "Alice"];
     ev_entity := Undefined;
     ev_secondaryEntities := Some [];
     ev_goal := Str (u "Launch") |}.

Definition noFilters : Filters :=
  {| f_search := []; f_entity := []; f_goal := [] |}.

Definition stateWith (mode : ViewMode) (z px py : Q) (evs : list Event) : State :=
  {| viewMode := mode; zoom := z; panX := px; panY := py; events := evs;
     filters := noFilters; entityColors := []; isDragging := false;
     lastMouseX := 0; lastMouseY := 0 |}.

Definition canvas : Rect := {| width := 1000; height := 600 |}.

(** One event on 2026-06-01, seen on 2026-11-02. *)
Definition june : list Event := [pointEvent "e1" "2026-06-01"].

(** Two events a day apart, at 300 pixels per day from 2026-01-01 on. *)
Definition newYear : list Event :=
  [pointEvent "a" "2026-01-01"; pointEvent "b" "2026-01-02"].
Definition newYearStart : Z := 1767225600000.
Definition perDay300 : Q := 1 # 288000.

Definition newYearPositions : list Position :=
  calculateEventPositions RefHost.Date_parse (stateWith single 1 0 0 newYear)
    newYear newYearStart (newYearStart + 86400000) 100 perDay300 300 [].

Definition rangeEvent (id from to : string) : Event :=
  {| ev_id := u id;
     ev_startDate := Str (u from);
     ev_computedDate := Str (u from);
     ev_endDate := Str (u to);
     ev_isOngoing := false;
     ev_entities := Some [u "Alice"];
     ev_entity := Undefined;
     ev_secondaryEntities := Some [];
     ev_goal := Str (u "Launch") |}.

(** Under the entity filter "Alice", on a canvas of no width at zoom 10 (a
    scale of -2000 pixels over 60 days): two ranges and a range written
    backwards. *)
Definition backwards : list Event :=
  [rangeEvent "a" "2026-01-01" "2026-01-11";
   rangeEvent "b" "2026-01-02" "2026-02-20";
   rangeEvent "c" "2026-01-10" "2026-01-02"].

Definition filteredByAlice : State :=
  {| viewMode := single; zoom := 10; panX := 0; panY := 0; events := backwards;
     filters := {| f_search := []; f_entity := u "Alice"; f_goal := [] |};
     entityColors := []; isDragging := false; lastMouseX := 0; lastMouseY := 0 |}.

Definition backwardsPositions : list Position :=
  calculateEventPositions RefHost.Date_parse filteredByAlice backwards
    newYearStart (newYearStart + 86400000) 100 (-1 # 2592000) 300 [].

(** What [parse] returns for "June-April 2026" and for "April-June 2026". *)
Definition juneToApril : DateParser.ParseResult :=
  {| DateParser.startDate := u "2026-06-01";
     DateParser.endDate := Some (u "2026-04-28");
     DateParser.isOngoing := false |}.

Definition aprilToJune : DateParser.ParseResult :=
  {| DateParser.startDate := u "2026-04-01";
     DateParser.endDate := Some (u "2026-06-28");
     DateParser.isOngoing := false |}.


(** A point event on 2026-05-15 and the range [parse] makes of
    "June-April 2026", in the unified view of a canvas 1000 pixels wide at
    zoom 4, seen on [RefHost.now]. *)
Definition mayAndJuneToApril : list Event :=
  [pointEvent "a" "2026-05-15"; eventOf "r" juneToApril].

Definition zoomedIn : State := stateWith single 4 0 0 mayAndJuneToApril.

Definition zoomedInPositions : list Position :=
  match renderRange RefHost.Date_parse mayAndJuneToApril RefHost.now with
  | Some (startDate, endDate) =>
      calculateEventPositions RefHost.Date_parse zoomedIn mayAndJuneToApril
        startDate endDate (axisStartXOf zoomedIn)
        (scaleOf canvas zoomedIn startDate endDate)
        (height canvas / 2 + panY zoomedIn) []
  | None => []
  end.

(** A point event on 2026-01-01 and the range [parse] makes of
    "April-June 2026", at 3 pixels per day from 2026-01-01 on: in the unified
    view, and as the row "Alice" of the entity view. *)
Definition newYearAndSpring : list Event :=
  [pointEvent "a" "2026-01-01"; eventOf "r" aprilToJune].
Definition perDay3 : Q := 1 # 28800000.

Definition springPositions : list Position :=
  calculateEventPositions RefHost.Date_parse
    (stateWith single 1 0 0 newYearAndSpring)
    newYearAndSpring newYearStart (newYearStart + 86400000) 100 perDay3 300 [].

Definition springRow : list Positioned :=
  splitRowPositions RefHost.Date_parse entity (u "Alice") newYearAndSpring
                    newYearStart 100 perDay3.


(** Three viewports on [june]: at rest, panned as far right as the clamp
    allows, and grouped by entity. *)
Definition atRest : State := stateWith single 1 0 0 june.
Definition pannedRight : State := stateWith single 1 900 0 june.

Definition nowhere : Position :=
  {| p_event := pointEvent "" ""; p_x := 0; p_x2 := 0; p_y := 0; p_level := 0 |}.

Definition inNoRow : Positioned :=
  {| r_event := pointEvent "" ""; r_x := 0; r_x2 := 0; r_labelYOffset := 0 |}.

(** The two placements of [springPositions] and of [springRow]. *)
Definition springPoint : Position := nth 0 springPositions nowhere.
Definition springRange : Position := nth 1 springPositions nowhere.
Definition springRowPoint : Positioned := nth 0 springRow inNoRow.
Definition springRowRange : Positioned := nth 1 springRow inNoRow.

End Examples.
(* ================================================================= *)
(** * Further parts of the application

  - [Interaction]: the mouse, wheel and keyboard handlers of the renderer, the
    zoom controls and the saved view;
  - [Layout]: the vocabulary of further properties of the collision layout;
  - [Digits]: date expressions written with arbitrary digits;
  - [DataManager]: the in-memory cache of timelines and events and the
    operations on it. *)

From Stdlib Require Import Sorting.Permutation.

(* ================================================================= *)
(** ** Renderer: the interaction handlers and the saved view *)

Module Interaction.

Import Renderer.

Open Scope Q_scope.

Definition withDragging (d : bool) (st : State) : State :=
  mkState (viewMode st) (zoom st) (panX st) (panY st) (events st) (filters st)
          (entityColors st) d (lastMouseX st) (lastMouseY st).
Definition withLastMouse (x y : Q) (st : State) : State :=
  mkState (viewMode st) (zoom st) (panX st) (panY st) (events st) (filters st)
          (entityColors st) (isDragging st) x y.
Definition withViewMode (m : ViewMode) (st : State) : State :=
  mkState m (zoom st) (panX st) (panY st) (events st) (filters st)
          (entityColors st) (isDragging st) (lastMouseX st) (lastMouseY st).

(** What the handlers read of a mouse, wheel or key event. *)
Record MouseEvent : Type := mkMouse {
  clientX : Q;
  clientY : Q;
  onEvent : bool         (* the target is a [circle] or a [text] *)
}.

Record WheelEvent : Type := mkWheel { deltaX : Q; deltaY : Q }.

Inductive Key : Type :=
| KeyPlus        (* '=' or '+' *)
| KeyMinus       (* '-' or '_' *)
| KeyZero        (* '0' *)
| KeyOther.

Record KeyEvent : Type := mkKey {
  withCtrlOrMeta : bool;     (* [e.metaKey || e.ctrlKey] *)
  key : Key
}.

(** The reset of the zoom button and of Ctrl-0: zoom 1, no pan. *)
Definition resetZoom (st : State) : State :=
  withPanY 0 (withPanX 0 (withZoom 1 st)).

(** The view a caller can save and put back: [{zoom, panX, panY}]. *)
Record SavedState : Type := mkSaved { s_zoom : Q; s_panX : Q; s_panY : Q }.

(** Save current renderer state. *)
Definition saveState (st : State) : SavedState :=
  {| s_zoom := zoom st; s_panX := panX st; s_panY := panY st |}.

(** Restore renderer state.  (The slider update and the re-render are
    outside the model.) *)
Definition restoreState (savedState : SavedState) (st : State) : State :=
  withPanY (s_panY savedState)
    (withPanX (s_panX savedState) (withZoom (s_zoom savedState) st)).

(** Set renderer state: each of [zoom], [panX], [panY] that is not
    [undefined] in [newState]. *)
Definition setState (newZoom newPanX newPanY : option Q) (st : State) : State :=
  let st := match newZoom with Some z => withZoom z st | None => st end in
  let st := match newPanX with Some p => withPanX p st | None => st end in
  match newPanY with Some p => withPanY p st | None => st end.

Section Host.

Variable Date_parse : jstring -> option Z.

(** Handle mouse down for panning. *)
Definition handleMouseDown (e : MouseEvent) (st : State) : State :=
  if onEvent e then st
  else withLastMouse (clientX e) (clientY e) (withDragging true st).

(** Handle mouse move for panning. *)
Definition handleMouseMove (svg : option Rect) (e : MouseEvent) (st : State) : State :=
  if negb (isDragging st) then st
  else
    let dx := clientX e - lastMouseX st in
    let dy := clientY e - lastMouseY st in
    let st := withPanX (panX st + dx) st in
    let st := withPanY (panY st + dy) st in
    let st := withLastMouse (clientX e) (clientY e) st in
    constrainPan Date_parse svg st.

(** Handle mouse up. *)
Definition handleMouseUp (st : State) : State := withDragging false st.

(** Handle wheel for horizontal/vertical scrolling. *)
Definition handleWheel (svg : option Rect) (e : WheelEvent) (st : State) : State :=
  let st := if negb (Qeq_bool (deltaX e) 0)
            then withPanX (panX st - deltaX e) st else st in
  let st := if isSplit (viewMode st) && negb (Qeq_bool (deltaY e) 0)
            then withPanY (panY st - deltaY e) st else st in
  constrainPan Date_parse svg st.

(** Handle keyboard shortcuts for zoom control. *)
Definition handleKeyboardZoom (svg : option Rect) (e : KeyEvent) (st : State) : State :=
  if withCtrlOrMeta e then
    match key e with
    | KeyPlus => setZoom Date_parse svg (zoom st * (12 # 10)) st
    | KeyMinus => setZoom Date_parse svg (zoom st / (12 # 10)) st
    | KeyZero => resetZoom st
    | KeyOther => st
    end
  else st.

(** Everything a user can do to the view. *)
Inductive Action : Type :=
| MouseDown (e : MouseEvent)
| MouseMove (e : MouseEvent)
| MouseUp
| Wheel (e : WheelEvent)
| Slider (value : Q)          (* [setZoom(parseFloat(e.target.value))], the value of a range input: a number *)
| ResetButton
| Keyboard (e : KeyEvent)
| SetViewMode (mode : ViewMode).

Definition step (svg : option Rect) (a : Action) (st : State) : State :=
  match a with
  | MouseDown e => handleMouseDown e st
  | MouseMove e => handleMouseMove svg e st
  | MouseUp => handleMouseUp st
  | Wheel e => handleWheel svg e st
  | Slider value => setZoom Date_parse svg value st
  | ResetButton => resetZoom st
  | Keyboard e => handleKeyboardZoom svg e st
  | SetViewMode mode => withViewMode mode st
  end.

Definition run (svg : option Rect) (actions : list Action) (st : State) : State :=
  fold_left (fun st a => step svg a st) actions st.

End Host.

(** An action that is no switch of the view mode. *)
Definition keepsMode (a : Action) : Prop :=
  match a with
  | SetViewMode _ => False
  | _ => True
  end.

(** The zoom is within the bounds of [setZoom]. *)
Definition zoomInBounds (st : State) : Prop :=
  (1 # 10) <= zoom st /\ zoom st <= 10.

(** The bounds [constrainPan] clamps to, for the padded range of the dates
    [d :: dates]: [minPanX], [maxPanX], and [minPanY] of the grouped views. *)
Definition totalTimelineWidth (rect : Rect) (st : State) (d : Z) (dates : list Z) : Q :=
  let (startDate, endDate) := paddedRange d dates in
  let timelineWidth := width rect - leftMarginOf st - MARGIN_right in
  let scale := (timelineWidth * zoom st) / elapsed endDate startDate in
  elapsed endDate startDate * scale.

Definition minPanX (rect : Rect) (st : State) (d : Z) (dates : list Z) : Q :=
  - (totalTimelineWidth rect st d dates - leftMarginOf st).

Definition maxPanX (rect : Rect) (st : State) : Q := width rect - leftMarginOf st.

Definition totalContentHeight (st : State) : Q :=
  inject_Z (Z.of_nat (rowCount st)) * getRowHeight st.

Definition minPanY (rect : Rect) (st : State) : Q :=
  - (totalContentHeight st - height rect + MARGIN_top + MARGIN_bottom).

(** A session on [Examples.atRest]: the slider pulled far beyond its range,
    a zoom out from the keyboard, a drag and a turn of the wheel. *)
Definition session : list Action :=
  [ Slider 50;
    Keyboard {| withCtrlOrMeta := true; key := KeyMinus |};
    MouseDown {| clientX := 10; clientY := 10; onEvent := false |};
    MouseMove {| clientX := 500; clientY := 40; onEvent := false |};
    MouseUp;
    Wheel {| deltaX := 30; deltaY := 5 |} ].

(** The grouped view of [Examples.june], zoomed out to a quarter. *)
Definition zoomedOut : State := Examples.stateWith entity (1 # 4) 0 (-50) Examples.june.

End Interaction.

(* ================================================================= *)
(** ** The vocabulary of further layout properties *)

Module Layout.

Import Renderer.

Open Scope Q_scope.

(** The event has a valid start date, so the layout does not drop it. *)
Definition hasValidStart (Date_parse : jstring -> option Z) (e : Event) : bool :=
  match newDate Date_parse (orField (ev_startDate e) (ev_computedDate e)) with
  | Some _ => true
  | None => false
  end.

(** The extent of [b] is not clear of the spaced-out extent of [a]: the test
    of [fitsInLevel] fails on this pair. *)
Definition crowds (spacing : Q) (x x2 x' x2' : Q) : Prop :=
  x - spacing <= x2' /\ x' <= x2 + spacing.

(** The zone [calculateDateLabelPositions] reserves for the date label of a
    tick at pixel [x]: [LABEL_WIDTH] pixels centred on the tick. *)
Definition LABEL_WIDTH : Q := 60.

Definition dateLabelAt (x : Q) : Span :=
  {| sp_x := x - LABEL_WIDTH / 2; sp_x2 := x + LABEL_WIDTH / 2 |}.

(** The placement is clear of every date label: the pixels it takes up,
    between its [x] and its [x2] whichever is on the left, widened by 30
    pixels on both sides, lie wholly left or wholly right of the zone of
    each label. *)
Definition clearOfLabels (dateLabelPositions : list Span) (x x2 : Q) : Prop :=
  forall dateLabel, In dateLabel dateLabelPositions ->
    Qmax x x2 + 30 < Qmin (sp_x dateLabel) (sp_x2 dateLabel)
    \/ Qmax (sp_x dateLabel) (sp_x2 dateLabel) < Qmin x x2 - 30.

(** The placement overlaps the reserved zone of some date label:
    [conflictsWithDateLabel] is true. *)
Definition hitsLabel (dateLabelPositions : list Span) (x x2 : Q) : Prop :=
  exists dateLabel, In dateLabel dateLabelPositions
    /\ sp_x dateLabel <= x2 + 30 /\ x - 30 <= sp_x2 dateLabel.

(** Every level of [lower] holds an item that keeps [it] out ([blame]). *)
Definition blocked (blame : Item -> Item -> Prop) (lower : list (list Item))
                   (it : Item) : Prop :=
  Forall (fun lvl => exists q, In q lvl /\ blame q it) lower.

(** First fit: every item of every level is kept out of every level below
    its own, [lower] being the levels below the first of [levels]. *)
Fixpoint firstFit (blame : Item -> Item -> Prop) (lower levels : list (list Item))
  : Prop :=
  match levels with
  | [] => True
  | lvl :: rest =>
      Forall (blocked blame lower) lvl /\ firstFit blame (lower ++ [lvl]) rest
  end.

(** Why an item was not accepted on a level: by [fitsInLevel], and by the
    test of [assignLevelsToEvents]. *)
Definition crowdsItem (spacing : Q) (q it : Item) : Prop :=
  crowds spacing (it_x q) (it_x2 q) (it_x it) (it_x2 it).

Definition holdsBack (spacing : Q) (dateLabelPositions : list Span) (q it : Item) : Prop :=
  it_x it <= it_x2 q + spacing
  \/ hitsLabel dateLabelPositions (it_x it) (it_x2 it).

(** The label offset of a level of a split row: above the line for primary
    events, below it for secondary ones. *)
Definition labelOffset (primary : bool) (levelIndex : nat) : Q :=
  if primary then - (levelQ levelIndex * LABEL_HEIGHT + 15)
  else levelQ levelIndex * LABEL_HEIGHT + 20.

(** Two events on the same day: the second one goes one level up.  Seen
    without a filter, under the entity filter "Alice" beside a date label, and
    as the row "Alice" of the entity view. *)
Definition sameDay : list Event :=
  [Examples.pointEvent "a" "2026-01-01"; Examples.pointEvent "b" "2026-01-01"].

Definition sameDayPositions : list Position :=
  calculateEventPositions RefHost.Date_parse (Examples.stateWith single 1 0 0 sameDay)
    sameDay Examples.newYearStart (Examples.newYearStart + 86400000)
    100 Examples.perDay300 300 [].

Definition aliceOnly : State :=
  {| viewMode := single; zoom := 1; panX := 0; panY := 0; events := sameDay;
     filters := {| f_search := []; f_entity := u "Alice"; f_goal := [] |};
     entityColors := []; isDragging := false; lastMouseX := 0; lastMouseY := 0 |}.

Definition januaryLabel : list Span := [ {| sp_x := 80; sp_x2 := 120 |} ].

Definition alicePositions : list Position :=
  calculateEventPositions RefHost.Date_parse aliceOnly
    sameDay Examples.newYearStart (Examples.newYearStart + 86400000)
    100 Examples.perDay300 300 januaryLabel.

(** The point event of 2026-01-01 and the range "April-June 2026" under the
    entity filter "Alice", at 3 pixels per day, with a date label on the tick
    of 2026-01-01: the range joins the level of the point event. *)
Definition aliceSpring : State :=
  {| viewMode := single; zoom := 1; panX := 0; panY := 0;
     events := Examples.newYearAndSpring;
     filters := {| f_search := []; f_entity := u "Alice"; f_goal := [] |};
     entityColors := []; isDragging := false; lastMouseX := 0; lastMouseY := 0 |}.

Definition januaryTick : list Q := [100].

Definition aliceSpringPositions : list Position :=
  calculateEventPositions RefHost.Date_parse aliceSpring
    Examples.newYearAndSpring Examples.newYearStart
    (Examples.newYearStart + 86400000) 100 Examples.perDay3 300
    (List.map dateLabelAt januaryTick).

Definition aliceSpringPoint : Position := nth 0 aliceSpringPositions Examples.nowhere.
Definition aliceSpringRange : Position := nth 1 aliceSpringPositions Examples.nowhere.

Definition aliceRow : list Positioned :=
  splitRowPositions RefHost.Date_parse entity (u "Alice") sameDay
                    Examples.newYearStart 100 Examples.perDay300.

Definition noRow : Positioned :=
  {| r_event := Examples.pointEvent "" ""; r_x := 0; r_x2 := 0; r_labelYOffset := 0 |}.

End Layout.

(* ================================================================= *)
(** ** Date expressions with arbitrary digits *)

Module Digits.

Import DateParser.

(** A pattern that names no digit: its literals and its bracket classes are
    letters, spaces and dashes; digits are matched by [\d] only.  Every
    pattern of the parser is of this kind. *)
Definition classDigitFree (k : class) : bool :=
  match k with
  | OneOf l => forallb (fun c => negb (isDigit c)) l
  | _ => true
  end.

Fixpoint digitFree (r : re) : bool :=
  match r with
  | Lit c => negb (isDigit c)
  | Cls k => classDigitFree k
  | Rep k _ _ => classDigitFree k
  | Seq a b => digitFree a && digitFree b
  | Alt a b => digitFree a && digitFree b
  | Opt a => digitFree a
  | Grp _ a => digitFree a
  | Eps | Bol | Eol => true
  end.

(** A substitution of digits for digits that leaves every other code unit
    alone. *)
Definition renamesDigits (h : N -> N) : Prop :=
  forall c, if isDigit c then isDigit (h c) = true else h c = c.

(** The substitution that writes the digits [ds] for 0, 1, 2, ... *)
Definition rename (ds : list N) (c : N) : N :=
  if isDigit c then nth (N.to_nat (c - 48)) ds c else c.

(** The capture [i] of the leftmost match, [None] when there is no match or
    the group took no part in it. *)
Definition capture (ci : bool) (r : re) (text : jstring) (i : nat) : option jstring :=
  match jsMatch ci r text with
  | Some m => m i
  | None => None
  end.

(** A string of decimal digits, and the number it writes. *)
Definition allDigits (ds : jstring) : Prop := forallb isDigit ds = true.

Definition valueOf (ds : jstring) : N := parseDigits 0 ds.

(** [year < 100 ? 2000 + year : year] *)
Definition fiscalYearOf (n : N) : N := if (n <? 100)%N then (n + 2000)%N else n.

(** A year the parser takes for plausible. *)
Definition plausible (y : N) : bool := ((2000 <=? y) && (y <=? 2100))%N.

(** What the end of [parse] does with a text no pattern takes: the text goes
    to [new Date]. *)
Definition fallback (Date_parse : jstring -> option Z)
                    (getFullYear getMonth getDate : Z -> Z) (text : jstring)
  : completion (option ParseResult) :=
  match Date_parse text with
  | Some t => Normal (Some (point (formatDate getFullYear getMonth getDate t)))
  | None => Normal None
  end.

(** The ways of writing the expressions of a family. *)
Open Scope string_scope.
Definition endOfYearPhrases : list string := ["end of "; "End of "; "by the end of "].
Definition startingInPhrases : list string :=
  ["starting in "; "start in "; "beginning in "; "beginning of "; "Starting in "].
Definition yearRangeSeparators : list string := ["-"; " - "].
Close Scope string_scope.

(** A host five hours west of Greenwich: [new Date(text)] reads an ISO
    date as midnight UTC, the getters answer in local time. *)
Definition westOffset : Z := (5 * 3600000)%Z.
Definition westGetFullYear (t : Z) : Z := RefHost.getFullYear (t - westOffset).
Definition westGetMonth (t : Z) : Z := RefHost.getMonth (t - westOffset).
Definition westGetDate (t : Z) : Z := RefHost.getDate (t - westOffset).

End Digits.

(* ================================================================= *)
(** ** DataManager: timelines and events in memory

    The in-memory cache [data] of the data manager and the operations on it.
    Event objects are finite maps from property names to values, because
    [updateEvent] merges an arbitrary [updates] object into them; timelines
    are records of the four properties the code gives them.  [save], which
    copies [data] to [localStorage], and the JSON text of the import and
    export functions are outside the model.  [generateId] (clock and random
    number) is a host function of the number of calls made so far. *)

Module DataManager.

Open Scope js_scope.

(** The values the properties of an event take. *)
#[warnings="-register-all"]
Inductive value : Type :=
| Undefined
| Null
| Bool (b : bool)
| Str (s : jstring)
| Arr (l : list value).

Definition truthy (v : value) : bool :=
  match v with
  | Undefined | Null => false
  | Bool b => b
  | Str [] => false
  | Str (_ :: _) => true
  | Arr _ => true
  end.

(** [a || b] *)
Definition oror (a b : value) : value := if truthy a then a else b.

(** An object: its own properties in insertion order, no key twice. *)
Definition obj := list (string * value).

Definition has (o : obj) (k : string) : bool :=
  existsb (fun kv => String.eqb (fst kv) k) o.

(** [o.k], [undefined] when [o] has no such property. *)
Definition get (o : obj) (k : string) : value :=
  match find (fun kv => String.eqb (fst kv) k) o with
  | Some kv => snd kv
  | None => Undefined
  end.

(** [o.k = v] *)
Definition set (k : string) (v : value) (o : obj) : obj :=
  if has o k
  then List.map (fun kv => if String.eqb (fst kv) k then (k, v) else kv) o
  else o ++ [(k, v)].

(** [delete o.k] *)
Definition delete (k : string) (o : obj) : obj :=
  filter (fun kv => negb (String.eqb (fst kv) k)) o.

(** [Object.assign(target, source)] *)
Definition assign (target source : obj) : obj :=
  fold_left (fun t kv => set (fst kv) (snd kv) t) source target.

(** [s.split(',')] *)
Fixpoint splitOn (sep : N) (s : jstring) : list jstring :=
  match s with
  | [] => [[]]
  | c :: s' =>
      if N.eqb c sep then [] :: splitOn sep s'
      else match splitOn sep s' with
           | piece :: pieces => (c :: piece) :: pieces
           | [] => [[c]]
           end
  end.

Definition comma : N := 44.

Definition nonEmpty (e : jstring) : bool :=
  match e with [] => false | _ :: _ => true end.

(** [s.split(',').map(e => e.trim()).filter(e => e)] *)
Definition splitNames (s : jstring) : list jstring :=
  filter nonEmpty (List.map trim (splitOn comma s)).

Definition names (s : jstring) : value := Arr (List.map Str (splitNames s)).

Record Timeline : Type := mkTimeline {
  t_id : jstring;
  t_name : jstring;
  t_events : list obj;
  t_createdAt : jstring
}.

(** The cache: [activeTimelineId] is [None] for [null]. *)
Record Data : Type := mkData {
  timelines : list Timeline;
  activeTimelineId : option jstring
}.

(** The cache and the number of calls of [generateId] so far. *)
Record World : Type := mkWorld {
  data : Data;
  calls : nat
}.

(** The properties of [updates] that [updateTimeline] can change on a
    timeline; [None] for a property [updates] does not have. *)
Record TimelineUpdates : Type := mkTimelineUpdates {
  up_id : option jstring;
  up_name : option jstring;
  up_events : option (list obj);
  up_createdAt : option jstring
}.

(** The parsed JSON text [importTimeline] works on: [imported.name], a
    string, and [imported.events], [None] when that is not an array. *)
Record Imported : Type := mkImported {
  im_name : jstring;
  im_events : option (list obj)
}.

Definition withData (d : Data) (w : World) : World :=
  {| data := d; calls := calls w |}.

Definition withEvents (evs : list obj) (t : Timeline) : Timeline :=
  {| t_id := t_id t; t_name := t_name t; t_events := evs; t_createdAt := t_createdAt t |}.

(** [l[i] = f(l[i])] *)
Fixpoint updateAt {A} (i : nat) (f : A -> A) (l : list A) : list A :=
  match l, i with
  | [], _ => []
  | x :: l', O => f x :: l'
  | x :: l', S i' => x :: updateAt i' f l'
  end.

(** [l.findIndex(p)], [None] for -1. *)
Fixpoint findIndex {A} (p : A -> bool) (l : list A) : option nat :=
  match l with
  | [] => None
  | x :: l' => if p x then Some O else option_map S (findIndex p l')
  end.

(** [l.splice(i, 1)] *)
Fixpoint removeAt {A} (i : nat) (l : list A) : list A :=
  match l, i with
  | [], _ => []
  | _ :: l', O => l'
  | x :: l', S i' => x :: removeAt i' l'
  end.

(** [e.id === id] for a string [id]. *)
Definition hasId (id : jstring) (e : obj) : bool :=
  match get e "id" with
  | Str s => jeqb s id
  | _ => false
  end.

Definition isTimeline (id : jstring) (t : Timeline) : bool := jeqb (t_id t) id.

(** [t.id === data.activeTimelineId] *)
Definition isActive (d : Data) (t : Timeline) : bool :=
  match activeTimelineId d with
  | Some id => isTimeline id t
  | None => false
  end.

(** The place in [data.timelines] of what [getActiveTimeline] returns:
    the first timeline with the active id, or else the first timeline. *)
Definition activeIndex (d : Data) : option nat :=
  match findIndex (isActive d) (timelines d) with
  | Some i => Some i
  | None => match timelines d with [] => None | _ :: _ => Some O end
  end.

(** Get active timeline. *)
Definition getActiveTimeline (d : Data) : option Timeline :=
  match find (isActive d) (timelines d) with
  | Some t => Some t
  | None => head (timelines d)
  end.

(** Get all timelines. *)
Definition getTimelines (d : Data) : list Timeline := timelines d.

(** Get all events from active timeline. *)
Definition getEvents (d : Data) : list obj :=
  match getActiveTimeline d with
  | Some timeline => t_events timeline
  | None => []
  end.

(** Get event by ID. *)
Definition getEvent (id : jstring) (d : Data) : option obj :=
  match getActiveTimeline d with
  | Some timeline => find (hasId id) (t_events timeline)
  | None => None
  end.

Section Host.

Variable toLowerCase : jstring -> jstring.
Variable Date_parse : jstring -> option Z.
Variables getFullYear getMonth getDate : Z -> Z.
Variable now : Z.
(** The result of the [n]-th call of [generateId]. *)
Variable generateIdAt : nat -> jstring.
(** [new Date().toISOString()] *)
Variable nowIso : jstring.

(** [DateParser.parse(text)] for a property value: a falsy value gives
    [null], a string is parsed, and any other value has no [toLowerCase]. *)
Definition parseValue (text : value) : completion (option DateParser.ParseResult) :=
  match text with
  | Str s => DateParser.parse toLowerCase Date_parse getFullYear getMonth getDate now s
  | Undefined | Null | Bool false => Normal None
  | Bool true | Arr _ => Throw "TypeError: text.toLowerCase is not a function"
  end.

(** [parsed?.startDate || null] and its siblings. *)
Definition stringOrNull (s : option jstring) : value :=
  match s with
  | Some (c :: s') => Str (c :: s')
  | _ => Null
  end.

Definition parsedStart (parsed : option DateParser.ParseResult) : value :=
  stringOrNull (option_map DateParser.startDate parsed).

Definition parsedEnd (parsed : option DateParser.ParseResult) : value :=
  match parsed with
  | Some r => stringOrNull (DateParser.endDate r)
  | None => Null
  end.

Definition parsedOngoing (parsed : option DateParser.ParseResult) : value :=
  match parsed with
  | Some r => Bool (DateParser.isOngoing r)
  | None => Bool false
  end.

(** Generate unique ID. *)
Definition generateId (w : World) : jstring * World :=
  (generateIdAt (calls w), {| data := data w; calls := S (calls w) |}).

(** Create a new timeline object. *)
Definition createTimeline (name : jstring) (w : World) : Timeline * World :=
  let (id, w) := generateId w in
  ({| t_id := id;
      t_name := match name with [] => u "Untitled Timeline" | _ :: _ => name end;
      t_events := [];
      t_createdAt := nowIso |}, w).

(** The [entities] of [createEvent]. *)
Definition createdEntities (eventData : obj) : value :=
  let entities := oror (get eventData "entities") (get eventData "entity") in
  if negb (truthy entities) then Arr []
  else match entities with
       | Str s => names s
       | Arr l => Arr l
       | other => Arr [other]
       end.

(** The [secondaryEntities] of [createEvent]. *)
Definition createdSecondaryEntities (eventData : obj) : value :=
  let secondaryEntities := oror (get eventData "secondaryEntities") (Arr []) in
  match secondaryEntities with
  | Str s => names s
  | Arr l => Arr l
  | _ => Arr []
  end.

(** [startDate], [endDate], [isOngoing] and [computedDate] of
    [createEvent]. *)
Definition createdDates (eventData : obj)
  : completion (value * value * value * value) :=
  if truthy (oror (get eventData "startDate") (get eventData "computedDate"))
  then
    (* Has pre-computed dates, use them *)
    Normal (oror (get eventData "startDate") (get eventData "computedDate"),
            oror (get eventData "endDate") Null,
            oror (get eventData "isOngoing") (Bool false),
            oror (get eventData "computedDate") (get eventData "startDate"))
  else
    (* Parse from deadlineText *)
    parsedDate <- parseValue (get eventData "deadlineText") ;;
    Normal (parsedStart parsedDate, parsedEnd parsedDate,
            parsedOngoing parsedDate, parsedStart parsedDate).

(** Create a new event object.  The result is the world after the call
    and what the call returned or threw. *)
Definition createEvent (eventData : obj) (w : World) : World * completion obj :=
  let entities := createdEntities eventData in
  let secondaryEntities := createdSecondaryEntities eventData in
  match createdDates eventData with
  | Normal (startDate, endDate, isOngoing, computedDate) =>
      let (id, w) :=
        if truthy (get eventData "id") then (get eventData "id", w)
        else let (fresh, w) := generateId w in (Str fresh, w) in
      (w,
       Normal [ ("id", id);
                ("title", get eventData "title");
                ("description", oror (get eventData "description") (Str []));
                ("goal", get eventData "goal");
                ("entities", entities);
                ("secondaryEntities", secondaryEntities);
                ("deadlineText", get eventData "deadlineText");
                ("startDate", startDate);
                ("endDate", endDate);
                ("isOngoing", isOngoing);
                ("computedDate", computedDate);
                ("createdAt", oror (get eventData "createdAt") (Str nowIso)) ]%string)
  | Throw e => (w, Throw e)
  end.

(** *** Timeline operations *)

(** Add new timeline. *)
Definition addTimeline (name : jstring) (w : World) : Timeline * World :=
  let (timeline, w) := createTimeline name w in
  (timeline,
   withData {| timelines := timelines (data w) ++ [timeline];
               activeTimelineId := Some (t_id timeline) |} w).

(** [Object.assign(timeline, updates)] *)
Definition assignTimeline (updates : TimelineUpdates) (t : Timeline) : Timeline :=
  {| t_id := match up_id updates with Some v => v | None => t_id t end;
     t_name := match up_name updates with Some v => v | None => t_name t end;
     t_events := match up_events updates with Some v => v | None => t_events t end;
     t_createdAt :=
       match up_createdAt updates with Some v => v | None => t_createdAt t end |}.

(** Update timeline. *)
Definition updateTimeline (id : jstring) (updates : TimelineUpdates) (w : World)
  : option Timeline * World :=
  match findIndex (isTimeline id) (timelines (data w)) with
  | Some i =>
      let d := {| timelines := updateAt i (assignTimeline updates) (timelines (data w));
                  activeTimelineId := activeTimelineId (data w) |} in
      (nth_error (timelines d) i, withData d w)
  | None => (None, w)
  end.

(** [data.timelines[0]?.id || null] *)
Definition firstId (l : list Timeline) : option jstring :=
  match l with
  | t :: _ => match t_id t with [] => None | _ :: _ => Some (t_id t) end
  | [] => None
  end.

(** Delete timeline. *)
Definition deleteTimeline (id : jstring) (w : World) : bool * World :=
  match findIndex (isTimeline id) (timelines (data w)) with
  | Some index =>
      let remaining := removeAt index (timelines (data w)) in
      (* If we deleted the active timeline, switch to another *)
      let active :=
        match activeTimelineId (data w) with
        | Some a => if jeqb a id then firstId remaining else Some a
        | None => None
        end in
      (* Ensure we always have at least one timeline *)
      match remaining with
      | [] =>
          let (defaultTimeline, w) := createTimeline (u "My Timeline") w in
          (true, withData {| timelines := [defaultTimeline];
                             activeTimelineId := Some (t_id defaultTimeline) |} w)
      | _ :: _ =>
          (true, withData {| timelines := remaining; activeTimelineId := active |} w)
      end
  | None => (false, w)
  end.

(** [timeline.events.map(e => ({...e, id: generateId()}))] *)
Fixpoint reidentify (evs : list obj) (w : World) : list obj * World :=
  match evs with
  | [] => ([], w)
  | e :: rest =>
      let (id, w) := generateId w in
      let (rest', w) := reidentify rest w in
      (set "id" (Str id) e :: rest', w)
  end.

(** Duplicate timeline. *)
Definition duplicateTimeline (id : jstring) (w : World) : option Timeline * World :=
  match find (isTimeline id) (timelines (data w)) with
  | Some timeline =>
      let (newId, w) := generateId w in
      let (evs, w) := reidentify (t_events timeline) w in
      let duplicate :=
        {| t_id := newId;
           t_name := t_name timeline ++ u " (Copy)";
           t_events := evs;
           t_createdAt := nowIso |} in
      (Some duplicate,
       withData {| timelines := timelines (data w) ++ [duplicate];
                   activeTimelineId := Some (t_id duplicate) |} w)
  | None => (None, w)
  end.

(** Set active timeline. *)
Definition setActiveTimeline (id : jstring) (w : World) : bool * World :=
  if existsb (isTimeline id) (timelines (data w))
  then (true, withData {| timelines := timelines (data w);
                          activeTimelineId := Some id |} w)
  else (false, w).

(** Clear all data. *)
Definition clearAll (w : World) : World :=
  let w := withData {| timelines := []; activeTimelineId := None |} w in
  let (defaultTimeline, w) := createTimeline (u "My Timeline") w in
  withData {| timelines := timelines (data w) ++ [defaultTimeline];
              activeTimelineId := Some (t_id defaultTimeline) |} w.

(** *** Event operations *)

(** [timeline.events = f(timeline.events)] on the active timeline. *)
Definition onActiveEvents (f : list obj -> list obj) (i : nat) (w : World) : World :=
  withData {| timelines :=
                updateAt i (fun t => withEvents (f (t_events t)) t) (timelines (data w));
              activeTimelineId := activeTimelineId (data w) |} w.

(** Add event to active timeline. *)
Definition addEvent (eventData : obj) (w : World) : World * completion (option obj) :=
  match activeIndex (data w) with
  | Some i =>
      match createEvent eventData w with
      | (w, Normal event) =>
          (onActiveEvents (fun evs => evs ++ [event]) i w, Normal (Some event))
      | (w, Throw e) => (w, Throw e)
      end
  | None => (w, Normal None)
  end.

(** The [updates] that reach [Object.assign] in [updateEvent]: a truthy
    [entity] has become [entities]. *)
Definition normalizedUpdates (updates : obj) : obj :=
  if truthy (get updates "entity") then
    let entities :=
      match get updates "entity" with
      | Str s => names s
      | other => other
      end in
    delete "entity" (set "entities" entities updates)
  else updates.

(** The event after [Object.assign], and after the dates were computed
    again. *)
Definition redated (parsed : option DateParser.ParseResult) (event : obj) : obj :=
  set "computedDate" (parsedStart parsed)
    (set "isOngoing" (parsedOngoing parsed)
      (set "endDate" (parsedEnd parsed)
        (set "startDate" (parsedStart parsed) event))).

(** Update event. *)
Definition updateEvent (id : jstring) (updates : obj) (w : World)
  : World * completion (option obj) :=
  match activeIndex (data w) with
  | Some i =>
      match nth_error (timelines (data w)) i with
      | Some timeline =>
          match findIndex (hasId id) (t_events timeline) with
          | Some j =>
              let updates := normalizedUpdates updates in
              let assigned := onActiveEvents (updateAt j (fun e => assign e updates)) i w in
              if truthy (get updates "deadlineText") then
                (* Recompute date if deadline text changed *)
                match parseValue (get updates "deadlineText") with
                | Normal parsed =>
                    let w := onActiveEvents
                               (updateAt j (fun e => redated parsed (assign e updates))) i w in
                    (w, Normal (option_map (fun e => redated parsed (assign e updates))
                                           (nth_error (t_events timeline) j)))
                | Throw e => (assigned, Throw e)
                end
              else
                (assigned, Normal (option_map (fun e => assign e updates)
                                              (nth_error (t_events timeline) j)))
          | None => (w, Normal None)
          end
      | None => (w, Normal None)
      end
  | None => (w, Normal None)
  end.

(** Delete event. *)
Definition deleteEvent (id : jstring) (w : World) : bool * World :=
  match activeIndex (data w) with
  | Some i =>
      match nth_error (timelines (data w)) i with
      | Some timeline =>
          match findIndex (hasId id) (t_events timeline) with
          | Some index => (true, onActiveEvents (removeAt index) i w)
          | None => (false, w)
          end
      | None => (false, w)
      end
  | None => (false, w)
  end.

(** *** Import *)

(** [event.entity || (event.entities && event.entities.length > 0)] *)
Definition hasEntity (event : obj) : bool :=
  truthy (get event "entity")
  || match get event "entities" with
     | Str (_ :: _) => true
     | Arr (_ :: _) => true
     | _ => false
     end.

(** The test of the validation loop of [importTimeline]. *)
Definition validEvent (event : obj) : bool :=
  truthy (get event "title") && truthy (get event "goal")
  && hasEntity event && truthy (get event "deadlineText").

(** [imported.events.map(e => createEvent(e))] *)
Fixpoint createEvents (evs : list obj) (w : World) : World * completion (list obj) :=
  match evs with
  | [] => (w, Normal [])
  | e :: rest =>
      match createEvent e w with
      | (w, Normal event) =>
          match createEvents rest w with
          | (w, Normal events) => (w, Normal (event :: events))
          | (w, Throw e) => (w, Throw e)
          end
      | (w, Throw e) => (w, Throw e)
      end
  end.

(** Import timeline from the parsed JSON text.  A failed import leaves
    [data] as it was. *)
Definition importTimeline (imported : Imported) (w : World)
  : World * completion Timeline :=
  match im_name imported, im_events imported with
  | _ :: _, Some evs =>
      if forallb validEvent evs then
        let (timeline, w) := createTimeline (im_name imported) w in
        match createEvents evs w with
        | (w, Normal events) =>
            let timeline := withEvents events timeline in
            (withData {| timelines := timelines (data w) ++ [timeline];
                         activeTimelineId := Some (t_id timeline) |} w,
             Normal timeline)
        | (w, Throw e) => (w, Throw e)
        end
      else (w, Throw "Invalid event format")
  | _, _ => (w, Throw "Invalid timeline format")
  end.

(** *** Everything a caller can do to the cache *)

Inductive Op : Type :=
| AddTimeline (name : jstring)
| UpdateTimeline (id : jstring) (updates : TimelineUpdates)
| DeleteTimeline (id : jstring)
| DuplicateTimeline (id : jstring)
| SetActiveTimeline (id : jstring)
| AddEvent (eventData : obj)
| UpdateEvent (id : jstring) (updates : obj)
| DeleteEvent (id : jstring)
| ImportTimeline (imported : Imported)
| ClearAll.

Definition step (w : World) (op : Op) : World :=
  match op with
  | AddTimeline name => snd (addTimeline name w)
  | UpdateTimeline id updates => snd (updateTimeline id updates w)
  | DeleteTimeline id => snd (deleteTimeline id w)
  | DuplicateTimeline id => snd (duplicateTimeline id w)
  | SetActiveTimeline id => snd (setActiveTimeline id w)
  | AddEvent eventData => fst (addEvent eventData w)
  | UpdateEvent id updates => fst (updateEvent id updates w)
  | DeleteEvent id => snd (deleteEvent id w)
  | ImportTimeline imported => fst (importTimeline imported w)
  | ClearAll => clearAll w
  end.

Definition run (ops : list Op) (w : World) : World := fold_left step ops w.

End Host.

(** The ids of the timelines of the cache. *)
Definition timelineIds (d : Data) : list jstring := List.map t_id (timelines d).

(** There is a timeline, no timeline has the empty id, and the active id is
    the id of a timeline. *)
Definition activeExists (d : Data) : Prop :=
  timelineIds d <> []
  /\ Forall (fun id => id <> []) (timelineIds d)
  /\ exists id, activeTimelineId d = Some id /\ In id (timelineIds d).

(** An operation that does not give a timeline another id. *)
Definition keepsIds (op : Op) : Prop :=
  match op with
  | UpdateTimeline _ updates => up_id updates = None
  | _ => True
  end.

(** An object has no property twice. *)
Definition wellFormed (o : obj) : Prop := NoDup (List.map fst o).

(** A stored entity name: not empty, no white space around it, no comma. *)
Definition cleanName (e : jstring) : Prop :=
  e <> [] /\ trim e = e /\ ~ In comma e.

End DataManager.

(** A host for the data manager, and a session: the ids are "id0", "id1",
    ..., the clock stands still. *)
Module DataExamples.

Import DataManager.

Definition generateIdAt (n : nat) : jstring := u "id" ++ stringOfN (N.of_nat n).

Definition nowIso : jstring := u "2026-11-02T00:00:00.000Z".

Definition createEvent :=
  DataManager.createEvent RefHost.toLowerCase RefHost.Date_parse RefHost.getFullYear
    RefHost.getMonth RefHost.getDate RefHost.now generateIdAt nowIso.
Definition addEvent :=
  DataManager.addEvent RefHost.toLowerCase RefHost.Date_parse RefHost.getFullYear
    RefHost.getMonth RefHost.getDate RefHost.now generateIdAt nowIso.
Definition updateEvent :=
  DataManager.updateEvent RefHost.toLowerCase RefHost.Date_parse RefHost.getFullYear
    RefHost.getMonth RefHost.getDate RefHost.now.
Definition run :=
  DataManager.run RefHost.toLowerCase RefHost.Date_parse RefHost.getFullYear
    RefHost.getMonth RefHost.getDate RefHost.now generateIdAt nowIso.

(** The cache after [clearAll]: one timeline, "id0", active. *)
Definition start : World :=
  clearAll generateIdAt nowIso
    {| data := {| timelines := []; activeTimelineId := None |}; calls := 0 |}.

(** What the event form hands over. *)
Definition formData : obj :=
  [ ("title", Str (u "Launch"));
    ("description", Str []);
    ("goal", Str (u "Ship"));
    ("entity", Str (u "Alice, Bob ,,"));
    ("secondaryEntities", Str (u " Carol , Dave"));
    ("deadlineText", Str (u "Q3 2026")) ]%string.

Definition session : list Op :=
  [ AddEvent formData;
    AddTimeline (u "Plan");
    DuplicateTimeline (u "id0");
    DeleteTimeline (u "id3");
    UpdateTimeline (u "id0")
      {| up_id := None; up_name := Some (u "Old"); up_events := None;
         up_createdAt := None |};
    DeleteTimeline (u "id0");
    DeleteTimeline (u "id2") ].

(** The form data added to [start], and then edited with the same data. *)
Definition added : World * completion (option obj) := addEvent formData start.

Definition addedEvent : obj :=
  match snd added with
  | Normal (Some event) => event
  | _ => []
  end.

Definition created : World * completion obj := createEvent formData start.

Definition createdEvent : obj :=
  match snd created with
  | Normal event => event
  | Throw _ => []
  end.

Definition edited : World * completion (option obj) :=
  updateEvent (u "id1") formData (fst added).

Definition editedEvent : obj :=
  match snd edited with
  | Normal (Some event) => event
  | _ => []
  end.

End DataExamples.


(* ================================================================= *)
(** * Properties *)

(** ** Strings *)

Lemma jeqb_eq (a b : jstring) : jeqb a b = true <-> a = b.
Proof.
  unfold jeqb. destruct (list_eq_dec N.eq_dec a b); split; congruence.
Qed.

(** ** The matcher: what a successful match says about the captures *)

Module RegexFacts.

Section Invariant.

(** A property of strings that survives dropping the first code unit and
    cutting at a length: it then holds of the rest of the text at every point
    of a match and of everything a group captures. *)
Variable P : jstring -> Prop.
Hypothesis P_tail : forall x s, P (x :: s) -> P s.
Hypothesis P_firstn : forall k s, P s -> P (firstn k s).

Abbreviation capsAll := (capsAll P).
Abbreviation through := (through P).

Lemma capsLe_refl c : capsLe c c.
Proof. intros i H; exact H. Qed.

Lemma capsLe_trans c1 c2 c3 : capsLe c1 c2 -> capsLe c2 c3 -> capsLe c1 c3.
Proof. intros H12 H23 i H. apply H23, H12, H. Qed.

Lemma capsLe_set i v c : capsLe c (setCap i v c).
Proof.
  intros j H. unfold setCap. destruct (Nat.eqb j i); [discriminate | exact H].
Qed.

Lemma capsAll_set i v c : P v -> capsAll c -> capsAll (setCap i v c).
Proof.
  intros Hv Hc j w. unfold setCap. destruct (Nat.eqb j i).
  - intros [= <-]. exact Hv.
  - apply Hc.
Qed.

Lemma rep_through k : forall s lo hi pos c cont out,
  rep k lo hi pos s c cont = Some out -> P s -> capsAll c ->
  through s c cont out [].
Proof.
  induction s as [|x s IH]; intros lo hi pos c cont out H Ps Pc.
  - simpl in H. destruct lo; [|discriminate].
    exists pos, [], c. repeat split; auto using capsLe_refl; try (intros ? []; fail).
  - simpl in H.
    assert (Hstop : match lo with O => cont pos (x :: s) c | S _ => None end = Some out
                    -> through (x :: s) c cont out []).
    { destruct lo; [|discriminate]. intros E.
      exists pos, (x :: s), c. repeat split; auto using capsLe_refl; try (intros ? []; fail). }
    destruct (match hi with Some O => false | _ => true end && inClass k x).
    + destruct (rep k (Nat.pred lo) (option_map Nat.pred hi) (S pos) s c cont) eqn:E.
      * injection H as <-. apply IH in E; eauto.
      * auto.
    + auto.
Qed.

Lemma exec_through ci : forall r pos s c cont out,
  exec ci r pos s c cont = Some out -> P s -> capsAll c ->
  through s c cont out (sure r).
Proof.
  induction r as [ | p | k | a IHa b IHb | a IHa b IHb | a IHa | k lo hi
                 | i a IHa | | ];
    intros pos s c cont out H Ps Pc; simpl in H.
  - exists pos, s, c. repeat split; auto using capsLe_refl; try (intros ? []; fail).
  - destruct s as [|x s]; [discriminate|].
    destruct (litEq ci p x); [|discriminate].
    exists (S pos), s, c. repeat split; eauto using capsLe_refl; try (intros ? []; fail).
  - destruct s as [|x s]; [discriminate|].
    destruct (inClass k x); [|discriminate].
    exists (S pos), s, c. repeat split; eauto using capsLe_refl; try (intros ? []; fail).
  - apply IHa in H; auto.
    destruct H as (p1 & s1 & c1 & H1 & Ps1 & Pc1 & L1 & S1).
    apply IHb in H1; auto.
    destruct H1 as (p2 & s2 & c2 & H2 & Ps2 & Pc2 & L2 & S2).
    exists p2, s2, c2. repeat split; eauto using capsLe_trans.
    intros i Hi. simpl in Hi. apply in_app_or in Hi. destruct Hi; auto.
  - destruct (exec ci a pos s c cont) eqn:E.
    + injection H as <-. apply IHa in E; auto.
      destruct E as (p1 & s1 & c1 & H1 & Ps1 & Pc1 & L1 & S1).
      exists p1, s1, c1. repeat split; auto.
      intros i Hi. simpl in Hi. apply filter_In in Hi. apply S1, Hi.
    + apply IHb in H; auto.
      destruct H as (p1 & s1 & c1 & H1 & Ps1 & Pc1 & L1 & S1).
      exists p1, s1, c1. repeat split; auto.
      intros i Hi. simpl in Hi. apply filter_In in Hi. destruct Hi as [_ Hi].
      apply existsb_exists in Hi. destruct Hi as (j & Hj & Hij).
      apply Nat.eqb_eq in Hij. subst j. auto.
  - destruct (exec ci a pos s c cont) eqn:E.
    + injection H as <-. apply IHa in E; auto.
      destruct E as (p1 & s1 & c1 & H1 & Ps1 & Pc1 & L1 & S1).
      exists p1, s1, c1. repeat split; auto; try (intros ? []; fail).
    + exists pos, s, c. repeat split; auto using capsLe_refl; try (intros ? []; fail).
  - eapply rep_through; eauto.
  - apply IHa in H; auto.
    destruct H as (p1 & s1 & c1 & H1 & Ps1 & Pc1 & L1 & S1).
    exists p1, s1, (setCap i (firstn (p1 - pos) s) c1).
    repeat split; auto using capsAll_set.
    + eapply capsLe_trans; [exact L1 | apply capsLe_set].
    + intros j [<- | Hj].
      * unfold setCap. rewrite Nat.eqb_refl. discriminate.
      * apply capsLe_set. auto.
  - destruct (Nat.eqb pos 0); [|discriminate].
    exists pos, s, c. repeat split; auto using capsLe_refl; try (intros ? []; fail).
  - destruct s; [|discriminate].
    exists pos, [], c. repeat split; auto using capsLe_refl; try (intros ? []; fail).
Qed.

Lemma searchFrom_captures ci r : forall s pos m,
  searchFrom ci r pos s = Some m -> P s ->
  capsAll m /\ forall i, In i (sure r) -> m i <> None.
Proof.
  induction s as [|x s IH]; intros pos m H Ps; simpl in H.
  - destruct (exec ci r pos [] noCaps accept) eqn:E; [|discriminate].
    injection H as <-. apply exec_through in E; auto; [|intros i v; discriminate].
    destruct E as (p1 & s1 & c1 & H1 & _ & Pc1 & _ & S1).
    injection H1 as <-. auto.
  - destruct (exec ci r pos (x :: s) noCaps accept) eqn:E.
    + injection H as <-. apply exec_through in E; auto; [|intros i v; discriminate].
      destruct E as (p1 & s1 & c1 & H1 & _ & Pc1 & _ & S1).
      injection H1 as <-. auto.
    + eapply IH; eauto.
Qed.

(** Every group of [sure r] is defined in a match of [r], and every capture
    inherits [P] from the text. *)
Lemma jsMatch_captures ci r text m :
  jsMatch ci r text = Some m -> P text ->
  capsAll m /\ forall i, In i (sure r) -> m i <> None.
Proof. apply searchFrom_captures. Qed.

End Invariant.

Lemma jsMatch_sure ci r text m i :
  jsMatch ci r text = Some m -> In i (sure r) -> m i <> None.
Proof.
  intros H Hi.
  destruct (@jsMatch_captures (fun _ => True) (fun _ _ _ => I) (fun _ _ _ => I)
              ci r text m H I) as [_ Hs].
  auto.
Qed.

End RegexFacts.

(* ================================================================= *)
(** ** DateParser *)

Module DateParserFacts.

Import DateParser.

Lemma app_nonempty (a b : jstring) : b <> [] -> a ++ b <> [].
Proof. destruct a; simpl; [auto | discriminate]. Qed.

Lemma iso_nonempty y mm dd : iso y mm dd <> [].
Proof. unfold iso. apply app_nonempty. discriminate. Qed.

Create HintDb parser.
#[local] Hint Resolve iso_nonempty app_nonempty : parser.

Section Host.

Variable toLowerCase : jstring -> jstring.
Variable Date_parse : jstring -> option Z.
Variables getFullYear getMonth getDate : Z -> Z.
Variable now : Z.

Abbreviation parse := (parse toLowerCase Date_parse getFullYear getMonth getDate now).
Abbreviation parseRange := (parseRange toLowerCase).
Abbreviation parseNormalized :=
  (parseNormalized toLowerCase Date_parse getFullYear getMonth getDate now).
Abbreviation singleDate :=
  (singleDate Date_parse getFullYear getMonth getDate).

(** *** The range strategy never throws: the groups it lower-cases always
    take part in the match. *)

Lemma parseRange_normal text : exists r, parseRange text = Normal r.
Proof.
  unfold DateParser.parseRange.
  destruct (jsMatch true monthRangeYearsPattern text) as [m|] eqn:E1.
  { assert (H1 : m 1 <> None) by (eapply RegexFacts.jsMatch_sure; [exact E1 | vm_compute; tauto]).
    assert (H3 : m 3 <> None) by (eapply RegexFacts.jsMatch_sure; [exact E1 | vm_compute; tauto]).
    destruct (m 1); [|congruence]. destruct (m 3); [|congruence].
    simpl. eauto. }
  destruct (jsMatch true monthRangePattern text) as [m|] eqn:E2.
  { assert (H1 : m 1 <> None) by (eapply RegexFacts.jsMatch_sure; [exact E2 | vm_compute; tauto]).
    assert (H2 : m 2 <> None) by (eapply RegexFacts.jsMatch_sure; [exact E2 | vm_compute; tauto]).
    destruct (m 1); [|congruence]. destruct (m 2); [|congruence].
    simpl. eauto. }
  destruct (jsMatch true quarterRangePattern text) as [m|]; [|eauto].
  destruct (_ && _); eauto.
Qed.

(** Whatever the range strategy returns is a range: an end date, not
    ongoing. *)
Lemma parseRange_shape text r :
  parseRange text = Normal (Some r) -> endDate r <> None /\ isOngoing r = false.
Proof.
  unfold DateParser.parseRange.
  destruct (jsMatch true monthRangeYearsPattern text) as [m|].
  { destruct (m 1); [|discriminate]. destruct (m 3); [|discriminate].
    simpl. intros [= <-]. simpl. split; [discriminate | reflexivity]. }
  destruct (jsMatch true monthRangePattern text) as [m|].
  { destruct (m 1); [|discriminate]. destruct (m 2); [|discriminate].
    simpl. intros [= <-]. simpl. split; [discriminate | reflexivity]. }
  assert (Y : forall y,
    match jsMatch false yearRangePattern text with
    | Some m => Some {| startDate := stringOfNum (parseInt (m 1)) ++ u "-01-01";
                        endDate := Some (stringOfNum (parseInt (m 2)) ++ u "-12-31");
                        isOngoing := false |}
    | None => None
    end = Some y -> endDate y <> None /\ isOngoing y = false).
  { intros y. destruct (jsMatch false yearRangePattern text); [|discriminate].
    intros [= <-]. simpl. split; [discriminate | reflexivity]. }
  destruct (jsMatch true quarterRangePattern text) as [m|].
  - destruct (_ && _).
    + intros [= <-]. simpl. split; [discriminate | reflexivity].
    + intros [= H]. auto.
  - intros [= H]. auto.
Qed.

(** *** No single-date strategy returns the empty string, so "the strategy
    returned something" and "its result is truthy" are the same thing. *)

Lemma parseFiscalYear_nonempty text s : parseFiscalYear text = Some s -> s <> [].
Proof.
  unfold parseFiscalYear. destruct (jsMatch _ _ _); [|discriminate].
  intros [= <-]. apply app_nonempty. discriminate.
Qed.

Lemma parseQuarter_nonempty text s : parseQuarter text = Some s -> s <> [].
Proof.
  unfold parseQuarter. destruct (jsMatch _ _ _); [|discriminate].
  destruct (_ && _); [|discriminate]. intros [= <-]. auto with parser.
Qed.

Lemma parseSeason_nonempty text s : parseSeason text = Some s -> s <> [].
Proof.
  unfold parseSeason. induction SEASONS as [|[season month] rest IH]; simpl.
  - discriminate.
  - destruct (jsMatch _ _ _); [|exact IH]. intros [= <-]. auto with parser.
Qed.

Lemma parseMonth_nonempty text s : parseMonth text = Some s -> s <> [].
Proof.
  unfold parseMonth. induction MONTHS as [|[name idx] rest IH]; simpl.
  - discriminate.
  - destruct (jsMatch _ _ _); [|exact IH]. intros [= <-]. auto with parser.
Qed.

Lemma parseVaguePeriod_nonempty text s : parseVaguePeriod text = Some s -> s <> [].
Proof.
  unfold parseVaguePeriod. induction vaguePatterns as [|[regex month] rest IH]; simpl.
  - discriminate.
  - destruct (jsMatch _ _ _); [|exact IH]. intros [= <-]. auto with parser.
Qed.

Lemma parseEndOfYear_nonempty text s : parseEndOfYear text = Some s -> s <> [].
Proof.
  unfold parseEndOfYear. destruct (jsMatch _ _ _); [|discriminate].
  intros [= <-]. apply app_nonempty. discriminate.
Qed.

Lemma parseStartingIn_nonempty text s : parseStartingIn text = Some s -> s <> [].
Proof.
  unfold parseStartingIn. destruct (jsMatch _ _ _); [|discriminate].
  intros [= <-]. apply app_nonempty. discriminate.
Qed.

Lemma parseYear_nonempty text s : parseYear text = Some s -> s <> [].
Proof.
  unfold parseYear.
  assert (Y : forall (o : option caps),
    match o with
    | Some m => if numGe (parseInt (m 1)) 2000 && numLe (parseInt (m 1)) 2100
                then Some (stringOfNum (parseInt (m 1)) ++ u "-07-01") else None
    | None => None
    end = Some s -> s <> []).
  { intros [m|]; [|discriminate]. destruct (_ && _); [|discriminate].
    intros [= <-]. apply app_nonempty. discriminate. }
  destruct (jsMatch true byYearPattern text); [|apply Y].
  destruct (_ && _); [|apply Y]. intros [= <-]. apply app_nonempty. discriminate.
Qed.

(** One step of the chain of strategies. *)
Lemma orElse_cases (x : option jstring) rest :
  (forall s, x = Some s -> s <> []) ->
  (exists s, x = Some s /\ orElse x rest = Normal (Some (point s)))
  \/ (x = None /\ orElse x rest = rest).
Proof.
  intros Hne. destruct x as [s|]; [left | right; auto].
  exists s. split; [reflexivity|].
  destruct s; [exfalso; eapply Hne; reflexivity | reflexivity].
Qed.

Lemma singleDate_cases text normalized :
  (exists s, singleDate text normalized = Normal (Some (point s)))
  \/ (singleDate text normalized = Normal None
      /\ parseFiscalYear normalized = None
      /\ parseQuarter normalized = None
      /\ parseSeason normalized = None
      /\ parseMonth normalized = None
      /\ parseVaguePeriod normalized = None
      /\ parseEndOfYear normalized = None
      /\ parseStartingIn normalized = None
      /\ parseYear normalized = None
      /\ Date_parse text = None).
Proof.
  unfold DateParser.singleDate.
  edestruct (@orElse_cases (parseFiscalYear normalized))
    as [(s & _ & ->) | (E1 & ->)];
    [apply parseFiscalYear_nonempty | eauto |].
  edestruct (@orElse_cases (parseQuarter normalized))
    as [(s & _ & ->) | (E2 & ->)];
    [apply parseQuarter_nonempty | eauto |].
  edestruct (@orElse_cases (parseSeason normalized))
    as [(s & _ & ->) | (E3 & ->)];
    [apply parseSeason_nonempty | eauto |].
  edestruct (@orElse_cases (parseMonth normalized))
    as [(s & _ & ->) | (E4 & ->)];
    [apply parseMonth_nonempty | eauto |].
  edestruct (@orElse_cases (parseVaguePeriod normalized))
    as [(s & _ & ->) | (E5 & ->)];
    [apply parseVaguePeriod_nonempty | eauto |].
  edestruct (@orElse_cases (parseEndOfYear normalized))
    as [(s & _ & ->) | (E6 & ->)];
    [apply parseEndOfYear_nonempty | eauto |].
  edestruct (@orElse_cases (parseStartingIn normalized))
    as [(s & _ & ->) | (E7 & ->)];
    [apply parseStartingIn_nonempty | eauto |].
  edestruct (@orElse_cases (parseYear normalized))
    as [(s & _ & ->) | (E8 & ->)];
    [apply parseYear_nonempty | eauto |].
  destruct (Date_parse text); [eauto|].
  right. repeat split; auto.
Qed.

(** [parse], read off its definition. *)
Lemma parse_cons c text :
  parse (c :: text) = parseNormalized (c :: text) (trim (toLowerCase (c :: text))).
Proof. reflexivity. Qed.

Lemma parse_ascii text :
  lowersAscii toLowerCase -> text <> [] -> isAscii text = true ->
  parse text = parseNormalized text (trim (List.map asciiLower text)).
Proof.
  intros H Hne Ha. destruct text as [|c text]; [congruence|].
  rewrite parse_cons, (H _ Ha). reflexivity.
Qed.

Lemma parseNormalized_normal text normalized :
  exists r, parseNormalized text normalized = Normal r.
Proof.
  unfold DateParser.parseNormalized.
  destruct (isOngoingLiteral normalized); [eauto|].
  destruct (parseRange_normal normalized) as [[r|] ->]; simpl; [eauto|].
  destruct (singleDate_cases text normalized) as [[s ->] | [-> _]]; simpl; eauto.
Qed.

Lemma parseNormalized_null text normalized :
  parseNormalized text normalized = Normal None ->
  noStrategyMatches toLowerCase normalized /\ Date_parse text = None.
Proof.
  unfold DateParser.parseNormalized, noStrategyMatches.
  destruct (isOngoingLiteral normalized); [discriminate|].
  destruct (parseRange_normal normalized) as [[r|] E]; rewrite E; simpl;
    [discriminate|].
  destruct (singleDate_cases text normalized) as [[s ->] | [-> H]]; simpl;
    [discriminate|].
  intros _. tauto.
Qed.

Lemma parseNormalized_kind text normalized r :
  parseNormalized text normalized = Normal (Some r) ->
  isOngoingValue r \/ isRange r \/ isPoint r.
Proof.
  unfold DateParser.parseNormalized.
  destruct (isOngoingLiteral normalized).
  { intros [= <-]. left. split; reflexivity. }
  destruct (parseRange_normal normalized) as [[r'|] E]; rewrite E; simpl.
  { intros [= <-]. right; left. apply (parseRange_shape _ E). }
  destruct (singleDate_cases text normalized) as [[s ->] | [-> H]]; simpl;
    [|discriminate].
  intros [= <-]. right; right. split; reflexivity.
Qed.

Lemma resultEqb_eq a b : resultEqb a b = true -> a = b.
Proof.
  unfold resultEqb. destruct a as [s1 e1 o1], b as [s2 e2 o2]; simpl.
  intros H. apply andb_prop in H. destruct H as [H Ho].
  apply andb_prop in H. destruct H as [Hs He].
  apply jeqb_eq in Hs. apply Bool.eqb_prop in Ho. subst.
  destruct e1 as [x|], e2 as [y|]; try discriminate; [|reflexivity].
  apply jeqb_eq in He. subst. reflexivity.
Qed.

Lemma returns_eq outcome expected :
  returns outcome expected = true -> outcome = Normal (Some expected).
Proof.
  destruct outcome as [[r|]|]; simpl; try discriminate.
  intros H. apply resultEqb_eq in H. subst. reflexivity.
Qed.

Lemma plausibleYears_In y : (2000 <= y <= 2100)%N -> In y plausibleYears.
Proof.
  intros Hy. unfold plausibleYears.
  rewrite <- (N2Nat.id y). apply in_map. apply in_seq. lia.
Qed.

Lemma quarters_In n : (1 <= n <= 4)%N -> In n [1; 2; 3; 4]%N.
Proof.
  intros Hn. simpl.
  destruct (N.eq_dec n 1); [auto|]. destruct (N.eq_dec n 2); [auto|].
  destruct (N.eq_dec n 3); [auto|]. destruct (N.eq_dec n 4); [auto|]. lia.
Qed.

Abbreviation yields :=
  (yields toLowerCase Date_parse getFullYear getMonth getDate now).

Lemma yields_parse text expected :
  lowersAscii toLowerCase -> text <> [] ->
  yields text expected = true -> parse text = Normal (Some expected).
Proof.
  intros H Hne Hy. unfold DateParser.yields in Hy.
  apply andb_prop in Hy. destruct Hy as [Ha Hr].
  rewrite (parse_ascii H Hne Ha). apply returns_eq, Hr.
Qed.

(** C1 (what the code does): for every quarter expression "Q<n> <year>"
    with n in 1..4 and a year in 2000..2100, [parse] returns a point whose start
    date is day 1 of month 3n-2 of that year: January, April, July, October,
    the value of [QUARTERS] taken as a calendar month number.  In particular
    "Q1 2026" gives 2026-01-01, not the 2026-02-01 the table's comments
    announce. *)
Theorem parse_quarter_first_month :
  lowersAscii toLowerCase ->
  forall n y, (1 <= n <= 4)%N -> (2000 <= y <= 2100)%N ->
  parse (quarterText n y)
  = Normal (Some (point (iso (stringOfN y) (padStart2 (stringOfN (3 * n - 2))) "01"))).
Proof.
  intros H n y Hn Hy.
  assert (All : forallb (fun n => forallb (fun y =>
            yields (quarterText n y)
              (point (iso (stringOfN y) (padStart2 (stringOfN (3 * n - 2))) "01")))
            plausibleYears) [1; 2; 3; 4]%N = true)
    by (vm_compute; reflexivity).
  rewrite forallb_forall in All. specialize (All n (quarters_In Hn)).
  rewrite forallb_forall in All. specialize (All y (plausibleYears_In Hy)).
  apply yields_parse; auto. discriminate.
Qed.

(** C5 (what the code does): for every year y in 2000..2100, [parse] returns a
    point at February 1 for "early-y", July 1 for "mid-y" and October 1 for
    "late-y": the [month] field of the pattern taken as a calendar month
    number.  Only the "mid" case is the month the source's comments ("March",
    "July", "November") and the claim name. *)
Theorem parse_vague_months :
  lowersAscii toLowerCase ->
  forall y, (2000 <= y <= 2100)%N ->
  parse (vagueText "early" y) = Normal (Some (point (iso (stringOfN y) (u "02") "01")))
  /\ parse (vagueText "mid" y) = Normal (Some (point (iso (stringOfN y) (u "07") "01")))
  /\ parse (vagueText "late" y) = Normal (Some (point (iso (stringOfN y) (u "10") "01"))).
Proof.
  intros H y Hy.
  assert (All : forallb (fun y =>
            yields (vagueText "early" y) (point (iso (stringOfN y) (u "02") "01"))
            && yields (vagueText "mid" y) (point (iso (stringOfN y) (u "07") "01"))
            && yields (vagueText "late" y) (point (iso (stringOfN y) (u "10") "01")))
            plausibleYears = true)
    by (vm_compute; reflexivity).
  rewrite forallb_forall in All. specialize (All y (plausibleYears_In Hy)).
  apply andb_prop in All. destruct All as [All Hl].
  apply andb_prop in All. destruct All as [He Hm].
  repeat split; apply yields_parse; auto; discriminate.
Qed.

(** C10: on "q5 2026" the quarter strategy returns null (5 is not a quarter),
    the bare-year strategy returns July 1 of 2026, and that is what [parse]
    returns, as a point. *)
Theorem parse_q5_falls_back_to_year :
  lowersAscii toLowerCase ->
  parseQuarter (u "q5 2026") = None
  /\ parseYear (u "q5 2026") = Some (u "2026-07-01")
  /\ parse (u "q5 2026")
     = Normal (Some {| startDate := u "2026-07-01"; endDate := None; isOngoing := false |}).
Proof.
  intros H. split; [vm_compute; reflexivity|]. split; [vm_compute; reflexivity|].
  apply yields_parse; [exact H | discriminate | vm_compute; reflexivity].
Qed.

(** C4: [parse] never throws, on any string, and it returns null only when
    no pattern strategy matches the normalized text (ongoing literals, ranges,
    fiscal year, quarter, season, month, vague qualifiers, end-of-year,
    starting-in, bare year) and the generic date parse of the raw text
    fails.  The two facts about the host are what JavaScript does on the
    empty string, which [parse] rejects before it looks at anything. *)
Theorem parse_total_null_only_unmatched :
  toLowerCase [] = [] -> Date_parse [] = None ->
  forall text,
    (exists r, parse text = Normal r)
    /\ (parse text = Normal None ->
        noStrategyMatches toLowerCase (trim (toLowerCase text))
        /\ Date_parse text = None).
Proof.
  intros Hl Hd [|c text].
  - split; [eexists; reflexivity|]. intros _. rewrite Hl. split; [|exact Hd].
    unfold noStrategyMatches. repeat split; vm_compute; reflexivity.
  - rewrite parse_cons. split.
    + apply parseNormalized_normal.
    + apply parseNormalized_null.
Qed.

(** C8: every non-null result of [parse] is exactly one of a point (no end
    date, not ongoing), a range (an end date, not ongoing) or an ongoing value
    (ongoing, no end date); in particular an ongoing result has no end
    date. *)
Theorem parse_result_kind text r :
  parse text = Normal (Some r) ->
  ((isPoint r /\ ~ isRange r /\ ~ isOngoingValue r)
   \/ (~ isPoint r /\ isRange r /\ ~ isOngoingValue r)
   \/ (~ isPoint r /\ ~ isRange r /\ isOngoingValue r))
  /\ (isOngoing r = true -> endDate r = None).
Proof.
  intros H. destruct text as [|c text]; [discriminate|].
  rewrite parse_cons in H. apply parseNormalized_kind in H.
  unfold isPoint, isRange, isOngoingValue in *.
  destruct r as [s e o]; simpl in *.
  destruct H as [[Ho He] | [[He Ho] | [He Ho]]]; subst.
  - split; [|reflexivity]. right; right.
    repeat split; intros [? ?]; congruence.
  - split; [|discriminate]. right; left.
    repeat split; auto; intros [? ?]; congruence.
  - split; [|reflexivity]. left.
    repeat split; intros [? ?]; congruence.
Qed.

End Host.

End DateParserFacts.

(* ================================================================= *)
(** ** Renderer *)

Module RendererFacts.

Import Renderer.

Open Scope Q_scope.

(** *** Numbers *)

Lemma ltb_lt a b : ltb a b = true <-> a < b.
Proof.
  unfold ltb. rewrite negb_true_iff. split.
  - intros H. apply Qnot_le_lt. intros Hle. apply Qle_bool_iff in Hle. congruence.
  - intros H. destruct (Qle_bool b a) eqn:E; [|reflexivity].
    apply Qle_bool_iff in E. exfalso. apply (Qlt_not_le _ _ H E).
Qed.

Lemma ltb_ge a b : ltb a b = false <-> b <= a.
Proof.
  unfold ltb. rewrite negb_false_iff. apply Qle_bool_iff.
Qed.

(** [Math.max(lo, Math.min(hi, x))] is a fixed point of itself, whatever the
    order of [lo] and [hi]. *)
Lemma clamp_idempotent lo hi x :
  Qmax lo (Qmin hi (Qmax lo (Qmin hi x))) = Qmax lo (Qmin hi x).
Proof.
  unfold Qmax, Qmin, GenericMinMax.gmax, GenericMinMax.gmin.
  destruct (hi ?= x) eqn:Ehx.
  - (* min = hi *)
    destruct (lo ?= hi) eqn:Elh.
    + rewrite <- (Qcompare_antisym lo hi), Elh. simpl. rewrite Elh. reflexivity.
    + assert (Ehh : (hi ?= hi) = Eq) by (apply Qeq_alt; reflexivity).
      rewrite Ehh, Elh. reflexivity.
    + rewrite <- (Qcompare_antisym lo hi), Elh. simpl. rewrite Elh. reflexivity.
  - destruct (lo ?= hi) eqn:Elh.
    + rewrite <- (Qcompare_antisym lo hi), Elh. simpl. rewrite Elh. reflexivity.
    + assert (Ehh : (hi ?= hi) = Eq) by (apply Qeq_alt; reflexivity).
      rewrite Ehh, Elh. reflexivity.
    + rewrite <- (Qcompare_antisym lo hi), Elh. simpl. rewrite Elh. reflexivity.
  - (* min = x *)
    destruct (lo ?= x) eqn:Elx.
    + destruct (hi ?= lo) eqn:Ehl.
      * rewrite <- (Qcompare_antisym hi lo), Ehl. reflexivity.
      * rewrite <- (Qcompare_antisym hi lo), Ehl. reflexivity.
      * assert (Ell : (lo ?= lo) = Eq) by (apply Qeq_alt; reflexivity).
        rewrite Ell. reflexivity.
    + rewrite Ehx, Elx. reflexivity.
    + destruct (hi ?= lo) eqn:Ehl.
      * rewrite <- (Qcompare_antisym hi lo), Ehl. reflexivity.
      * rewrite <- (Qcompare_antisym hi lo), Ehl. reflexivity.
      * assert (Ell : (lo ?= lo) = Eq) by (apply Qeq_alt; reflexivity).
        rewrite Ell. reflexivity.
Qed.

(** *** Lists of ordered pairs *)

Section OrderedPairs.

Context {A B : Type}.
Variable R : A -> A -> Prop.

Lemma FOP_app (l1 l2 : list A) :
  ForallOrdPairs R l1 -> ForallOrdPairs R l2 ->
  (forall a b, In a l1 -> In b l2 -> R a b) ->
  ForallOrdPairs R (l1 ++ l2).
Proof.
  induction l1 as [|x l1 IH]; intros H1 H2 H12; simpl; [exact H2|].
  inversion H1 as [|? ? Hx Hl1]; subst.
  constructor.
  - apply Forall_app. split; [exact Hx|].
    apply Forall_forall. intros b Hb. apply H12; simpl; auto.
  - apply IH; auto. intros a b Ha Hb. apply H12; simpl; auto.
Qed.

Lemma FOP_snoc (l : list A) (x : A) :
  ForallOrdPairs R l -> Forall (fun a => R a x) l ->
  ForallOrdPairs R (l ++ [x]).
Proof.
  intros Hl Hx. apply FOP_app; auto.
  - constructor; constructor.
  - intros a b Ha [<- | []]. rewrite Forall_forall in Hx. auto.
Qed.

Lemma FOP_map (R' : B -> B -> Prop) (f : A -> B) (l : list A) :
  (forall a b, R a b -> R' (f a) (f b)) ->
  ForallOrdPairs R l -> ForallOrdPairs R' (List.map f l).
Proof.
  intros Hf. induction 1 as [|a l Ha Hl IH]; simpl; constructor; auto.
  apply Forall_map. eapply Forall_impl; [|exact Ha]. intros b. apply Hf.
Qed.

End OrderedPairs.

(** *** The level-assignment loop *)

Section Levels.

Variable fits : list Item -> Item -> bool.

Lemma place_rec levels it : place fits levels it = placeRec fits levels it.
Proof.
  unfold place. induction levels as [|lvl rest IH]; simpl; [reflexivity|].
  destruct (fits lvl it); [reflexivity|].
  destruct (findLevel (fun lvl0 => fits lvl0 it) rest); simpl in *; congruence.
Qed.

(** A property of levels that holds of a fresh level and survives an
    accepted push holds of every level after a placement. *)
Lemma place_inv (P : list Item -> Prop) levels it :
  Forall P levels -> P [it] ->
  (forall lvl, P lvl -> fits lvl it = true -> P (lvl ++ [it])) ->
  Forall P (place fits levels it).
Proof.
  rewrite place_rec. intros Hl H1 Hpush.
  induction Hl as [|lvl rest Hlvl Hrest IH]; simpl.
  - constructor; auto.
  - destruct (fits lvl it) eqn:E; constructor; auto.
Qed.

Lemma fold_place_inv (P : list Item -> Prop) items : forall levels,
  Forall P levels ->
  (forall it, In it items ->
     P [it] /\ forall lvl, P lvl -> fits lvl it = true -> P (lvl ++ [it])) ->
  Forall P (fold_left (place fits) items levels).
Proof.
  induction items as [|it rest IH]; intros levels Hl Hit; simpl; [exact Hl|].
  apply IH.
  - destruct (Hit it (or_introl eq_refl)) as [H1 Hpush]. apply place_inv; auto.
  - intros it' Hin. apply Hit. right. exact Hin.
Qed.

Lemma assignLevels_inv (P : list Item -> Prop) items :
  (forall it, In it items ->
     P [it] /\ forall lvl, P lvl -> fits lvl it = true -> P (lvl ++ [it])) ->
  Forall P (assignLevels fits items).
Proof. intros H. apply fold_place_inv; auto. Qed.


End Levels.

(** The positions of a list of levels, pair by pair. *)

Lemma positionsFrom_In {A} (mk : nat -> Item -> A) levels : forall i p,
  In p (positionsFrom mk i levels) ->
  exists j lvl it, (i <= j)%nat /\ In lvl levels /\ In it lvl /\ p = mk j it.
Proof.
  induction levels as [|lvl rest IH]; intros i p Hp; simpl in Hp; [contradiction|].
  apply in_app_or in Hp. destruct Hp as [Hp | Hp].
  - apply in_map_iff in Hp. destruct Hp as (it & <- & Hit).
    exists i, lvl, it. simpl. auto.
  - apply IH in Hp. destruct Hp as (j & lvl' & it & Hj & Hl & Hit & ->).
    exists j, lvl', it. simpl. repeat split; auto. lia.
Qed.

Lemma positionsFrom_FOP {A} (Rit : Item -> Item -> Prop) (Rpos : A -> A -> Prop)
                        (mk : nat -> Item -> A) :
  (forall j a b, Rit a b -> Rpos (mk j a) (mk j b)) ->
  (forall j j' a b, j <> j' -> Rpos (mk j a) (mk j' b)) ->
  forall levels i, Forall (ForallOrdPairs Rit) levels ->
  ForallOrdPairs Rpos (positionsFrom mk i levels).
Proof.
  intros Hsame Hdiff. induction levels as [|lvl rest IH]; intros i Hl; simpl.
  - constructor.
  - inversion Hl as [|? ? Hlvl Hrest]; subst.
    apply FOP_app.
    + eapply FOP_map; [|exact Hlvl]. apply Hsame.
    + apply IH, Hrest.
    + intros p q Hp Hq. apply in_map_iff in Hp. destruct Hp as (a & <- & _).
      apply positionsFrom_In in Hq. destruct Hq as (j & _ & b & Hj & _ & _ & ->).
      apply Hdiff. lia.
Qed.

Section Host.

Variable Date_parse : jstring -> option Z.

Abbreviation constrainPan := (constrainPan Date_parse).
Abbreviation setZoom := (setZoom Date_parse).

(** *** The pan clamp *)

Ltac fields :=
  cbn [viewMode zoom events panX panY filters entityColors isDragging
       lastMouseX lastMouseY].

Lemma constrainPan_keeps svg st :
  viewMode (constrainPan svg st) = viewMode st
  /\ zoom (constrainPan svg st) = zoom st
  /\ events (constrainPan svg st) = events st
  /\ filters (constrainPan svg st) = filters st.
Proof.
  destruct st as [vm z px py evs fl ec dr lx ly].
  destruct svg as [rect|]; [|auto].
  unfold Renderer.constrainPan, withPanX, withPanY, leftMarginOf, rowCount, getRowHeight.
  fields.
  destruct evs as [|e l]; [auto|].
  destruct (datesOf Date_parse (e :: l)) as [|d dates]; [auto|].
  destruct (paddedRange d dates) as [startDate endDate].
  fields.
  destruct (isSplit vm); [|auto].
  match goal with |- context [(0 <? ?n)%nat] => destruct (0 <? n)%nat end; auto.
Qed.

(** C9: applying the pan clamp to an already clamped viewport changes
    nothing, for every event list, zoom, view mode, canvas and pan offsets:
    the clamped state is a fixed point of [constrainPan]. *)
Theorem constrainPan_idempotent svg st :
  constrainPan svg (constrainPan svg st) = constrainPan svg st.
Proof.
  destruct st as [vm z px py evs fl ec dr lx ly].
  destruct svg as [rect|]; [|reflexivity].
  unfold Renderer.constrainPan, withPanX, withPanY, leftMarginOf, rowCount, getRowHeight.
  fields.
  destruct evs as [|e l]; [reflexivity|].
  destruct (datesOf Date_parse (e :: l)) as [|d dates] eqn:Ed.
  { fields. rewrite Ed. reflexivity. }
  destruct (paddedRange d dates) as [startDate endDate] eqn:Er.
  fields.
  destruct (isSplit vm) eqn:Es.
  - match goal with |- context [(0 <? ?n)%nat] => destruct (0 <? n)%nat eqn:Ern end.
    + fields. rewrite Ed, Er. fields. rewrite Es, Ern.
      rewrite !clamp_idempotent. reflexivity.
    + fields. rewrite Ed, Er. fields. rewrite Es, Ern.
      rewrite !clamp_idempotent. reflexivity.
  - fields. rewrite Ed, Er. fields. rewrite Es.
    rewrite !clamp_idempotent. reflexivity.
Qed.



(** *** Items: where they come from, and their order *)

Lemma insertByDate_Forall (Q : Item -> Prop) it l :
  Q it -> Forall Q l -> Forall Q (insertByDate it l).
Proof.
  intros Hit. induction 1 as [|y l Hy Hl IH]; simpl.
  - constructor; auto.
  - destruct (it_date it <=? it_date y)%Z; constructor; auto.
Qed.

Lemma sortByDate_Forall (Q : Item -> Prop) l :
  Forall Q l -> Forall Q (sortByDate l).
Proof.
  unfold sortByDate. induction 1 as [|x l Hx Hl IH]; simpl.
  - constructor.
  - apply insertByDate_Forall; auto.
Qed.

Lemma insertByDate_sorted it l :
  StronglySorted byDate l -> StronglySorted byDate (insertByDate it l).
Proof.
  induction 1 as [|y l Hl IH Hy]; simpl.
  - constructor; constructor.
  - destruct (it_date it <=? it_date y)%Z eqn:E.
    + apply Z.leb_le in E. constructor.
      * constructor; auto.
      * constructor; [exact E|].
        eapply Forall_impl; [|exact Hy]. intros b Hb. unfold byDate in *. lia.
    + apply Z.leb_gt in E. constructor; [exact IH|].
      apply insertByDate_Forall; [unfold byDate; lia | exact Hy].
Qed.

Lemma sortByDate_sorted l : StronglySorted byDate (sortByDate l).
Proof.
  unfold sortByDate. induction l as [|x l IH]; simpl.
  - constructor.
  - apply insertByDate_sorted, IH.
Qed.

Lemma filter_sorted (R : Item -> Item -> Prop) f l :
  StronglySorted R l -> StronglySorted R (filter f l).
Proof.
  induction 1 as [|y l Hl IH Hy]; simpl; [constructor|].
  destruct (f y); [|exact IH].
  constructor; [exact IH|].
  apply Forall_forall. intros b Hb. apply filter_In in Hb.
  rewrite Forall_forall in Hy. apply Hy, Hb.
Qed.


Lemma sorted_change (R R' : Item -> Item -> Prop) (Q : Item -> Prop) l :
  (forall a b, Q a -> Q b -> R a b -> R' a b) ->
  Forall Q l -> StronglySorted R l -> StronglySorted R' l.
Proof.
  intros H HQ. induction 1 as [|y l Hl IH Hy]; [constructor|].
  inversion HQ as [|? ? Qy Ql]; subst.
  constructor; [auto|].
  rewrite Forall_forall in *. intros b Hb. apply H; auto.
Qed.

Abbreviation madeBy := (madeBy Date_parse).

Lemma itemsOf_madeBy startDate axisStartX scale evs :
  Forall (madeBy startDate axisStartX scale)
         (itemsOf Date_parse startDate axisStartX scale evs).
Proof.
  induction evs as [|e rest IH]; simpl; [constructor|].
  destruct (itemOf Date_parse startDate axisStartX scale e) as [it|] eqn:E; [|exact IH].
  constructor; [|exact IH]. unfold Renderer.madeBy.
  assert (He : it_event it = e).
  { unfold itemOf in E.
    destruct (newDate Date_parse (orField (ev_startDate e) (ev_computedDate e)));
      [|discriminate].
    injection E as <-. reflexivity. }
  rewrite He. exact E.
Qed.

Lemma madeBy_x startDate axisStartX scale it :
  madeBy startDate axisStartX scale it ->
  it_x it = axisStartX + elapsed (it_date it) startDate * scale.
Proof.
  unfold Renderer.madeBy, itemOf. destruct it as [e x x2 d]. cbn [it_event it_x it_date].
  destruct (newDate Date_parse (orField (ev_startDate e) (ev_computedDate e)));
    [|discriminate].
  intros [= Hx _ Hd]. subst. reflexivity.
Qed.

Lemma elapsed_le a b startDate scale :
  (a <= b)%Z -> 0 <= scale ->
  elapsed a startDate * scale <= elapsed b startDate * scale.
Proof.
  intros Hab Hs. apply Qmult_le_compat_r; [|exact Hs].
  unfold elapsed. rewrite <- Zle_Qle. lia.
Qed.

Lemma madeBy_byX startDate axisStartX scale a b :
  0 <= scale ->
  madeBy startDate axisStartX scale a -> madeBy startDate axisStartX scale b ->
  byDate a b -> byX a b.
Proof.
  intros Hs Ha Hb Hab. unfold byX.
  rewrite (madeBy_x Ha), (madeBy_x Hb).
  pose proof (elapsed_le startDate Hab Hs). lra.
Qed.



(** *** Levels keep their events clear of each other *)

Lemma fitsInLevel_passes spacing lvl it :
  fitsInLevel spacing lvl it = true ->
  Forall (fun existing => passesItems spacing existing it) lvl.
Proof.
  unfold fitsInLevel. rewrite forallb_forall. intros H.
  apply Forall_forall. intros existing Hin. specialize (H existing Hin).
  apply orb_prop in H. unfold passesItems, passes.
  destruct H as [H | H]; apply ltb_lt in H; auto.
Qed.

Lemma assignLevels_fitsInLevel_passes spacing items :
  Forall (ForallOrdPairs (passesItems spacing))
         (assignLevels (fitsInLevel spacing) items).
Proof.
  apply assignLevels_inv. intros it _. split.
  - constructor; constructor.
  - intros lvl Hl Hfits. apply FOP_snoc; auto using fitsInLevel_passes.
Qed.

Lemma FOP_snoc_inv {A} (R : A -> A -> Prop) l x :
  ForallOrdPairs R (l ++ [x]) -> Forall (fun a => R a x) l.
Proof.
  induction l as [|a l IH]; simpl; intros H; [constructor|].
  inversion H as [|? ? Ha Hl]; subst. constructor.
  - rewrite Forall_forall in Ha. apply Ha. apply in_or_app. right. simpl. auto.
  - apply IH, Hl.
Qed.

Lemma fitsAfterLast_last spacing dl lvl it :
  fitsAfterLast spacing dl lvl it = true ->
  exists front lastInLevel, lvl = front ++ [lastInLevel] /\ rightOf spacing lastInLevel it.
Proof.
  unfold fitsAfterLast. destruct (rev lvl) as [|lastInLevel r] eqn:E; [discriminate|].
  intros H. apply andb_prop in H. destruct H as [H _]. apply ltb_lt in H.
  exists (rev r), lastInLevel. split; [|exact H].
  rewrite <- (rev_involutive lvl), E. reflexivity.
Qed.

(** With the items in ascending pixel order, testing the last event of a
    level is testing them all. *)
Lemma fold_fitsAfterLast_rightOf spacing dl : forall items levels,
  StronglySorted byX items ->
  Forall (fun lvl => ForallOrdPairs (rightOf spacing) lvl
                     /\ Forall (fun a => Forall (byX a) items) lvl) levels ->
  Forall (ForallOrdPairs (rightOf spacing))
         (fold_left (place (fitsAfterLast spacing dl)) items levels).
Proof.
  induction items as [|it rest IH]; intros levels Hs Hl; simpl.
  - eapply Forall_impl; [|exact Hl]. intros lvl [H _]. exact H.
  - inversion Hs as [|? ? Hrest Hit]; subst.
    apply IH; [exact Hrest|].
    assert (Inv : Forall (fun lvl => ForallOrdPairs (rightOf spacing) lvl
                     /\ Forall (fun a => Forall (byX a) (it :: rest)) lvl)
                   (place (fitsAfterLast spacing dl) levels it)).
    { apply place_inv; [exact Hl | |].
      - split; [constructor; constructor|].
        constructor; [|constructor]. constructor; [|exact Hit].
        unfold byX. apply Qle_refl.
      - intros lvl [Hfop Hx] Hfits. split.
        + apply FOP_snoc; [exact Hfop|].
          destruct (fitsAfterLast_last _ _ _ _ Hfits) as (front & lastInLevel & -> & Hr).
          apply Forall_app. split; [|constructor; [exact Hr | constructor]].
          apply FOP_snoc_inv in Hfop.
          apply Forall_app in Hx. destruct Hx as [_ Hlast].
          inversion Hlast as [|? ? Hlast' _]; subst.
          inversion Hlast' as [|? ? Hle _]; subst.
          eapply Forall_impl; [|exact Hfop]. intros a Ha.
          unfold rightOf, byX in *. lra.
        + apply Forall_app. split; [exact Hx|].
          constructor; [|constructor]. constructor; [|exact Hit].
          unfold byX. apply Qle_refl. }
    eapply Forall_impl; [|exact Inv]. intros lvl [Hfop Hx]. split; [exact Hfop|].
    eapply Forall_impl; [|exact Hx]. intros a Ha.
    inversion Ha; subst; assumption.
Qed.

Lemma assignLevelsToEvents_rightOf spacing dl items :
  StronglySorted byX items ->
  Forall (ForallOrdPairs (rightOf spacing))
         (assignLevelsToEvents items spacing dl).
Proof.
  intros Hs. unfold assignLevelsToEvents, assignLevels.
  apply fold_fitsAfterLast_rightOf; [exact Hs | constructor].
Qed.

Lemma levelQ_nonneg n : 0 <= levelQ n.
Proof.
  unfold levelQ. change 0 with (inject_Z 0). rewrite <- Zle_Qle. lia.
Qed.

Lemma levelQ_inj a b : levelQ a == levelQ b -> a = b.
Proof.
  unfold levelQ. intros H. apply Nat2Z.inj. apply inject_Z_injective. exact H.
Qed.

(** The items [calculateEventPositions] and [renderSplitTimeline] level, in
    pixel order when the scale is not negative. *)
Lemma sorted_items_byX startDate axisStartX scale evs f :
  0 <= scale ->
  StronglySorted byX
    (filter f (sortByDate (itemsOf Date_parse startDate axisStartX scale evs))).
Proof.
  intros Hs. apply filter_sorted.
  eapply sorted_change with (R := byDate) (Q := madeBy startDate axisStartX scale).
  - intros a b Ha Hb Hab. eapply madeBy_byX; eauto.
  - apply sortByDate_Forall, itemsOf_madeBy.
  - apply sortByDate_sorted.
Qed.

(** Under a scale that is not positive the items come in descending pixel
    order, and a level takes nothing after an item stored left to right. *)
Lemma madeBy_byX_desc startDate axisStartX scale a b :
  scale <= 0 ->
  madeBy startDate axisStartX scale a -> madeBy startDate axisStartX scale b ->
  byDate a b -> byX b a.
Proof.
  intros Hs Ha Hb Hab. unfold byX.
  rewrite (madeBy_x Ha), (madeBy_x Hb).
  assert (Hop : 0 <= - scale) by lra.
  pose proof (elapsed_le startDate Hab Hop). lra.
Qed.

Lemma sorted_items_byX_desc startDate axisStartX scale evs f :
  scale <= 0 ->
  StronglySorted (fun a b => byX b a)
    (filter f (sortByDate (itemsOf Date_parse startDate axisStartX scale evs))).
Proof.
  intros Hs. apply filter_sorted.
  eapply sorted_change with (R := byDate) (Q := madeBy startDate axisStartX scale).
  - intros a b Ha Hb Hab. eapply madeBy_byX_desc; eauto.
  - apply sortByDate_Forall, itemsOf_madeBy.
  - apply sortByDate_sorted.
Qed.

Lemma fold_fitsAfterLast_desc spacing dl : 0 <= spacing -> forall items levels,
  StronglySorted (fun a b => byX b a) items ->
  Forall (fun lvl => ForallOrdPairs (fun a _ => ~ leftToRight a) lvl
                     /\ Forall (fun a => Forall (fun b => byX b a) items) lvl) levels ->
  Forall (ForallOrdPairs (fun a _ => ~ leftToRight a))
         (fold_left (place (fitsAfterLast spacing dl)) items levels).
Proof.
  intros Hsp. induction items as [|it rest IH]; intros levels Hs Hl; simpl.
  - eapply Forall_impl; [|exact Hl]. intros lvl [H _]. exact H.
  - inversion Hs as [|? ? Hrest Hit]; subst.
    apply IH; [exact Hrest|].
    assert (Inv : Forall (fun lvl => ForallOrdPairs (fun a _ => ~ leftToRight a) lvl
                     /\ Forall (fun a => Forall (fun b => byX b a) (it :: rest)) lvl)
                   (place (fitsAfterLast spacing dl) levels it)).
    { apply place_inv; [exact Hl | |].
      - split; [constructor; constructor|].
        constructor; [|constructor]. constructor; [|exact Hit].
        unfold byX. apply Qle_refl.
      - intros lvl [Hfop Hx] Hfits. split.
        + apply FOP_snoc; [exact Hfop|].
          destruct (fitsAfterLast_last _ _ _ _ Hfits) as (front & lastInLevel & -> & Hr).
          apply Forall_app. split.
          * apply FOP_snoc_inv in Hfop. exact Hfop.
          * constructor; [|constructor].
            apply Forall_app in Hx. destruct Hx as [_ Hlast].
            inversion Hlast as [|? ? Hlast' _]; subst.
            inversion Hlast' as [|? ? Hle _]; subst.
            unfold rightOf, byX, leftToRight in *. intros Hltr. lra.
        + apply Forall_app. split; [exact Hx|].
          constructor; [|constructor]. constructor; [|exact Hit].
          unfold byX. apply Qle_refl. }
    eapply Forall_impl; [|exact Inv]. intros lvl [Hfop Hx]. split; [exact Hfop|].
    eapply Forall_impl; [|exact Hx]. intros a Ha.
    inversion Ha; subst; assumption.
Qed.

Lemma assignLevelsToEvents_desc spacing dl items :
  0 <= spacing ->
  StronglySorted (fun a b => byX b a) items ->
  Forall (ForallOrdPairs (fun a _ => ~ leftToRight a))
         (assignLevelsToEvents items spacing dl).
Proof.
  intros Hsp Hs. unfold assignLevelsToEvents, assignLevels.
  apply fold_fitsAfterLast_desc; [exact Hsp | exact Hs | constructor].
Qed.

(** Between two items stored left to right, the comparison of the
    acceptance test is a statement about what is drawn. *)
Lemma passes_clearOf spacing a b :
  leftToRight a -> leftToRight b -> passesItems spacing a b ->
  clearOf spacing (it_x a) (it_x2 a) (it_x b) (it_x2 b).
Proof.
  unfold leftToRight, passesItems, passes, clearOf. intros Ha Hb H.
  rewrite (Q.max_r _ _ Ha), (Q.max_r _ _ Hb), (Q.min_l _ _ Ha), (Q.min_l _ _ Hb).
  exact H.
Qed.

Lemma FOP_impl {A} (R R' : A -> A -> Prop) (l : list A) :
  (forall a b, R a b -> R' a b) ->
  ForallOrdPairs R l -> ForallOrdPairs R' l.
Proof.
  intros Himp H. induction H as [|a l Ha Hl IH]; constructor; [|exact IH].
  eapply Forall_impl; [|exact Ha]. intros b. apply Himp.
Qed.

(** In levels whose items were accepted by a test that implies the
    comparison of [fitsInLevel], two items stored left to right are clear of
    each other. *)
Lemma levels_clearOf spacing (R : Item -> Item -> Prop) levels :
  (forall a b, R a b -> passesItems spacing a b) ->
  Forall (ForallOrdPairs R) levels ->
  Forall (ForallOrdPairs
            (fun a b => leftToRight a -> leftToRight b ->
                        clearOf spacing (it_x a) (it_x2 a) (it_x b) (it_x2 b)))
         levels.
Proof.
  intros HR Hlevels. eapply Forall_impl; [|exact Hlevels].
  intros lvl. apply FOP_impl. intros a b Hab Ha Hb.
  apply passes_clearOf; auto.
Qed.

(** The pairs of a list, by index. *)
Lemma FOP_nth {A} (R : A -> A -> Prop) (l : list A) : forall i j a b,
  ForallOrdPairs R l -> (i < j)%nat ->
  nth_error l i = Some a -> nth_error l j = Some b -> R a b.
Proof.
  induction l as [|x l IH]; intros i j a b H Hij Hi Hj.
  - destruct i; discriminate.
  - inversion H as [|? ? Hx Hl]; subst.
    destruct j as [|j]; [lia|]. destruct i as [|i]; simpl in Hi, Hj.
    + injection Hi as <-. rewrite Forall_forall in Hx.
      apply Hx. eapply nth_error_In, Hj.
    + apply (IH i j a b Hl); [lia | exact Hi | exact Hj].
Qed.

(** C2, amended: in the placement list of the unified view (filtered by
    entity or not) and of every row of the grouped views, every two events on
    the same level and the same side of the baseline that are both placed
    left to right ([x <= x2]) are more than one spacing apart: the pixels the
    later one takes up, from its [x] to its [x2], lie wholly outside the
    pixels of the earlier one widened by the spacing on both sides,
    [x - spacing, x2 + spacing], with the view's spacing constant: 200 in the
    unified view, 80 in a row. *)
Theorem same_level_events_clear
    (st : State) (evs : list Event) (startDate endDate : Z)
    (axisStartX scale axisY : Q) (dateLabelPositions : list Span)
    (splitBy : ViewMode) (key : jstring) (rowEvents : list Event) :
  ForallOrdPairs
    (fun p q => p_level p = p_level q -> isAbove axisY p = isAbove axisY q ->
                p_x p <= p_x2 p -> p_x q <= p_x2 q ->
                clearOf 200 (p_x p) (p_x2 p) (p_x q) (p_x2 q))
    (calculateEventPositions Date_parse st evs startDate endDate
                             axisStartX scale axisY dateLabelPositions)
  /\ ForallOrdPairs
       (fun p q => r_labelYOffset p == r_labelYOffset q ->
                   r_x p <= r_x2 p -> r_x q <= r_x2 q ->
                   clearOf 80 (r_x p) (r_x2 p) (r_x q) (r_x2 q))
       (splitRowPositions Date_parse splitBy key rowEvents startDate axisStartX scale).
Proof.
  assert (Hfit : forall spacing items,
            Forall (ForallOrdPairs
                      (fun a b => leftToRight a -> leftToRight b ->
                                  clearOf spacing (it_x a) (it_x2 a) (it_x b) (it_x2 b)))
                   (assignLevels (fitsInLevel spacing) items)).
  { intros spacing items.
    apply levels_clearOf with (R := passesItems spacing); [auto|].
    apply assignLevels_fitsInLevel_passes. }
  assert (Hlast : forall f,
            Forall (ForallOrdPairs
                      (fun a b => leftToRight a -> leftToRight b ->
                                  clearOf 200 (it_x a) (it_x2 a) (it_x b) (it_x2 b)))
                   (assignLevelsToEvents
                      (filter f (sortByDate
                         (itemsOf Date_parse startDate axisStartX scale evs)))
                      200 dateLabelPositions)).
  { intros f. destruct (Qlt_le_dec scale 0) as [Hneg | Hs].
    - eapply Forall_impl;
        [| apply (@assignLevelsToEvents_desc 200 dateLabelPositions);
           [lra | apply sorted_items_byX_desc; lra]].
      intros lvl. apply FOP_impl. intros a b Ha Hltr. contradiction.
    - apply levels_clearOf with (R := rightOf 200).
      + intros a b Hab. right. exact Hab.
      + apply assignLevelsToEvents_rightOf, sorted_items_byX, Hs. }
  split.
  - unfold calculateEventPositions.
    destruct (f_entity (filters st)) as [|c filteringByEntity] eqn:Ef.
    + eapply positionsFrom_FOP
        with (Rit := fun a b => leftToRight a -> leftToRight b ->
                                clearOf 200 (it_x a) (it_x2 a) (it_x b) (it_x2 b)).
      * intros j a b Hab _ _. exact Hab.
      * intros j j' a b Hj Hl. simpl in Hl. congruence.
      * apply Hfit.
    + apply FOP_app.
      * eapply positionsFrom_FOP
          with (Rit := fun a b => leftToRight a -> leftToRight b ->
                                  clearOf 200 (it_x a) (it_x2 a) (it_x b) (it_x2 b)).
        -- intros j a b Hab _ _. exact Hab.
        -- intros j j' a b Hj Hl. simpl in Hl. congruence.
        -- apply Hlast.
      * eapply positionsFrom_FOP
          with (Rit := fun a b => leftToRight a -> leftToRight b ->
                                  clearOf 200 (it_x a) (it_x2 a) (it_x b) (it_x2 b)).
        -- intros j a b Hab _ _. exact Hab.
        -- intros j j' a b Hj Hl. simpl in Hl. congruence.
        -- apply Hlast.
      * intros p q Hp Hq _ Hside. exfalso.
        apply positionsFrom_In in Hp. destruct Hp as (j & _ & a & _ & _ & _ & ->).
        apply positionsFrom_In in Hq. destruct Hq as (j' & _ & b & _ & _ & _ & ->).
        unfold isAbove, abovePosition, belowPosition, LABEL_HEIGHT in Hside.
        cbn [p_y] in Hside.
        pose proof (levelQ_nonneg j). pose proof (levelQ_nonneg j').
        assert (Ha : ltb (axisY - (levelQ j + 1) * 30) axisY = true)
          by (apply ltb_lt; lra).
        assert (Hb : ltb (axisY + (levelQ j' + 1) * 30) axisY = false)
          by (apply ltb_ge; lra).
        congruence.
  - unfold splitRowPositions. apply FOP_app.
    + eapply positionsFrom_FOP
        with (Rit := fun a b => leftToRight a -> leftToRight b ->
                                clearOf 80 (it_x a) (it_x2 a) (it_x b) (it_x2 b)).
      * intros j a b Hab _. exact Hab.
      * intros j j' a b Hj Hl. exfalso. apply Hj.
        unfold primaryLabel, LABEL_HEIGHT in Hl. cbn [r_labelYOffset] in Hl.
        apply levelQ_inj. lra.
      * apply Hfit.
    + eapply positionsFrom_FOP
        with (Rit := fun a b => leftToRight a -> leftToRight b ->
                                clearOf 80 (it_x a) (it_x2 a) (it_x b) (it_x2 b)).
      * intros j a b Hab _. exact Hab.
      * intros j j' a b Hj Hl. exfalso. apply Hj.
        unfold secondaryLabel, LABEL_HEIGHT in Hl. cbn [r_labelYOffset] in Hl.
        apply levelQ_inj. lra.
      * apply Hfit.
    + intros p q Hp Hq Hl. exfalso.
      apply positionsFrom_In in Hp. destruct Hp as (j & _ & a & _ & _ & _ & ->).
      apply positionsFrom_In in Hq. destruct Hq as (j' & _ & b & _ & _ & _ & ->).
      unfold primaryLabel, secondaryLabel, LABEL_HEIGHT in Hl.
      cbn [r_labelYOffset] in Hl.
      pose proof (levelQ_nonneg j). pose proof (levelQ_nonneg j'). lra.
Qed.




End Host.

End RendererFacts.

(* ================================================================= *)
(** ** The properties at work on concrete inputs *)

Module ParserExamples.

Import DateParser DateParserFacts.

Lemma refHost_lowersAscii : lowersAscii RefHost.toLowerCase.
Proof. intros s _. reflexivity. Qed.

(** "Q1 2026" parses to January 1, 2026. *)
Lemma parse_quarter_first_month_witness :
  lowersAscii RefHost.toLowerCase
  /\ (1 <= 1 <= 4)%N /\ (2000 <= 2026 <= 2100)%N
  /\ RefHost.parse (u "Q1 2026")
     = Normal (Some {| startDate := u "2026-01-01"; endDate := None; isOngoing := false |}).
Proof.
  assert (Hn : (1 <= 1 <= 4)%N) by lia.
  assert (Hy : (2000 <= 2026 <= 2100)%N) by lia.
  split; [intros s _; reflexivity|].
  split; [exact Hn|]. split; [exact Hy|].
  exact (@parse_quarter_first_month RefHost.toLowerCase RefHost.Date_parse
           RefHost.getFullYear RefHost.getMonth RefHost.getDate RefHost.now
           (fun s _ => eq_refl) 1%N 2026%N Hn Hy).
Defined.

(** "early-2027", "mid-2027" and "late-2027" parse to the first of February,
    July and October 2027. *)
Lemma parse_vague_months_witness :
  lowersAscii RefHost.toLowerCase
  /\ (2000 <= 2027 <= 2100)%N
  /\ RefHost.parse (u "early-2027")
     = Normal (Some {| startDate := u "2027-02-01"; endDate := None; isOngoing := false |})
  /\ RefHost.parse (u "mid-2027")
     = Normal (Some {| startDate := u "2027-07-01"; endDate := None; isOngoing := false |})
  /\ RefHost.parse (u "late-2027")
     = Normal (Some {| startDate := u "2027-10-01"; endDate := None; isOngoing := false |}).
Proof.
  assert (Hy : (2000 <= 2027 <= 2100)%N) by lia.
  split; [intros s _; reflexivity|]. split; [exact Hy|].
  exact (@parse_vague_months RefHost.toLowerCase RefHost.Date_parse
           RefHost.getFullYear RefHost.getMonth RefHost.getDate RefHost.now
           (fun s _ => eq_refl) 2027%N Hy).
Defined.

Lemma parse_q5_falls_back_to_year_witness :
  lowersAscii RefHost.toLowerCase
  /\ parseQuarter (u "q5 2026") = None
  /\ parseYear (u "q5 2026") = Some (u "2026-07-01")
  /\ RefHost.parse (u "q5 2026")
     = Normal (Some {| startDate := u "2026-07-01"; endDate := None; isOngoing := false |}).
Proof.
  split; [intros s _; reflexivity|].
  apply (@parse_q5_falls_back_to_year RefHost.toLowerCase RefHost.Date_parse
           RefHost.getFullYear RefHost.getMonth RefHost.getDate RefHost.now).
  intros s _; reflexivity.
Defined.

Lemma parse_total_null_only_unmatched_witness :
  RefHost.toLowerCase [] = [] /\ RefHost.Date_parse [] = None
  /\ (exists r, RefHost.parse (u "not a date at all") = Normal r)
  /\ (RefHost.parse (u "not a date at all") = Normal None ->
      noStrategyMatches RefHost.toLowerCase
        (trim (RefHost.toLowerCase (u "not a date at all")))
      /\ RefHost.Date_parse (u "not a date at all") = None).
Proof.
  split; [reflexivity|]. split; [reflexivity|].
  apply (@parse_total_null_only_unmatched RefHost.toLowerCase RefHost.Date_parse
           RefHost.getFullYear RefHost.getMonth RefHost.getDate RefHost.now);
    reflexivity.
Defined.

Lemma parse_result_kind_witness :
  RefHost.parse (u "April-June 2026") = Normal (Some Examples.aprilToJune)
  /\ ((isPoint Examples.aprilToJune /\ ~ isRange Examples.aprilToJune
       /\ ~ isOngoingValue Examples.aprilToJune)
      \/ (~ isPoint Examples.aprilToJune /\ isRange Examples.aprilToJune
          /\ ~ isOngoingValue Examples.aprilToJune)
      \/ (~ isPoint Examples.aprilToJune /\ ~ isRange Examples.aprilToJune
          /\ isOngoingValue Examples.aprilToJune))
  /\ (isOngoing Examples.aprilToJune = true -> endDate Examples.aprilToJune = None).
Proof.
  split; [vm_compute; reflexivity|].
  apply (@parse_result_kind RefHost.toLowerCase RefHost.Date_parse
           RefHost.getFullYear RefHost.getMonth RefHost.getDate RefHost.now
           (u "April-June 2026")).
  vm_compute. reflexivity.
Defined.

End ParserExamples.

Module RendererExamples.

Import Renderer RendererFacts Examples.

Open Scope Q_scope.

(** C2, as stated, fails: two point events 300 pixels apart share level 0
    above the baseline, and their extents widened by the spacing of 200 on
    both sides, [-100, 300] and [200, 600], intersect.  Under an entity
    filter with a negative scale, where only the last event of a level is
    tested, a range joins the level of an event it is not even clear of.  And
    at any scale a range written backwards, stored with [x2] left of [x],
    joins the level of a point event that lies between its two ends: on a
    canvas 1000 pixels wide at zoom 4, the point of 2026-05-15 is at pixel
    607.8 and "June-April 2026" runs from 848.9 back to 366.7. *)
Lemma padded_extents_intersect :
  (exists p q,
     newYearPositions = [p; q]
     /\ p_level p = p_level q
     /\ isAbove 300 p = isAbove 300 q
     /\ ~ paddedDisjoint 200 (p_x p) (p_x2 p) (p_x q) (p_x2 q))
  /\ (exists p b q,
        backwardsPositions = [p; b; q]
        /\ p_level p = p_level q
        /\ isAbove 300 p = isAbove 300 q
        /\ ~ clearOf 200 (p_x p) (p_x2 p) (p_x q) (p_x2 q)
        /\ ~ paddedDisjoint 200 (p_x p) (p_x2 p) (p_x q) (p_x2 q))
  /\ (exists p q,
        zoomedInPositions = [p; q]
        /\ p_level p = p_level q
        /\ isAbove 300 p = isAbove 300 q
        /\ (p_x2 q < p_x p /\ p_x p < p_x q)
        /\ ~ clearOf 200 (p_x p) (p_x2 p) (p_x q) (p_x2 q)
        /\ ~ paddedDisjoint 200 (p_x p) (p_x2 p) (p_x q) (p_x2 q)).
Proof.
  split; [|split].
  - eexists. eexists. split; [vm_compute; reflexivity|].
    split; [reflexivity|]. split; [reflexivity|].
    unfold paddedDisjoint. cbn [p_x p_x2].
    intros [H | H]; vm_compute in H; discriminate H.
  - eexists. eexists. eexists. split; [vm_compute; reflexivity|].
    split; [reflexivity|]. split; [reflexivity|].
    unfold paddedDisjoint, clearOf. cbn [p_x p_x2].
    split; intros [H | H]; vm_compute in H; discriminate H.
  - eexists. eexists. split; [vm_compute; reflexivity|].
    split; [reflexivity|]. split; [reflexivity|].
    unfold paddedDisjoint, clearOf. cbn [p_x p_x2].
    split; [split; reflexivity|].
    split; intros [H | H]; vm_compute in H; discriminate H.
Qed.

Lemma same_level_events_clear_witness :
  (springPositions = [springPoint; springRange]
      /\ p_level springPoint = p_level springRange
      /\ isAbove 300 springPoint = isAbove 300 springRange
      /\ p_x springPoint <= p_x2 springPoint
      /\ p_x springRange <= p_x2 springRange
      /\ clearOf 200 (p_x springPoint) (p_x2 springPoint)
                     (p_x springRange) (p_x2 springRange))
  /\ (springRow = [springRowPoint; springRowRange]
      /\ r_labelYOffset springRowPoint == r_labelYOffset springRowRange
      /\ r_x springRowPoint <= r_x2 springRowPoint
      /\ r_x springRowRange <= r_x2 springRowRange
      /\ clearOf 80 (r_x springRowPoint) (r_x2 springRowPoint)
                    (r_x springRowRange) (r_x2 springRowRange)).
Proof.
  destruct (@same_level_events_clear RefHost.Date_parse
              (stateWith single 1 0 0 newYearAndSpring)
              newYearAndSpring newYearStart (newYearStart + 86400000) 100 perDay3 300 []
              entity (u "Alice") newYearAndSpring)
    as [Hpositions Hrows].
  assert (Hlevel : p_level springPoint = p_level springRange) by reflexivity.
  assert (Hside : isAbove 300 springPoint = isAbove 300 springRange) by reflexivity.
  assert (Hpoint : p_x springPoint <= p_x2 springPoint) by (vm_compute; discriminate).
  assert (Hrange : p_x springRange <= p_x2 springRange) by (vm_compute; discriminate).
  assert (Hoffset : r_labelYOffset springRowPoint == r_labelYOffset springRowRange)
    by reflexivity.
  assert (Hrowpoint : r_x springRowPoint <= r_x2 springRowPoint)
    by (vm_compute; discriminate).
  assert (Hrowrange : r_x springRowRange <= r_x2 springRowRange)
    by (vm_compute; discriminate).
  split.
  - split; [vm_compute; reflexivity|].
    split; [exact Hlevel|]. split; [exact Hside|].
    split; [exact Hpoint|]. split; [exact Hrange|].
    exact (@FOP_nth _ _ _ 0%nat 1%nat springPoint springRange Hpositions
             (Nat.lt_0_1) eq_refl eq_refl Hlevel Hside Hpoint Hrange).
  - split; [vm_compute; reflexivity|].
    split; [exact Hoffset|]. split; [exact Hrowpoint|]. split; [exact Hrowrange|].
    exact (@FOP_nth _ _ _ 0%nat 1%nat springRowPoint springRowRange Hrows
             (Nat.lt_0_1) eq_refl eq_refl Hoffset Hrowpoint Hrowrange).
Defined.





End RendererExamples.

(* ================================================================= *)
(** * Further properties *)

Module InteractionFacts.

Import Renderer RendererFacts Interaction.

Open Scope Q_scope.

Lemma clampZoom_bounds z : (1 # 10) <= clampZoom z /\ clampZoom z <= 10.
Proof.
  unfold clampZoom. split.
  - apply Q.le_max_l.
  - apply Q.max_lub; [discriminate | apply Q.le_min_l].
Qed.

Section Host.

Variable Date_parse : jstring -> option Z.

Lemma constrainPan_zoom svg st : zoom (constrainPan Date_parse svg st) = zoom st.
Proof. apply constrainPan_keeps. Qed.

Lemma setZoom_zoom svg newZoom st :
  zoom (setZoom Date_parse svg newZoom st) = clampZoom newZoom.
Proof.
  unfold setZoom. destruct svg as [rect|]; [|reflexivity].
  rewrite constrainPan_zoom.
  destruct st as [vm z px py evs fl ec dr lx ly].
  unfold zoomAboutCenter, withZoom, withPanX, withPanY. cbn [viewMode zoom].
  destruct (isSplit vm); [|reflexivity].
  match goal with |- context [negb ?b] => destruct (negb b) end; reflexivity.
Qed.

Lemma step_zoomInBounds svg a st :
  zoomInBounds st -> zoomInBounds (step Date_parse svg a st).
Proof.
  unfold zoomInBounds. intros H.
  destruct a as [e | e | | e | value | | e | mode]; cbn [step].
  - unfold handleMouseDown. destruct (onEvent e); exact H.
  - unfold handleMouseMove. destruct (negb (isDragging st)); [exact H|].
    rewrite constrainPan_zoom. exact H.
  - exact H.
  - unfold handleWheel. rewrite constrainPan_zoom.
    destruct (negb (Qeq_bool (deltaX e) 0));
      destruct (isSplit _ && negb (Qeq_bool (deltaY e) 0)); exact H.
  - rewrite setZoom_zoom. apply clampZoom_bounds.
  - cbn. split; discriminate.
  - unfold handleKeyboardZoom. destruct (withCtrlOrMeta e); [|exact H].
    destruct (key e); try exact H.
    + rewrite setZoom_zoom. apply clampZoom_bounds.
    + rewrite setZoom_zoom. apply clampZoom_bounds.
    + cbn. split; discriminate.
  - exact H.
Qed.

(** X1: whatever the user does (drag, wheel, slider, keyboard, reset, view
    switch), in whatever order, a zoom within [0.1, 10] stays within
    [0.1, 10]. *)
Theorem zoom_stays_in_bounds svg actions st :
  zoomInBounds st -> zoomInBounds (run Date_parse svg actions st).
Proof.
  unfold run. revert st. induction actions as [|a rest IH]; intros st H; simpl.
  - exact H.
  - apply IH, step_zoomInBounds, H.
Qed.

(** *** The padded date range *)

Lemma minOf_le_start d dates : (minOf d dates <= d)%Z.
Proof.
  unfold minOf. revert d. induction dates as [|x dates IH]; intros d; simpl; [lia|].
  specialize (IH (Z.min d x)). lia.
Qed.

Lemma minOf_le_In d dates t : In t dates -> (minOf d dates <= t)%Z.
Proof.
  unfold minOf. revert d. induction dates as [|x dates IH]; intros d Hin; simpl.
  - contradiction.
  - destruct Hin as [-> | Hin].
    + pose proof (minOf_le_start (Z.min d t) dates). unfold minOf in *. lia.
    + apply IH, Hin.
Qed.

Lemma maxOf_ge_start d dates : (d <= maxOf d dates)%Z.
Proof.
  unfold maxOf. revert d. induction dates as [|x dates IH]; intros d; simpl; [lia|].
  specialize (IH (Z.max d x)). lia.
Qed.

Lemma maxOf_ge_In d dates t : In t dates -> (t <= maxOf d dates)%Z.
Proof.
  unfold maxOf. revert d. induction dates as [|x dates IH]; intros d Hin; simpl.
  - contradiction.
  - destruct Hin as [-> | Hin].
    + pose proof (maxOf_ge_start (Z.max d t) dates). unfold maxOf in *. lia.
    + apply IH, Hin.
Qed.

Lemma minOf_le_maxOf d dates : (minOf d dates <= maxOf d dates)%Z.
Proof.
  pose proof (minOf_le_start d dates). pose proof (maxOf_ge_start d dates). lia.
Qed.

(** Clipping at or below an integer gives an integer at or below it. *)
Lemma timeClip_le (x : Q) (z : Z) : x <= inject_Z z -> (timeClip x <= z)%Z.
Proof.
  intros H. unfold timeClip. destruct (Qle_bool 0 x).
  - rewrite Zle_Qle. eapply Qle_trans; [apply Qfloor_le | exact H].
  - rewrite <- (Qceiling_Z z). apply Qceiling_resp_le, H.
Qed.

Lemma timeClip_ge (x : Q) (z : Z) : inject_Z z <= x -> (z <= timeClip x)%Z.
Proof.
  intros H. unfold timeClip. destruct (Qle_bool 0 x).
  - rewrite <- (Qfloor_Z z). apply Qfloor_resp_le, H.
  - rewrite Zle_Qle. eapply Qle_trans; [exact H | apply Qle_ceiling].
Qed.

Lemma paddedRange_facts d dates :
  (fst (paddedRange d dates) <= minOf d dates)%Z
  /\ (maxOf d dates <= snd (paddedRange d dates))%Z
  /\ (fst (paddedRange d dates) < snd (paddedRange d dates))%Z.
Proof.
  unfold paddedRange. cbn [fst snd].
  set (lo := minOf d dates). set (hi := maxOf d dates).
  assert (Hlh : (lo <= hi)%Z) by apply minOf_le_maxOf.
  assert (Hspan : 0 <= elapsed hi lo * (1 # 10)).
  { unfold elapsed. apply Qmult_le_0_compat; [|discriminate].
    change 0 with (inject_Z 0). rewrite <- Zle_Qle. lia. }
  destruct (Qeq_bool (elapsed hi lo * (1 # 10)) 0) eqn:E.
  - (* a single instant: thirty days on each side *)
    assert (H1 : (timeClip (inject_Z lo - 86400000 * 30) <= lo - 1)%Z).
    { apply timeClip_le.
      assert (Hm : inject_Z (lo - 1) == inject_Z lo - 1)
        by (unfold Z.sub; rewrite inject_Z_plus; reflexivity).
      rewrite Hm. lra. }
    assert (H2 : (hi <= timeClip (inject_Z hi + 86400000 * 30))%Z).
    { apply timeClip_ge. lra. }
    lia.
  - assert (Hne : (lo < hi)%Z).
    { destruct (Z.eq_dec lo hi) as [Heq | Hneq]; [|lia].
      exfalso. rewrite Heq in E. unfold elapsed in E.
      rewrite Z.sub_diag in E. discriminate E. }
    assert (H1 : (timeClip (inject_Z lo - elapsed hi lo * (1 # 10)) <= lo)%Z).
    { apply timeClip_le. lra. }
    assert (H2 : (hi <= timeClip (inject_Z hi + elapsed hi lo * (1 # 10)))%Z).
    { apply timeClip_ge. lra. }
    lia.
Qed.

Lemma minOf_maxOf_In d dates t :
  In t (d :: dates) -> (minOf d dates <= t <= maxOf d dates)%Z.
Proof.
  intros [<- | Hin].
  - pose proof (minOf_le_start d dates). pose proof (maxOf_ge_start d dates). lia.
  - pose proof (@minOf_le_In d dates t Hin). pose proof (@maxOf_ge_In d dates t Hin). lia.
Qed.

Lemma paddedRange_positive d dates :
  0 < elapsed (snd (paddedRange d dates)) (fst (paddedRange d dates)).
Proof.
  destruct (paddedRange_facts d dates) as (_ & _ & Hlt).
  unfold elapsed. change 0 with (inject_Z 0). rewrite <- Zlt_Qlt. lia.
Qed.

(** X2: the padded date range really is a range around the dates: it starts
    at or before the earliest date, ends at or after the latest, and is never
    empty, so the scale that divides by its length never divides by zero. *)
Theorem paddedRange_encloses d dates :
  (fst (paddedRange d dates) < snd (paddedRange d dates))%Z
  /\ 0 < elapsed (snd (paddedRange d dates)) (fst (paddedRange d dates))
  /\ forall t, In t (d :: dates) ->
       (fst (paddedRange d dates) <= t <= snd (paddedRange d dates))%Z.
Proof.
  destruct (paddedRange_facts d dates) as (Hlo & Hhi & Hlt).
  split; [exact Hlt|]. split.
  - unfold elapsed. change 0 with (inject_Z 0). rewrite <- Zlt_Qlt. lia.
  - intros t Ht. pose proof (@minOf_maxOf_In d dates t Ht). lia.
Qed.

(** X3: the render functions draw nothing exactly when no event has a valid
    date; otherwise their date range is not empty and holds today and every
    date of every event. *)
Theorem renderRange_holds_today evs today :
  match renderRange Date_parse evs today with
  | None => datesOf Date_parse evs = []
  | Some (startDate, endDate) =>
      datesOf Date_parse evs <> []
      /\ (startDate < endDate)%Z
      /\ (startDate <= today <= endDate)%Z
      /\ forall t, In t (datesOf Date_parse evs) -> (startDate <= t <= endDate)%Z
  end.
Proof.
  unfold renderRange.
  destruct (datesOf Date_parse evs) as [|d dates] eqn:E; simpl; [reflexivity|].
  destruct (dates ++ [today]) as [|x l] eqn:El.
  { destruct dates; discriminate. }
  rewrite <- El.
  destruct (paddedRange d (dates ++ [today])) as [startDate endDate] eqn:Er.
  destruct (paddedRange_facts d (dates ++ [today])) as (Hlo & Hhi & Hlt).
  assert (Hin : forall t, In t (d :: dates ++ [today]) ->
                  (fst (paddedRange d (dates ++ [today])) <= t
                   <= snd (paddedRange d (dates ++ [today])))%Z).
  { intros t Ht. pose proof (@minOf_maxOf_In d (dates ++ [today]) t Ht). lia. }
  rewrite Er in *. cbn [fst snd] in *.
  split; [discriminate|]. split; [exact Hlt|]. split.
  - apply Hin. right. apply in_or_app. right. simpl. auto.
  - intros t [<- | Ht]; apply Hin; [left; reflexivity|].
    right. apply in_or_app. left. exact Ht.
Qed.

(** X4: for a positive zoom the row height of the grouped views is never
    below the base height of 80; it is 80 from zoom 2.5 on, and below that it
    is inversely proportional to the zoom (height times zoom is 200). *)
Theorem getRowHeight_bounds st :
  0 < zoom st ->
  BASE_ROW_HEIGHT <= getRowHeight st
  /\ ((25 # 10) <= zoom st -> getRowHeight st = BASE_ROW_HEIGHT)
  /\ (zoom st < (25 # 10) -> getRowHeight st * zoom st == 200).
Proof.
  intros Hz. unfold getRowHeight, BASE_ROW_HEIGHT.
  destruct (Qle_bool (25 # 10) (zoom st)) eqn:E.
  - apply Qle_bool_iff in E. split; [apply Qle_refl|]. split; [reflexivity|].
    intros Hlt. exfalso. apply (Qlt_not_le _ _ Hlt E).
  - assert (Hlt : zoom st < 25 # 10).
    { apply Qnot_le_lt. intros H. apply Qle_bool_iff in H. congruence. }
    assert (Hne : ~ zoom st == 0) by (intros H; rewrite H in Hz; discriminate Hz).
    assert (Hprod : 80 * ((25 # 10) / zoom st) * zoom st == 200) by (field; exact Hne).
    split; [|split].
    + apply Qmult_lt_0_le_reg_r with (z := zoom st); [exact Hz|].
      rewrite Hprod. lra.
    + intros H. exfalso. apply (Qlt_not_le _ _ Hlt H).
    + intros _. exact Hprod.
Qed.

(** *** What the pan clamp does *)

Ltac fields :=
  cbn [viewMode zoom events panX panY filters entityColors isDragging
       lastMouseX lastMouseY].

(** [constrainPan], read off its definition, when some event has a valid
    date. *)
Lemma constrainPan_form rect st d dates :
  datesOf Date_parse (events st) = d :: dates ->
  panX (constrainPan Date_parse (Some rect) st)
    = Qmax (minPanX rect st d dates) (Qmin (maxPanX rect st) (panX st))
  /\ panY (constrainPan Date_parse (Some rect) st)
     = if isSplit (viewMode st) && (0 <? rowCount st)%nat
       then Qmax (minPanY rect st) (Qmin 0 (panY st))
       else panY st.
Proof.
  destruct st as [vm z px py evs fl ec dr lx ly].
  unfold constrainPan, minPanX, maxPanX, minPanY, totalContentHeight,
    totalTimelineWidth, withPanX, withPanY, leftMarginOf, rowCount, getRowHeight.
  fields. intros Ed.
  destruct evs as [|e l]; [discriminate Ed|].
  rewrite Ed.
  destruct (paddedRange d dates) as [startDate endDate].
  fields.
  destruct (isSplit vm); [|split; reflexivity].
  match goal with |- context [(0 <? ?n)%nat] => destruct (0 <? n)%nat end;
    split; reflexivity.
Qed.

Lemma constrainPan_panY_single svg st :
  viewMode st = single -> panY (constrainPan Date_parse svg st) = panY st.
Proof.
  intros Hvm. destruct svg as [rect|]; [|reflexivity].
  destruct (datesOf Date_parse (events st)) as [|d dates] eqn:Ed.
  - unfold constrainPan. rewrite Ed. destruct (events st); reflexivity.
  - destruct (@constrainPan_form rect st d dates Ed) as [_ ->]. rewrite Hvm. reflexivity.
Qed.

Lemma totalTimelineWidth_eq rect st d dates :
  totalTimelineWidth rect st d dates
  == (width rect - leftMarginOf st - MARGIN_right) * zoom st.
Proof.
  unfold totalTimelineWidth.
  pose proof (paddedRange_positive d dates) as Hpos.
  destruct (paddedRange d dates) as [startDate endDate]. cbn [fst snd] in Hpos.
  field. intros H. rewrite H in Hpos. discriminate Hpos.
Qed.

Lemma leftMarginOf_ge st : 100 <= leftMarginOf st.
Proof.
  unfold leftMarginOf, SPLIT_VIEW_LABEL_WIDTH, MARGIN_left.
  destruct (isSplit (viewMode st)); discriminate.
Qed.

(** The pan that [constrainPan] leaves depends on the canvas, the mode, the
    zoom, the events and the pan only. *)
Lemma constrainPan_pan svg st st' :
  viewMode st' = viewMode st -> zoom st' = zoom st -> events st' = events st ->
  panX st' = panX st -> panY st' = panY st ->
  panX (constrainPan Date_parse svg st') = panX (constrainPan Date_parse svg st)
  /\ panY (constrainPan Date_parse svg st') = panY (constrainPan Date_parse svg st).
Proof.
  destruct st as [vm z px py evs fl ec dr lx ly].
  destruct st' as [vm' z' px' py' evs' fl' ec' dr' lx' ly'].
  fields. intros -> -> -> -> ->.
  destruct svg as [rect|]; [|split; reflexivity].
  unfold constrainPan, withPanX, withPanY, leftMarginOf, rowCount, getRowHeight.
  fields.
  destruct evs as [|e l]; [split; reflexivity|].
  destruct (datesOf Date_parse (e :: l)) as [|d dates]; [split; reflexivity|].
  destruct (paddedRange d dates) as [startDate endDate].
  fields.
  destruct (isSplit vm); [|split; reflexivity].
  match goal with |- context [(0 <? ?n)%nat] => destruct (0 <? n)%nat end;
    split; reflexivity.
Qed.

Lemma state_eq st st' :
  viewMode st' = viewMode st -> zoom st' = zoom st ->
  panX st' = panX st -> panY st' = panY st ->
  events st' = events st -> filters st' = filters st ->
  entityColors st' = entityColors st -> isDragging st' = isDragging st ->
  lastMouseX st' = lastMouseX st -> lastMouseY st' = lastMouseY st ->
  st' = st.
Proof.
  destruct st, st'. fields. intros. subst. reflexivity.
Qed.

Lemma constrainPan_rest svg st :
  entityColors (constrainPan Date_parse svg st) = entityColors st
  /\ isDragging (constrainPan Date_parse svg st) = isDragging st
  /\ lastMouseX (constrainPan Date_parse svg st) = lastMouseX st
  /\ lastMouseY (constrainPan Date_parse svg st) = lastMouseY st.
Proof.
  destruct st as [vm z px py evs fl ec dr lx ly].
  destruct svg as [rect|]; [|auto].
  unfold constrainPan, withPanX, withPanY, leftMarginOf, rowCount, getRowHeight.
  fields.
  destruct evs as [|e l]; [auto|].
  destruct (datesOf Date_parse (e :: l)) as [|d dates]; [auto|].
  destruct (paddedRange d dates) as [startDate endDate].
  fields.
  destruct (isSplit vm); [|auto].
  match goal with |- context [(0 <? ?n)%nat] => destruct (0 <? n)%nat end; auto.
Qed.

(** X5: a saved view can be put back: [restoreState (saveState st)] applied
    to any later state restores the zoom and the pan that were saved and
    leaves mode and events of the later state alone; applied to [st] itself it
    changes nothing; and when the view saved was within the pan limits and
    the later state shows the same events in the same mode, the view put back
    is within the pan limits too: the next pan clamp does not move it. *)
Theorem restoreState_saveState svg st later :
  saveState (restoreState (saveState st) later) = saveState st
  /\ restoreState (saveState st) st = st
  /\ viewMode (restoreState (saveState st) later) = viewMode later
  /\ events (restoreState (saveState st) later) = events later
  /\ (viewMode later = viewMode st -> events later = events st ->
      constrainPan Date_parse svg st = st ->
      constrainPan Date_parse svg (restoreState (saveState st) later)
      = restoreState (saveState st) later).
Proof.
  split; [destruct st, later; reflexivity|].
  split; [destruct st; reflexivity|].
  split; [destruct st, later; reflexivity|].
  split; [destruct st, later; reflexivity|].
  intros Hvm Hevs Hfix.
  set (back := restoreState (saveState st) later).
  assert (Hb : viewMode back = viewMode st /\ zoom back = zoom st
               /\ events back = events st
               /\ panX back = panX st /\ panY back = panY st).
  { subst back. destruct st, later. cbn in *. subst. repeat split. }
  destruct Hb as (B1 & B2 & B3 & B4 & B5).
  destruct (@constrainPan_pan svg st back B1 B2 B3 B4 B5) as [HX HY].
  rewrite Hfix in HX, HY.
  destruct (constrainPan_keeps Date_parse svg back) as (K1 & K2 & K3 & K4).
  destruct (constrainPan_rest svg back) as (R1 & R2 & R3 & R4).
  apply state_eq; congruence.
Qed.

(** X6: with a canvas at least twice as wide as the left margin, a zoom
    that is not negative and some event with a valid date, the horizontal
    clamp keeps the start of the axis at or left of the right edge of the
    canvas, keeps the end of the axis at or right of twice the left margin,
    and leaves a pan that already satisfies both where it is. *)
Theorem constrainPan_horizontal rect st :
  datesOf Date_parse (events st) <> [] ->
  0 <= zoom st ->
  2 * leftMarginOf st <= width rect ->
  let clamped := constrainPan Date_parse (Some rect) st in
  let axisLength := (width rect - leftMarginOf st - MARGIN_right) * zoom st in
  axisStartXOf clamped <= width rect
  /\ 2 * leftMarginOf st <= axisStartXOf clamped + axisLength
  /\ (axisStartXOf st <= width rect ->
      2 * leftMarginOf st <= axisStartXOf st + axisLength ->
      panX clamped == panX st).
Proof.
  intros Hd Hz Hw clamped axisLength. subst clamped axisLength.
  destruct (datesOf Date_parse (events st)) as [|d dates] eqn:Ed; [congruence|].
  destruct (@constrainPan_form rect st d dates Ed) as [HX _].
  destruct (constrainPan_keeps Date_parse (Some rect) st) as (Hvm & _).
  unfold axisStartXOf, leftMarginOf in *. rewrite Hvm, HX.
  fold (leftMarginOf st) in *.
  pose proof (totalTimelineWidth_eq rect st d dates) as Ht.
  pose proof (leftMarginOf_ge st) as Hlm.
  unfold minPanX, maxPanX, MARGIN_right in *.
  set (lm := leftMarginOf st) in *. set (w := width rect) in *.
  set (total := totalTimelineWidth rect st d dates) in *.
  assert (Htot : 0 <= total).
  { rewrite Ht. apply Qmult_le_0_compat; [lra | exact Hz]. }
  assert (Hlohi : - (total - lm) <= w - lm) by lra.
  pose proof (Q.le_max_l (- (total - lm)) (Qmin (w - lm) (panX st))) as Hlo.
  assert (Hhi : Qmax (- (total - lm)) (Qmin (w - lm) (panX st)) <= w - lm).
  { apply Q.max_lub; [exact Hlohi | apply Q.le_min_l]. }
  split; [lra|]. split; [rewrite <- Ht; lra|].
  intros H1 H2. rewrite <- Ht in H2.
  rewrite Q.min_r by lra. rewrite Q.max_r by lra. reflexivity.
Qed.

(** X7: in the grouped views, with some event with a valid date and at
    least one row, the vertical clamp keeps [panY] at or above [minPanY]; when
    the rows are at least as tall as the canvas less its margins [panY] ends
    at or below 0, and when they are shorter [panY] is [minPanY] whatever it
    was: a positive offset that pins the rows to the bottom.  In the unified
    view [panY] is never changed. *)
Theorem constrainPan_vertical rect st :
  datesOf Date_parse (events st) <> [] ->
  let clamped := constrainPan Date_parse (Some rect) st in
  let room := height rect - MARGIN_top - MARGIN_bottom in
  (viewMode st = single -> panY clamped = panY st)
  /\ (isSplit (viewMode st) = true -> (0 < rowCount st)%nat ->
      minPanY rect st <= panY clamped
      /\ (room <= totalContentHeight st -> panY clamped <= 0)
      /\ (totalContentHeight st < room ->
          panY clamped == room - totalContentHeight st /\ 0 < panY clamped)).
Proof.
  intros Hd clamped room. subst clamped room.
  destruct (datesOf Date_parse (events st)) as [|d dates] eqn:Ed; [congruence|].
  destruct (@constrainPan_form rect st d dates Ed) as [_ HY].
  split.
  - intros Hvm. rewrite HY, Hvm. reflexivity.
  - intros Hs Hr. rewrite HY, Hs.
    apply Nat.ltb_lt in Hr. rewrite Hr. cbn [andb].
    unfold minPanY, MARGIN_top, MARGIN_bottom.
    set (content := totalContentHeight st). set (h := height rect).
    pose proof (Q.le_max_l (- (content - h + 60 + 60)) (Qmin 0 (panY st))) as Hlo.
    split; [exact Hlo|]. split.
    + intros Hroom. apply Q.max_lub; [lra | apply Q.le_min_l].
    + intros Hroom.
      assert (Hmin : Qmin 0 (panY st) <= 0) by apply Q.le_min_l.
      rewrite Q.max_l by lra. split; lra.
Qed.

Lemma zoomAboutCenter_keeps rect newZoom st :
  viewMode (zoomAboutCenter rect newZoom st) = viewMode st
  /\ events (zoomAboutCenter rect newZoom st) = events st
  /\ filters (zoomAboutCenter rect newZoom st) = filters st
  /\ entityColors (zoomAboutCenter rect newZoom st) = entityColors st.
Proof.
  destruct st as [vm z px py evs fl ec dr lx ly].
  unfold zoomAboutCenter, withZoom, withPanX, withPanY. fields.
  destruct (isSplit vm); [|auto].
  match goal with |- context [negb ?b] => destruct (negb b) end; auto.
Qed.

Lemma constrainPan_frame svg st :
  viewMode (constrainPan Date_parse svg st) = viewMode st
  /\ events (constrainPan Date_parse svg st) = events st
  /\ filters (constrainPan Date_parse svg st) = filters st
  /\ entityColors (constrainPan Date_parse svg st) = entityColors st.
Proof.
  destruct (constrainPan_keeps Date_parse svg st) as (K1 & _ & K3 & K4).
  destruct (constrainPan_rest svg st) as (R1 & _).
  auto.
Qed.

Lemma setZoom_frame svg newZoom st :
  viewMode (setZoom Date_parse svg newZoom st) = viewMode st
  /\ events (setZoom Date_parse svg newZoom st) = events st
  /\ filters (setZoom Date_parse svg newZoom st) = filters st
  /\ entityColors (setZoom Date_parse svg newZoom st) = entityColors st.
Proof.
  unfold setZoom. destruct svg as [rect|].
  - destruct (constrainPan_frame (Some rect) (zoomAboutCenter rect newZoom st))
      as (C1 & C2 & C3 & C4).
    destruct (zoomAboutCenter_keeps rect newZoom st) as (Z1 & Z2 & Z3 & Z4).
    repeat split; congruence.
  - destruct st; auto.
Qed.

Lemma step_frame svg a st :
  (keepsMode a -> viewMode (step Date_parse svg a st) = viewMode st)
  /\ events (step Date_parse svg a st) = events st
  /\ filters (step Date_parse svg a st) = filters st
  /\ entityColors (step Date_parse svg a st) = entityColors st.
Proof.
  destruct a as [e | e | | e | value | | e | mode]; cbn [step keepsMode].
  - unfold handleMouseDown. destruct (onEvent e); destruct st; auto.
  - unfold handleMouseMove. destruct (negb (isDragging st)); [auto|].
    match goal with
    | |- context [constrainPan Date_parse svg ?s] =>
        destruct (constrainPan_frame svg s) as (C1 & C2 & C3 & C4)
    end.
    rewrite C1, C2, C3, C4. destruct st; auto.
  - destruct st; auto.
  - unfold handleWheel.
    match goal with
    | |- context [constrainPan Date_parse svg ?s] =>
        destruct (constrainPan_frame svg s) as (C1 & C2 & C3 & C4)
    end.
    rewrite C1, C2, C3, C4.
    destruct st as [vm z px py evs fl ec dr lx ly]. unfold withPanX, withPanY. fields.
    destruct (negb (Qeq_bool (deltaX e) 0)); fields;
      destruct (isSplit vm && negb (Qeq_bool (deltaY e) 0)); auto.
  - destruct (setZoom_frame svg value st) as (S1 & S2 & S3 & S4). auto.
  - destruct st; auto.
  - unfold handleKeyboardZoom. destruct (withCtrlOrMeta e); [|auto].
    destruct (key e); auto.
    + destruct (setZoom_frame svg (zoom st * (12 # 10)) st) as (S1 & S2 & S3 & S4). auto.
    + destruct (setZoom_frame svg (zoom st / (12 # 10)) st) as (S1 & S2 & S3 & S4). auto.
  - destruct st; split; [intros [] | auto].
Qed.

(** X8: the handlers change the view and nothing else: whatever the user
    does, events, filters and entity colours stay as they are, and the view
    mode changes by a switch of the view mode only.  The wheel never moves the
    unified view vertically, and moving the mouse without a drag under way
    changes nothing at all. *)
Theorem handlers_change_the_view_only svg actions st :
  events (run Date_parse svg actions st) = events st
  /\ filters (run Date_parse svg actions st) = filters st
  /\ entityColors (run Date_parse svg actions st) = entityColors st
  /\ (Forall keepsMode actions ->
      viewMode (run Date_parse svg actions st) = viewMode st)
  /\ (forall e, viewMode st = single ->
                panY (handleWheel Date_parse svg e st) = panY st)
  /\ (forall e, isDragging st = false ->
                handleMouseMove Date_parse svg e st = st).
Proof.
  assert (Hrun : forall actions st,
            events (run Date_parse svg actions st) = events st
            /\ filters (run Date_parse svg actions st) = filters st
            /\ entityColors (run Date_parse svg actions st) = entityColors st
            /\ (Forall keepsMode actions ->
                viewMode (run Date_parse svg actions st) = viewMode st)).
  { unfold run. induction actions0 as [|a rest IH]; intros st0; simpl.
    - auto.
    - destruct (IH (step Date_parse svg a st0)) as (I1 & I2 & I3 & I4).
      destruct (step_frame svg a st0) as (S1 & S2 & S3 & S4).
      repeat split; try congruence.
      intros Hall. inversion Hall as [|? ? Ha Hrest]; subst.
      rewrite (I4 Hrest). apply S1, Ha. }
  destruct (Hrun actions st) as (H1 & H2 & H3 & H4).
  repeat split; try assumption.
  - intros e Hvm. unfold handleWheel.
    rewrite constrainPan_panY_single.
    + destruct (negb (Qeq_bool (deltaX e) 0)); cbn [viewMode withPanX];
        rewrite Hvm; reflexivity.
    + destruct (negb (Qeq_bool (deltaX e) 0)); cbn [viewMode withPanX];
        rewrite Hvm; cbn [isSplit andb]; fields; exact Hvm.
  - intros e Hd. unfold handleMouseMove. rewrite Hd. reflexivity.
Qed.

End Host.

End InteractionFacts.

Module InteractionExamples.

Import Renderer Interaction InteractionFacts Examples.

Open Scope Q_scope.

Lemma zoom_stays_in_bounds_witness :
  zoomInBounds atRest
  /\ zoomInBounds (run RefHost.Date_parse (Some canvas) session atRest).
Proof.
  assert (H : zoomInBounds atRest) by (split; vm_compute; discriminate).
  split; [exact H|].
  exact (@zoom_stays_in_bounds RefHost.Date_parse (Some canvas) session atRest H).
Defined.

Lemma getRowHeight_bounds_witness :
  0 < zoom zoomedOut
  /\ BASE_ROW_HEIGHT <= getRowHeight zoomedOut
  /\ ((25 # 10) <= zoom zoomedOut -> getRowHeight zoomedOut = BASE_ROW_HEIGHT)
  /\ (zoom zoomedOut < (25 # 10) -> getRowHeight zoomedOut * zoom zoomedOut == 200).
Proof.
  assert (H : 0 < zoom zoomedOut) by (vm_compute; reflexivity).
  split; [exact H|].
  exact (@getRowHeight_bounds zoomedOut H).
Defined.

Lemma constrainPan_horizontal_witness :
  datesOf RefHost.Date_parse (events pannedRight) <> []
  /\ 0 <= zoom pannedRight
  /\ 2 * leftMarginOf pannedRight <= width canvas
  /\ (let clamped := constrainPan RefHost.Date_parse (Some canvas) pannedRight in
      let axisLength :=
        (width canvas - leftMarginOf pannedRight - MARGIN_right) * zoom pannedRight in
      axisStartXOf clamped <= width canvas
      /\ 2 * leftMarginOf pannedRight <= axisStartXOf clamped + axisLength
      /\ (axisStartXOf pannedRight <= width canvas ->
          2 * leftMarginOf pannedRight <= axisStartXOf pannedRight + axisLength ->
          panX clamped == panX pannedRight)).
Proof.
  assert (H1 : datesOf RefHost.Date_parse (events pannedRight) <> [])
    by (vm_compute; discriminate).
  assert (H2 : 0 <= zoom pannedRight) by (vm_compute; discriminate).
  assert (H3 : 2 * leftMarginOf pannedRight <= width canvas)
    by (vm_compute; discriminate).
  split; [exact H1|]. split; [exact H2|]. split; [exact H3|].
  exact (@constrainPan_horizontal RefHost.Date_parse canvas pannedRight H1 H2 H3).
Defined.

Lemma constrainPan_vertical_witness :
  datesOf RefHost.Date_parse (events zoomedOut) <> []
  /\ (let clamped := constrainPan RefHost.Date_parse (Some canvas) zoomedOut in
      let room := height canvas - MARGIN_top - MARGIN_bottom in
      (viewMode zoomedOut = single -> panY clamped = panY zoomedOut)
      /\ (isSplit (viewMode zoomedOut) = true -> (0 < rowCount zoomedOut)%nat ->
          minPanY canvas zoomedOut <= panY clamped
          /\ (room <= totalContentHeight zoomedOut -> panY clamped <= 0)
          /\ (totalContentHeight zoomedOut < room ->
              panY clamped == room - totalContentHeight zoomedOut
              /\ 0 < panY clamped))).
Proof.
  assert (H1 : datesOf RefHost.Date_parse (events zoomedOut) <> [])
    by (vm_compute; discriminate).
  split; [exact H1|].
  exact (@constrainPan_vertical RefHost.Date_parse canvas zoomedOut H1).
Defined.

End InteractionExamples.

Module LayoutFacts.

Import Renderer RendererFacts Layout.

Open Scope Q_scope.

(** *** No event is lost or placed twice *)

Lemma insertByDate_perm it l : Permutation (insertByDate it l) (it :: l).
Proof.
  induction l as [|y l IH]; simpl; [reflexivity|].
  destruct (it_date it <=? it_date y)%Z; [reflexivity|].
  rewrite IH. apply perm_swap.
Qed.

Lemma sortByDate_perm l : Permutation (sortByDate l) l.
Proof.
  unfold sortByDate. induction l as [|x l IH]; simpl; [reflexivity|].
  rewrite insertByDate_perm. constructor. exact IH.
Qed.

Lemma filter_split_perm {A} (f : A -> bool) l :
  Permutation (filter f l ++ filter (fun x => negb (f x)) l) l.
Proof.
  induction l as [|x l IH]; simpl; [reflexivity|].
  destruct (f x); simpl.
  - constructor. exact IH.
  - rewrite <- Permutation_middle. constructor. exact IH.
Qed.

Lemma placeRec_perm fits levels it :
  Permutation (List.concat (placeRec fits levels it)) (it :: List.concat levels).
Proof.
  induction levels as [|lvl rest IH]; simpl; [reflexivity|].
  destruct (fits lvl it); simpl.
  - rewrite <- app_assoc. simpl. symmetry. apply Permutation_middle.
  - rewrite IH. symmetry. apply Permutation_middle.
Qed.

Lemma fold_place_perm fits items : forall levels,
  Permutation (List.concat (fold_left (place fits) items levels))
              (List.concat levels ++ items).
Proof.
  induction items as [|it rest IH]; intros levels; simpl.
  - rewrite app_nil_r. reflexivity.
  - rewrite IH, place_rec, placeRec_perm. simpl.
    apply Permutation_middle.
Qed.

Lemma assignLevels_perm fits items :
  Permutation (List.concat (assignLevels fits items)) items.
Proof. unfold assignLevels. rewrite fold_place_perm. reflexivity. Qed.

Lemma positionsFrom_events {A} (mk : nat -> Item -> A) (ev : A -> Event) levels :
  (forall j it, ev (mk j it) = it_event it) ->
  forall i, List.map ev (positionsFrom mk i levels)
            = List.map it_event (List.concat levels).
Proof.
  intros Hmk. induction levels as [|lvl rest IH]; intros i; simpl; [reflexivity|].
  rewrite !map_app, IH, map_map. f_equal.
  apply map_ext. intros it. apply Hmk.
Qed.

(** *** First fit *)

Section FirstFit.

Variable fits : list Item -> Item -> bool.
Variable blame : Item -> Item -> Prop.
Hypothesis fits_blame : forall lvl it,
  lvl <> [] -> fits lvl it = false -> exists q, In q lvl /\ blame q it.

Lemma blocked_grow lower lower' it :
  Forall2 (fun a b => incl a b) lower lower' ->
  blocked blame lower it -> blocked blame lower' it.
Proof.
  unfold blocked. induction 1 as [|a b lower lower' Hab Hrest IH]; intros H.
  - constructor.
  - inversion H as [|? ? (q & Hq & Hb) Hl]; subst. constructor; [|auto].
    exists q. split; [apply Hab, Hq | exact Hb].
Qed.

Lemma Forall2_incl_refl (l : list (list Item)) :
  Forall2 (fun a b => incl a b) l l.
Proof. induction l; constructor; auto using incl_refl. Qed.

Lemma firstFit_grow levels : forall lower lower',
  Forall2 (fun a b => incl a b) lower lower' ->
  firstFit blame lower levels -> firstFit blame lower' levels.
Proof.
  induction levels as [|lvl rest IH]; intros lower lower' Hll; simpl; [auto|].
  intros [Hlvl Hrest]. split.
  - eapply Forall_impl; [|exact Hlvl]. intros it. apply blocked_grow, Hll.
  - eapply IH; [|exact Hrest]. apply Forall2_app; [exact Hll|].
    constructor; [apply incl_refl | constructor].
Qed.

Lemma placeRec_firstFit levels it : forall lower,
  Forall (fun lvl => lvl <> []) levels ->
  firstFit blame lower levels -> blocked blame lower it ->
  firstFit blame lower (placeRec fits levels it).
Proof.
  induction levels as [|lvl rest IH]; intros lower Hne Hff Hb; simpl.
  - split; [constructor; [exact Hb | constructor] | exact I].
  - inversion Hne as [|? ? Hlvl Hrest]; subst. destruct Hff as [Hl Hr].
    destruct (fits lvl it) eqn:E; simpl.
    + split.
      * apply Forall_app. split; [exact Hl | constructor; [exact Hb | constructor]].
      * eapply firstFit_grow; [|exact Hr].
        apply Forall2_app; [apply Forall2_incl_refl|].
        constructor; [apply incl_appl, incl_refl | constructor].
    + split; [exact Hl|]. apply IH; [exact Hrest | exact Hr |].
      unfold blocked. apply Forall_app. split; [exact Hb|].
      constructor; [apply fits_blame; assumption | constructor].
Qed.

Lemma placeRec_nonempty levels it :
  Forall (fun lvl => lvl <> []) levels ->
  Forall (fun lvl => lvl <> []) (placeRec fits levels it).
Proof.
  induction 1 as [|lvl rest Hlvl Hrest IH]; simpl.
  - constructor; [discriminate | constructor].
  - destruct (fits lvl it); constructor; auto.
    destruct lvl; discriminate.
Qed.

Lemma fold_place_firstFit items : forall levels,
  Forall (fun lvl => lvl <> []) levels ->
  firstFit blame [] levels ->
  Forall (fun lvl => lvl <> []) (fold_left (place fits) items levels)
  /\ firstFit blame [] (fold_left (place fits) items levels).
Proof.
  induction items as [|it rest IH]; intros levels Hne Hff; simpl; [auto|].
  rewrite place_rec. apply IH.
  - apply placeRec_nonempty, Hne.
  - apply placeRec_firstFit; [exact Hne | exact Hff | constructor].
Qed.

Lemma assignLevels_firstFit items :
  Forall (fun lvl => lvl <> []) (assignLevels fits items)
  /\ firstFit blame [] (assignLevels fits items).
Proof.
  unfold assignLevels. apply fold_place_firstFit; [constructor | exact I].
Qed.

(** What [firstFit] says of the item at a given level. *)
Lemma firstFit_blocked levels : forall lower k lvl it,
  firstFit blame lower levels ->
  nth_error levels k = Some lvl -> In it lvl ->
  blocked blame (lower ++ firstn k levels) it.
Proof.
  induction levels as [|l0 rest IH]; intros lower k lvl it Hff Hk Hit.
  - destruct k; discriminate.
  - destruct Hff as [Hl0 Hr]. destruct k as [|k]; simpl in Hk.
    + injection Hk as <-. simpl. rewrite app_nil_r.
      rewrite Forall_forall in Hl0. apply Hl0, Hit.
    + simpl. specialize (IH (lower ++ [l0]) k lvl it Hr Hk Hit).
      rewrite <- app_assoc in IH. exact IH.
Qed.

Lemma nth_error_In_firstn {A} (l : list A) : forall j k x,
  (j < k)%nat -> nth_error l j = Some x -> In x (firstn k l).
Proof.
  induction l as [|a l IH]; intros j k x Hjk Hj.
  - destruct j; discriminate.
  - destruct k as [|k]; [lia|]. destruct j as [|j]; simpl in *.
    + injection Hj as <-. auto.
    + right. eapply IH; [|exact Hj]. lia.
Qed.

Lemma firstFit_nth levels k lvl it j lvl' :
  firstFit blame [] levels ->
  nth_error levels k = Some lvl -> In it lvl ->
  (j < k)%nat -> nth_error levels j = Some lvl' ->
  exists q, In q lvl' /\ blame q it.
Proof.
  intros Hff Hk Hit Hjk Hj.
  pose proof (@firstFit_blocked levels [] k lvl it Hff Hk Hit) as Hb.
  simpl in Hb. unfold blocked in Hb. rewrite Forall_forall in Hb.
  apply Hb. eapply nth_error_In_firstn; eauto.
Qed.

End FirstFit.

Lemma fitsInLevel_crowds spacing lvl it :
  fitsInLevel spacing lvl it = false -> exists q, In q lvl /\ crowdsItem spacing q it.
Proof.
  unfold fitsInLevel. induction lvl as [|a lvl IH]; simpl; [discriminate|].
  destruct (ltb (it_x2 it) (it_x a - spacing) || ltb (it_x2 a + spacing) (it_x it)) eqn:E;
    simpl.
  - intros H. destruct (IH H) as (q & Hq & Hc). exists q. auto.
  - intros _. exists a. split; [auto|].
    apply orb_false_elim in E. destruct E as [E1 E2].
    apply ltb_ge in E1. apply ltb_ge in E2. split; assumption.
Qed.

Lemma conflictsWithDateLabel_hits dl it :
  conflictsWithDateLabel dl it = true -> hitsLabel dl (it_x it) (it_x2 it).
Proof.
  unfold conflictsWithDateLabel. intros H. apply existsb_exists in H.
  destruct H as (dateLabel & Hin & H). exists dateLabel. split; [exact Hin|].
  apply negb_true_iff, orb_false_elim in H. destruct H as [H1 H2].
  apply ltb_ge in H1. apply ltb_ge in H2. split; assumption.
Qed.

Lemma dateLabelAt_zone x : sp_x (dateLabelAt x) <= sp_x2 (dateLabelAt x).
Proof.
  unfold dateLabelAt. cbn [sp_x sp_x2].
  assert (H : LABEL_WIDTH / 2 == 30) by reflexivity. rewrite H. lra.
Qed.

(** For an item stored left to right, passing the date label test is being
    clear of every label. *)
Lemma conflictsWithDateLabel_clear ticks it :
  leftToRight it ->
  conflictsWithDateLabel (List.map dateLabelAt ticks) it = false ->
  clearOfLabels (List.map dateLabelAt ticks) (it_x it) (it_x2 it).
Proof.
  unfold conflictsWithDateLabel, clearOfLabels, leftToRight.
  intros Hltr H dateLabel Hin.
  assert (Hzone : sp_x dateLabel <= sp_x2 dateLabel).
  { apply in_map_iff in Hin. destruct Hin as (x & <- & _). apply dateLabelAt_zone. }
  rewrite (Q.max_r _ _ Hltr), (Q.min_l _ _ Hltr),
          (Q.max_r _ _ Hzone), (Q.min_l _ _ Hzone).
  destruct (ltb (it_x2 it + 30) (sp_x dateLabel)) eqn:E1.
  - left. apply ltb_lt, E1.
  - destruct (ltb (sp_x2 dateLabel) (it_x it - 30)) eqn:E2.
    + right. apply ltb_lt, E2.
    + exfalso. assert (Ht : existsb (fun dateLabel0 =>
          negb (ltb (it_x2 it + 30) (sp_x dateLabel0)
                || ltb (sp_x2 dateLabel0) (it_x it - 30)))
          (List.map dateLabelAt ticks) = true).
      { apply existsb_exists. exists dateLabel. split; [exact Hin|].
        rewrite E1, E2. reflexivity. }
      congruence.
Qed.

Lemma fitsAfterLast_holdsBack spacing dl lvl it :
  lvl <> [] -> fitsAfterLast spacing dl lvl it = false ->
  exists q, In q lvl /\ holdsBack spacing dl q it.
Proof.
  unfold fitsAfterLast. intros Hne.
  destruct (rev lvl) as [|lastInLevel r] eqn:E.
  { exfalso. apply Hne. rewrite <- (rev_involutive lvl), E. reflexivity. }
  intros H. exists lastInLevel. split.
  - apply in_rev. rewrite E. simpl. auto.
  - apply andb_false_elim in H. destruct H as [H | H].
    + left. apply ltb_ge, H.
    + right. apply conflictsWithDateLabel_hits. apply negb_false_iff, H.
Qed.

Lemma positionsFrom_nth {A} (mk : nat -> Item -> A) levels : forall i p,
  In p (positionsFrom mk i levels) ->
  exists k lvl it, nth_error levels k = Some lvl /\ In it lvl /\ p = mk (i + k)%nat it.
Proof.
  induction levels as [|lvl rest IH]; intros i p Hp; simpl in Hp; [contradiction|].
  apply in_app_or in Hp. destruct Hp as [Hp | Hp].
  - apply in_map_iff in Hp. destruct Hp as (it & <- & Hit).
    exists O, lvl, it. rewrite Nat.add_0_r. simpl. auto.
  - apply IH in Hp. destruct Hp as (k & lvl' & it & Hk & Hit & ->).
    exists (S k), lvl', it. rewrite Nat.add_succ_r. simpl. auto.
Qed.

Lemma positionsFrom_nth_In {A} (mk : nat -> Item -> A) levels : forall i k lvl it,
  nth_error levels k = Some lvl -> In it lvl ->
  In (mk (i + k)%nat it) (positionsFrom mk i levels).
Proof.
  induction levels as [|l0 rest IH]; intros i k lvl it Hk Hit.
  - destruct k; discriminate.
  - simpl. apply in_or_app. destruct k as [|k]; simpl in Hk.
    + injection Hk as <-. left. rewrite Nat.add_0_r. apply in_map, Hit.
    + right. rewrite Nat.add_succ_r. apply (IH (S i) k lvl it Hk Hit).
Qed.

(** In the positions of levels assigned first-fit, below every placement
    there is, level by level, a placement that kept it out. *)
Lemma positionsFrom_firstFit {A} (mk : nat -> Item -> A) fits blame items p :
  (forall lvl it, lvl <> [] -> fits lvl it = false ->
                  exists q, In q lvl /\ blame q it) ->
  In p (positionsFrom mk 0 (assignLevels fits items)) ->
  exists k it, p = mk k it
    /\ forall j, (j < k)%nat ->
         exists q, In (mk j q) (positionsFrom mk 0 (assignLevels fits items))
                   /\ blame q it.
Proof.
  intros Hblame Hp.
  destruct (assignLevels_firstFit fits blame Hblame items) as [Hne Hff].
  apply positionsFrom_nth in Hp. destruct Hp as (k & lvl & it & Hk & Hit & ->).
  exists k, it. split; [reflexivity|]. intros j Hj.
  assert (Hjlen : (j < List.length (assignLevels fits items))%nat).
  { apply nth_error_Some_lt in Hk || (assert (Hk' : nth_error (assignLevels fits items) k <> None) by congruence;
      apply nth_error_Some in Hk'); lia. }
  destruct (nth_error (assignLevels fits items) j) as [lvl'|] eqn:Ej.
  - destruct (@firstFit_nth blame (assignLevels fits items) k lvl it j lvl'
                Hff Hk Hit Hj Ej) as (q & Hq & Hb).
    exists q. split; [|exact Hb].
    apply (@positionsFrom_nth_In A mk (assignLevels fits items) 0%nat j lvl' q Ej Hq).
  - apply nth_error_None in Ej. lia.
Qed.

Lemma assignLevels_In fits items lvl it :
  In lvl (assignLevels fits items) -> In it lvl -> In it items.
Proof.
  intros Hl Hit. apply (Permutation_in it (assignLevels_perm fits items)).
  apply in_concat. exists lvl. auto.
Qed.

Section Host.

Variable Date_parse : jstring -> option Z.

Lemma itemsOf_events startDate axisStartX scale evs :
  List.map it_event (itemsOf Date_parse startDate axisStartX scale evs)
  = filter (hasValidStart Date_parse) evs.
Proof.
  induction evs as [|e rest IH]; simpl; [reflexivity|].
  unfold itemOf, hasValidStart.
  destruct (newDate Date_parse (orField (ev_startDate e) (ev_computedDate e)));
    simpl; [f_equal|]; exact IH.
Qed.

(** X9: the layout places every event that has a valid start date exactly
    once and no other event: the events of the placement list are a
    rearrangement of the dated events it was given, in the unified view
    (filtered by entity or not) and in every row of the grouped views. *)
Theorem every_dated_event_placed_once
    (st : State) (evs : list Event) (startDate endDate : Z)
    (axisStartX scale axisY : Q) (dateLabelPositions : list Span)
    (splitBy : ViewMode) (key : jstring) :
  Permutation
    (List.map p_event
       (calculateEventPositions Date_parse st evs startDate endDate
                                axisStartX scale axisY dateLabelPositions))
    (filter (hasValidStart Date_parse) evs)
  /\ Permutation
       (List.map r_event
          (splitRowPositions Date_parse splitBy key evs startDate axisStartX scale))
       (filter (hasValidStart Date_parse) evs).
Proof.
  assert (Hsorted : Permutation
            (List.map it_event
               (sortByDate (itemsOf Date_parse startDate axisStartX scale evs)))
            (filter (hasValidStart Date_parse) evs)).
  { rewrite sortByDate_perm. rewrite itemsOf_events. reflexivity. }
  assert (Hsides : forall (f : Item -> bool) fits fits',
            Permutation
              (List.map it_event
                 (List.concat (assignLevels fits
                    (filter f (sortByDate
                       (itemsOf Date_parse startDate axisStartX scale evs))))
                  ++ List.concat (assignLevels fits'
                    (filter (fun it => negb (f it)) (sortByDate
                       (itemsOf Date_parse startDate axisStartX scale evs))))))
              (filter (hasValidStart Date_parse) evs)).
  { intros f fits fits'. rewrite !assignLevels_perm, filter_split_perm.
    exact Hsorted. }
  split.
  - unfold calculateEventPositions.
    destruct (f_entity (filters st)) as [|c filteringByEntity].
    + rewrite positionsFrom_events by reflexivity.
      rewrite assignLevels_perm. exact Hsorted.
    + rewrite map_app, !positionsFrom_events by reflexivity.
      rewrite <- map_app. apply Hsides.
  - unfold splitRowPositions.
    rewrite map_app, !positionsFrom_events by reflexivity.
    rewrite <- map_app. apply Hsides.
Qed.

(** X10: the unified view assigns levels first-fit: for every placement on
    a level above 0 and every lower level, a placement on that lower level
    kept it out.  Without an entity filter the two extents, spaced out by 200
    pixels, overlap; under an entity filter, where the lower level is on the
    same side of the baseline, the placement starts no more than 200 pixels
    after the end of the other one or overlaps the zone of a date label. *)
Theorem unified_levels_first_fit
    (st : State) (evs : list Event) (startDate endDate : Z)
    (axisStartX scale axisY : Q) (dateLabelPositions : list Span) p j :
  In p (calculateEventPositions Date_parse st evs startDate endDate
                                axisStartX scale axisY dateLabelPositions) ->
  (j < p_level p)%nat ->
  exists q,
    In q (calculateEventPositions Date_parse st evs startDate endDate
                                  axisStartX scale axisY dateLabelPositions)
    /\ p_level q = j
    /\ match f_entity (filters st) with
       | [] => crowds 200 (p_x q) (p_x2 q) (p_x p) (p_x2 p)
       | _ :: _ =>
           isAbove axisY q = isAbove axisY p
           /\ (p_x p <= p_x2 q + 200
               \/ hitsLabel dateLabelPositions (p_x p) (p_x2 p))
       end.
Proof.
  unfold calculateEventPositions.
  destruct (f_entity (filters st)) as [|c filteringByEntity]; intros Hp Hj.
  - destruct (@positionsFrom_firstFit Position (alternatingPosition axisY)
                (fitsInLevel 200) (crowdsItem 200) _ p
                (fun lvl it _ => @fitsInLevel_crowds 200 lvl it) Hp)
      as (k & it & -> & Hlow).
    cbn [p_level alternatingPosition] in Hj.
    destruct (Hlow j Hj) as (q & Hq & Hb).
    exists (alternatingPosition axisY j q). split; [exact Hq|].
    split; [reflexivity | exact Hb].
  - assert (Habove : forall k it, isAbove axisY (abovePosition axisY k it) = true).
    { intros k it. unfold isAbove, abovePosition, LABEL_HEIGHT. cbn [p_y].
      pose proof (levelQ_nonneg k). apply ltb_lt. lra. }
    assert (Hbelow : forall k it, isAbove axisY (belowPosition axisY k it) = false).
    { intros k it. unfold isAbove, belowPosition, LABEL_HEIGHT. cbn [p_y].
      pose proof (levelQ_nonneg k). apply ltb_ge. lra. }
    apply in_app_or in Hp. destruct Hp as [Hp | Hp].
    + destruct (@positionsFrom_firstFit Position (abovePosition axisY)
                  (fitsAfterLast 200 dateLabelPositions)
                  (holdsBack 200 dateLabelPositions) _ p
                  (@fitsAfterLast_holdsBack 200 dateLabelPositions) Hp)
        as (k & it & -> & Hlow).
      cbn [p_level abovePosition] in Hj.
      destruct (Hlow j Hj) as (q & Hq & Hb).
      exists (abovePosition axisY j q).
      split; [apply in_or_app; left; exact Hq|].
      split; [reflexivity|]. split; [rewrite !Habove; reflexivity | exact Hb].
    + destruct (@positionsFrom_firstFit Position (belowPosition axisY)
                  (fitsAfterLast 200 dateLabelPositions)
                  (holdsBack 200 dateLabelPositions) _ p
                  (@fitsAfterLast_holdsBack 200 dateLabelPositions) Hp)
        as (k & it & -> & Hlow).
      cbn [p_level belowPosition] in Hj.
      destruct (Hlow j Hj) as (q & Hq & Hb).
      exists (belowPosition axisY j q).
      split; [apply in_or_app; right; exact Hq|].
      split; [reflexivity|]. split; [rewrite !Hbelow; reflexivity | exact Hb].
Qed.

(** X11: under an entity filter, every event placed left to right
    ([x <= x2]) that joins a level after another one is clear of the
    reserved zone of every date label: the pixels it takes up, widened by 30
    on both sides, do not meet the 60 pixels centred on any tick.  So an
    event placed left to right that meets a label zone opens a level of its
    own. *)
Theorem filtered_levels_avoid_date_labels
    (st : State) (evs : list Event) (startDate endDate : Z)
    (axisStartX scale axisY : Q) (ticks : list Q) :
  f_entity (filters st) <> [] ->
  ForallOrdPairs
    (fun p q => p_level p = p_level q -> isAbove axisY p = isAbove axisY q ->
                p_x q <= p_x2 q ->
                clearOfLabels (List.map dateLabelAt ticks) (p_x q) (p_x2 q))
    (calculateEventPositions Date_parse st evs startDate endDate
                             axisStartX scale axisY (List.map dateLabelAt ticks)).
Proof.
  intros Hf. unfold calculateEventPositions.
  destruct (f_entity (filters st)) as [|c filteringByEntity]; [congruence|].
  set (dateLabelPositions := List.map dateLabelAt ticks).
  assert (Hlevels : forall items,
            Forall (ForallOrdPairs
                      (fun _ b => leftToRight b ->
                                  clearOfLabels dateLabelPositions (it_x b) (it_x2 b)))
                   (assignLevelsToEvents items 200 dateLabelPositions)).
  { intros items. unfold assignLevelsToEvents. apply assignLevels_inv.
    intros it _. split; [constructor; constructor|].
    intros lvl Hl Hfits. apply FOP_snoc; [exact Hl|].
    apply Forall_forall. intros a _ Hltr.
    apply conflictsWithDateLabel_clear; [exact Hltr|].
    unfold fitsAfterLast in Hfits. destruct (rev lvl); [discriminate|].
    apply andb_prop in Hfits. destruct Hfits as [_ H].
    apply negb_true_iff, H. }
  apply FOP_app.
  - eapply positionsFrom_FOP with
      (Rit := fun _ b => leftToRight b ->
                         clearOfLabels dateLabelPositions (it_x b) (it_x2 b)).
    + intros j a b Hab _ _. exact Hab.
    + intros j j' a b Hj Hl. simpl in Hl. congruence.
    + apply Hlevels.
  - eapply positionsFrom_FOP with
      (Rit := fun _ b => leftToRight b ->
                         clearOfLabels dateLabelPositions (it_x b) (it_x2 b)).
    + intros j a b Hab _ _. exact Hab.
    + intros j j' a b Hj Hl. simpl in Hl. congruence.
    + apply Hlevels.
  - intros p q Hp Hq _ Hside. exfalso.
    apply positionsFrom_In in Hp. destruct Hp as (j & _ & a & _ & _ & _ & ->).
    apply positionsFrom_In in Hq. destruct Hq as (j' & _ & b & _ & _ & _ & ->).
    unfold isAbove, abovePosition, belowPosition, LABEL_HEIGHT in Hside.
    cbn [p_y] in Hside.
    pose proof (levelQ_nonneg j). pose proof (levelQ_nonneg j').
    assert (Ha : ltb (axisY - (levelQ j + 1) * 30) axisY = true)
      by (apply ltb_lt; lra).
    assert (Hb : ltb (axisY + (levelQ j' + 1) * 30) axisY = false)
      by (apply ltb_ge; lra).
    congruence.
Qed.

(** X12: the rows of the split views assign label levels first-fit, with a
    spacing of 80 pixels: every placement carries the label offset of some
    level of its side, and on each lower level of that side there is a
    placement whose spaced-out extent overlaps its own. *)
Theorem split_row_levels_first_fit
    (splitBy : ViewMode) (key : jstring) (rowEvents : list Event)
    (startDate : Z) (axisStartX scale : Q) p :
  In p (splitRowPositions Date_parse splitBy key rowEvents
                          startDate axisStartX scale) ->
  exists primary k,
    r_labelYOffset p = labelOffset primary k
    /\ forall j, (j < k)%nat ->
         exists q,
           In q (splitRowPositions Date_parse splitBy key rowEvents
                                   startDate axisStartX scale)
           /\ r_labelYOffset q = labelOffset primary j
           /\ crowds 80 (r_x q) (r_x2 q) (r_x p) (r_x2 p).
Proof.
  unfold splitRowPositions. intros Hp.
  apply in_app_or in Hp. destruct Hp as [Hp | Hp].
  - destruct (@positionsFrom_firstFit Positioned primaryLabel
                (fitsInLevel 80) (crowdsItem 80) _ p
                (fun lvl it _ => @fitsInLevel_crowds 80 lvl it) Hp)
      as (k & it & -> & Hlow).
    exists true, k. split; [reflexivity|]. intros j Hj.
    destruct (Hlow j Hj) as (q & Hq & Hb).
    exists (primaryLabel j q).
    split; [apply in_or_app; left; exact Hq|].
    split; [reflexivity | exact Hb].
  - destruct (@positionsFrom_firstFit Positioned secondaryLabel
                (fitsInLevel 80) (crowdsItem 80) _ p
                (fun lvl it _ => @fitsInLevel_crowds 80 lvl it) Hp)
      as (k & it & -> & Hlow).
    exists false, k. split; [reflexivity|]. intros j Hj.
    destruct (Hlow j Hj) as (q & Hq & Hb).
    exists (secondaryLabel j q).
    split; [apply in_or_app; right; exact Hq|].
    split; [reflexivity | exact Hb].
Qed.

(** X13: under an entity filter the side of the baseline tells the role of
    the entity: a placement is above the baseline exactly when the entity is
    one of the primary entities of its event, and it is one label height per
    level away from the baseline, starting one label height away. *)
Theorem filtered_side_is_primary
    (st : State) (evs : list Event) (startDate endDate : Z)
    (axisStartX scale axisY : Q) (dateLabelPositions : list Span) p :
  f_entity (filters st) <> [] ->
  In p (calculateEventPositions Date_parse st evs startDate endDate
                                axisStartX scale axisY dateLabelPositions) ->
  isAbove axisY p
    = includes (primaryEntities (p_event p)) (Str (f_entity (filters st)))
  /\ p_y p == axisY + (if isAbove axisY p then -1 else 1)
                      * (levelQ (p_level p) + 1) * LABEL_HEIGHT.
Proof.
  intros Hf. unfold calculateEventPositions.
  destruct (f_entity (filters st)) as [|c filteringByEntity]; [congruence|].
  intros Hp. apply in_app_or in Hp. destruct Hp as [Hp | Hp];
    apply positionsFrom_In in Hp; destruct Hp as (j & lvl & it & _ & Hl & Hit & ->);
    unfold assignLevelsToEvents in Hl;
    pose proof (assignLevels_In _ _ _ _ Hl Hit) as Hin;
    apply filter_In in Hin; destruct Hin as [_ Hprim];
    pose proof (levelQ_nonneg j) as Hj.
  - assert (Ha : isAbove axisY (abovePosition axisY j it) = true).
    { unfold isAbove, abovePosition, LABEL_HEIGHT. cbn [p_y]. apply ltb_lt. lra. }
    rewrite Ha. split.
    + cbn [abovePosition p_event]. symmetry. exact Hprim.
    + unfold abovePosition, LABEL_HEIGHT. cbn [p_y p_level]. lra.
  - assert (Ha : isAbove axisY (belowPosition axisY j it) = false).
    { unfold isAbove, belowPosition, LABEL_HEIGHT. cbn [p_y]. apply ltb_ge. lra. }
    rewrite Ha. split.
    + cbn [belowPosition p_event]. symmetry. apply negb_true_iff, Hprim.
    + unfold belowPosition, LABEL_HEIGHT. cbn [p_y p_level]. lra.
Qed.

(** X14: in a row of the entity view a label is above the line exactly when
    the entity of the row is one of the primary entities of the event; in a
    row of the goal view every label is above the line. *)
Theorem split_row_side_is_primary
    (splitBy : ViewMode) (key : jstring) (rowEvents : list Event)
    (startDate : Z) (axisStartX scale : Q) p :
  In p (splitRowPositions Date_parse splitBy key rowEvents
                          startDate axisStartX scale) ->
  ltb (r_labelYOffset p) 0
  = match splitBy with
    | entity => includes (primaryEntities (r_event p)) (Str key)
    | _ => true
    end.
Proof.
  unfold splitRowPositions. intros Hp.
  apply in_app_or in Hp. destruct Hp as [Hp | Hp];
    apply positionsFrom_In in Hp; destruct Hp as (j & lvl & it & _ & Hl & Hit & ->);
    pose proof (assignLevels_In _ _ _ _ Hl Hit) as Hin;
    apply filter_In in Hin; destruct Hin as [_ Hprim];
    pose proof (levelQ_nonneg j) as Hj.
  - assert (Ha : ltb (r_labelYOffset (primaryLabel j it)) 0 = true).
    { unfold primaryLabel, LABEL_HEIGHT. cbn [r_labelYOffset]. apply ltb_lt. lra. }
    rewrite Ha. cbn [primaryLabel r_event]. symmetry. exact Hprim.
  - assert (Ha : ltb (r_labelYOffset (secondaryLabel j it)) 0 = false).
    { unfold secondaryLabel, LABEL_HEIGHT. cbn [r_labelYOffset]. apply ltb_ge. lra. }
    rewrite Ha. cbn [secondaryLabel r_event]. symmetry.
    apply negb_true_iff in Hprim. exact Hprim.
Qed.

End Host.

End LayoutFacts.

Module LayoutExamples.

Import Renderer Layout LayoutFacts Examples.

Open Scope Q_scope.

Lemma unified_levels_first_fit_witness :
  In (nth 1 sameDayPositions nowhere) sameDayPositions
  /\ (0 < p_level (nth 1 sameDayPositions nowhere))%nat
  /\ exists q,
       In q sameDayPositions
       /\ p_level q = 0%nat
       /\ crowds 200 (p_x q) (p_x2 q)
                 (p_x (nth 1 sameDayPositions nowhere))
                 (p_x2 (nth 1 sameDayPositions nowhere)).
Proof.
  assert (Hin : In (nth 1 sameDayPositions nowhere) sameDayPositions)
    by (vm_compute; auto).
  assert (Hj : (0 < p_level (nth 1 sameDayPositions nowhere))%nat)
    by (vm_compute; lia).
  split; [exact Hin|]. split; [exact Hj|].
  exact (@unified_levels_first_fit RefHost.Date_parse
           (stateWith single 1 0 0 sameDay) sameDay newYearStart
           (newYearStart + 86400000) 100 perDay300 300 []
           (nth 1 sameDayPositions nowhere) 0%nat Hin Hj).
Defined.

Lemma filtered_levels_avoid_date_labels_witness :
  f_entity (filters aliceSpring) <> []
  /\ aliceSpringPositions = [aliceSpringPoint; aliceSpringRange]
  /\ p_level aliceSpringPoint = p_level aliceSpringRange
  /\ isAbove 300 aliceSpringPoint = isAbove 300 aliceSpringRange
  /\ p_x aliceSpringRange <= p_x2 aliceSpringRange
  /\ clearOfLabels (List.map dateLabelAt januaryTick)
                   (p_x aliceSpringRange) (p_x2 aliceSpringRange).
Proof.
  assert (Hf : f_entity (filters aliceSpring) <> []) by (vm_compute; discriminate).
  assert (Hlevel : p_level aliceSpringPoint = p_level aliceSpringRange) by reflexivity.
  assert (Hside : isAbove 300 aliceSpringPoint = isAbove 300 aliceSpringRange)
    by reflexivity.
  assert (Hrange : p_x aliceSpringRange <= p_x2 aliceSpringRange)
    by (vm_compute; discriminate).
  split; [exact Hf|]. split; [vm_compute; reflexivity|].
  split; [exact Hlevel|]. split; [exact Hside|]. split; [exact Hrange|].
  exact (@RendererFacts.FOP_nth _ _ _ 0%nat 1%nat aliceSpringPoint aliceSpringRange
           (@filtered_levels_avoid_date_labels RefHost.Date_parse aliceSpring
              newYearAndSpring newYearStart (newYearStart + 86400000) 100 perDay3 300
              januaryTick Hf)
           Nat.lt_0_1 eq_refl eq_refl Hlevel Hside Hrange).
Defined.

Lemma split_row_levels_first_fit_witness :
  In (nth 1 aliceRow noRow) aliceRow
  /\ exists primary k,
       r_labelYOffset (nth 1 aliceRow noRow) = labelOffset primary k
       /\ forall j, (j < k)%nat ->
            exists q,
              In q aliceRow
              /\ r_labelYOffset q = labelOffset primary j
              /\ crowds 80 (r_x q) (r_x2 q)
                        (r_x (nth 1 aliceRow noRow)) (r_x2 (nth 1 aliceRow noRow)).
Proof.
  assert (Hin : In (nth 1 aliceRow noRow) aliceRow) by (vm_compute; auto).
  split; [exact Hin|].
  exact (@split_row_levels_first_fit RefHost.Date_parse entity (u "Alice") sameDay
           newYearStart 100 perDay300 (nth 1 aliceRow noRow) Hin).
Defined.

Lemma filtered_side_is_primary_witness :
  f_entity (filters aliceOnly) <> []
  /\ In (nth 1 alicePositions nowhere) alicePositions
  /\ isAbove 300 (nth 1 alicePositions nowhere)
     = includes (primaryEntities (p_event (nth 1 alicePositions nowhere)))
                (Str (f_entity (filters aliceOnly)))
  /\ p_y (nth 1 alicePositions nowhere)
     == 300 + (if isAbove 300 (nth 1 alicePositions nowhere) then -1 else 1)
              * (levelQ (p_level (nth 1 alicePositions nowhere)) + 1) * LABEL_HEIGHT.
Proof.
  assert (Hf : f_entity (filters aliceOnly) <> []) by (vm_compute; discriminate).
  assert (Hin : In (nth 1 alicePositions nowhere) alicePositions)
    by (vm_compute; auto).
  split; [exact Hf|]. split; [exact Hin|].
  exact (@filtered_side_is_primary RefHost.Date_parse aliceOnly sameDay
           newYearStart (newYearStart + 86400000) 100 perDay300 300 januaryLabel
           (nth 1 alicePositions nowhere) Hf Hin).
Defined.

Lemma split_row_side_is_primary_witness :
  In (nth 1 aliceRow noRow) aliceRow
  /\ ltb (r_labelYOffset (nth 1 aliceRow noRow)) 0
     = includes (primaryEntities (r_event (nth 1 aliceRow noRow))) (Str (u "Alice")).
Proof.
  assert (Hin : In (nth 1 aliceRow noRow) aliceRow) by (vm_compute; auto).
  split; [exact Hin|].
  exact (@split_row_side_is_primary RefHost.Date_parse entity (u "Alice") sameDay
           newYearStart 100 perDay300 (nth 1 aliceRow noRow) Hin).
Defined.

End LayoutExamples.

Module DigitsFacts.

Import DateParser DateParserFacts Digits.

(** *** Matching is blind to which digit is which *)

Section Renaming.

Variable h : N -> N.
Hypothesis renames : renamesDigits h.

Lemma h_digit c : isDigit c = true -> isDigit (h c) = true.
Proof. intros H. pose proof (renames c) as R. rewrite H in R. exact R. Qed.

Lemma h_other c : isDigit c = false -> h c = c.
Proof. intros H. pose proof (renames c) as R. rewrite H in R. exact R. Qed.

Lemma isDigit_rename c : isDigit (h c) = isDigit c.
Proof.
  destruct (isDigit c) eqn:E; [apply h_digit, E | rewrite (h_other c E); exact E].
Qed.

Lemma isDigit_not_space c : isDigit c = true -> isSpace c = false.
Proof.
  unfold isDigit. intros H. apply andb_prop in H. destruct H as [H1 H2].
  apply N.leb_le in H1. apply N.leb_le in H2.
  unfold isSpace. apply orb_false_intro.
  - cbn [existsb]. repeat (apply orb_false_intro; [apply N.eqb_neq; lia|]). reflexivity.
  - apply andb_false_intro1. apply N.leb_gt. lia.
Qed.

Lemma isSpace_rename c : isSpace (h c) = isSpace c.
Proof.
  destruct (isDigit c) eqn:E; [|rewrite (h_other c E); reflexivity].
  rewrite (isDigit_not_space _ (h_digit c E)), (isDigit_not_space _ E). reflexivity.
Qed.

Lemma eqb_rename p c : isDigit p = false -> N.eqb (h c) p = N.eqb c p.
Proof.
  intros Hp. destruct (isDigit c) eqn:E; [|rewrite (h_other c E); reflexivity].
  pose proof (h_digit c E) as E'.
  assert (H1 : h c <> p) by (intros Heq; congruence).
  assert (H2 : c <> p) by (intros Heq; congruence).
  apply N.eqb_neq in H1. apply N.eqb_neq in H2. congruence.
Qed.

Lemma canonicalize_digit c : isDigit c = true -> canonicalize c = c.
Proof.
  unfold isDigit, canonicalize. intros H. apply andb_prop in H. destruct H as [H1 H2].
  apply N.leb_le in H1. apply N.leb_le in H2.
  replace (97 <=? c)%N with false by (symmetry; apply N.leb_gt; lia). reflexivity.
Qed.

Lemma canonicalize_other c : isDigit c = false -> isDigit (canonicalize c) = false.
Proof.
  unfold canonicalize. intros H.
  destruct ((97 <=? c)%N && (c <=? 122)%N) eqn:E; [|exact H].
  apply andb_prop in E. destruct E as [E1 E2].
  apply N.leb_le in E1. apply N.leb_le in E2.
  unfold isDigit. apply andb_false_intro2. apply N.leb_gt. lia.
Qed.

Lemma litEq_rename ci p c : isDigit p = false -> litEq ci p (h c) = litEq ci p c.
Proof.
  intros Hp. unfold litEq. destruct ci.
  - destruct (isDigit c) eqn:E; [|rewrite (h_other c E); reflexivity].
    rewrite (canonicalize_digit _ (h_digit c E)), (canonicalize_digit _ E).
    pose proof (canonicalize_other p Hp) as Hc.
    rewrite !(N.eqb_sym (canonicalize p)).
    apply eqb_rename, Hc.
  - rewrite !(N.eqb_sym p). apply eqb_rename, Hp.
Qed.

Lemma inClass_rename k c : classDigitFree k = true -> inClass k (h c) = inClass k c.
Proof.
  destruct k as [| |l]; simpl; intros Hk.
  - apply isDigit_rename.
  - apply isSpace_rename.
  - induction l as [|p l IH]; simpl in *; [reflexivity|].
    apply andb_prop in Hk. destruct Hk as [Hp Hl].
    apply negb_true_iff in Hp. rewrite (@eqb_rename p c Hp), (IH Hl). reflexivity.
Qed.

(** Related captures, outcomes and continuations. *)
Definition capsRel (c c' : caps) : Prop :=
  forall i, c' i = option_map (List.map h) (c i).

Definition optRel (o o' : option caps) : Prop :=
  match o, o' with
  | Some c, Some c' => capsRel c c'
  | None, None => True
  | _, _ => False
  end.

Definition kontRel (cont cont' : kont) : Prop :=
  forall pos s c c', capsRel c c' -> optRel (cont pos s c) (cont' pos (List.map h s) c').

Lemma optRel_orElse o o' p p' :
  optRel o o' -> optRel p p' ->
  optRel (match o with Some r => Some r | None => p end)
         (match o' with Some r => Some r | None => p' end).
Proof. destruct o, o'; simpl; tauto. Qed.

Lemma capsRel_set i v c c' :
  capsRel c c' -> capsRel (setCap i v c) (setCap i (List.map h v) c').
Proof.
  intros H j. unfold setCap. destruct (Nat.eqb j i); [reflexivity | apply H].
Qed.

Lemma rep_rename k : classDigitFree k = true ->
  forall s lo hi pos c c' cont cont',
    kontRel cont cont' -> capsRel c c' ->
    optRel (rep k lo hi pos s c cont) (rep k lo hi pos (List.map h s) c' cont').
Proof.
  intros Hk. induction s as [|x s IH]; intros lo hi pos c c' cont cont' Hc Hcaps.
  - simpl. destruct lo; [apply (Hc pos [] c c' Hcaps) | exact I].
  - cbn [rep List.map]. rewrite (@inClass_rename k x Hk).
    assert (Hstop : optRel (match lo with O => cont pos (x :: s) c | S _ => None end)
                           (match lo with
                            | O => cont' pos (h x :: List.map h s) c'
                            | S _ => None
                            end)).
    { destruct lo; [apply (Hc pos (x :: s) c c' Hcaps) | exact I]. }
    destruct (match hi with Some O => false | _ => true end && inClass k x);
      [|exact Hstop].
    apply optRel_orElse; [|exact Hstop].
    apply IH; assumption.
Qed.

Lemma exec_rename ci : forall r, digitFree r = true ->
  forall pos s c c' cont cont',
    kontRel cont cont' -> capsRel c c' ->
    optRel (exec ci r pos s c cont) (exec ci r pos (List.map h s) c' cont').
Proof.
  induction r as [|p|k|a IHa b IHb|a IHa b IHb|a IHa|k lo hi|i a IHa| |];
    intros Hr pos s c c' cont cont' Hc Hcaps; cbn [exec digitFree] in *.
  - apply Hc, Hcaps.
  - destruct s as [|x s]; [exact I|]. cbn [List.map].
    apply negb_true_iff in Hr. rewrite (@litEq_rename ci p x Hr).
    destruct (litEq ci p x); [apply Hc, Hcaps | exact I].
  - destruct s as [|x s]; [exact I|]. cbn [List.map].
    rewrite (@inClass_rename k x Hr).
    destruct (inClass k x); [apply Hc, Hcaps | exact I].
  - apply andb_prop in Hr. destruct Hr as [Ha Hb].
    apply IHa; [exact Ha | | exact Hcaps].
    intros pos' s' d d' Hd. apply IHb; assumption.
  - apply andb_prop in Hr. destruct Hr as [Ha Hb].
    apply optRel_orElse; [apply IHa | apply IHb]; assumption.
  - apply optRel_orElse; [apply IHa; assumption | apply Hc, Hcaps].
  - apply rep_rename; assumption.
  - apply IHa; [exact Hr | | exact Hcaps].
    intros pos' s' d d' Hd. rewrite firstn_map.
    apply Hc, capsRel_set, Hd.
  - destruct (Nat.eqb pos 0); [apply Hc, Hcaps | exact I].
  - destruct s; [apply (Hc pos [] c c' Hcaps) | exact I].
Qed.

Lemma searchFrom_rename ci r : digitFree r = true ->
  forall s pos, optRel (searchFrom ci r pos s) (searchFrom ci r pos (List.map h s)).
Proof.
  intros Hr. induction s as [|x s IH]; intros pos; cbn [searchFrom List.map].
  - apply optRel_orElse; [|exact I].
    apply (@exec_rename ci r Hr pos [] noCaps noCaps accept accept).
    + intros p s c c' H. exact H.
    + intros i. reflexivity.
  - apply optRel_orElse; [|apply IH].
    apply (@exec_rename ci r Hr pos (x :: s) noCaps noCaps accept accept).
    + intros p s' c c' H. exact H.
    + intros i. reflexivity.
Qed.

(** A pattern that fails on a text fails on the renamed text. *)
Lemma jsMatch_rename_none ci r t :
  digitFree r = true -> jsMatch ci r t = None -> jsMatch ci r (List.map h t) = None.
Proof.
  intros Hr E. pose proof (@searchFrom_rename ci r Hr t 0) as H.
  unfold jsMatch in *. rewrite E in H.
  destruct (searchFrom ci r 0 (List.map h t)); [contradiction | reflexivity].
Qed.

(** A pattern that matches a text matches the renamed text, with the
    renamed captures. *)
Lemma jsMatch_rename_some ci r t :
  digitFree r = true -> jsMatch ci r t <> None ->
  exists m', jsMatch ci r (List.map h t) = Some m'
             /\ forall i, m' i = option_map (List.map h) (capture ci r t i).
Proof.
  intros Hr E. pose proof (@searchFrom_rename ci r Hr t 0) as H.
  unfold capture, jsMatch in *.
  destruct (searchFrom ci r 0 t) as [m|]; [|congruence].
  destruct (searchFrom ci r 0 (List.map h t)) as [m'|]; [|contradiction].
  exists m'. split; [reflexivity | exact H].
Qed.

(** *** Normalization commutes with renaming *)

Lemma isAscii_rename t : isAscii t = true -> isAscii (List.map h t) = true.
Proof.
  unfold isAscii. induction t as [|c t IH]; simpl; [reflexivity|].
  intros H. apply andb_prop in H. destruct H as [Hc Ht].
  rewrite (IH Ht), andb_true_r.
  destruct (isDigit c) eqn:E; [|rewrite (h_other c E); exact Hc].
  pose proof (h_digit c E) as E'. unfold isDigit in E'.
  apply andb_prop in E'. destruct E' as [_ E2]. apply N.leb_le in E2.
  apply N.ltb_lt. lia.
Qed.

Lemma asciiLower_rename c : asciiLower (h c) = h (asciiLower c).
Proof.
  destruct (isDigit c) eqn:E.
  - pose proof (h_digit c E) as E'.
    assert (L : forall d, isDigit d = true -> asciiLower d = d).
    { intros d Hd. unfold isDigit in Hd. unfold asciiLower.
      apply andb_prop in Hd. destruct Hd as [H1 H2].
      apply N.leb_le in H1. apply N.leb_le in H2.
      replace (65 <=? d)%N with false by (symmetry; apply N.leb_gt; lia). reflexivity. }
    rewrite (L _ E'), (L _ E). reflexivity.
  - rewrite (h_other c E). symmetry. apply h_other.
    unfold asciiLower. destruct ((65 <=? c)%N && (c <=? 90)%N) eqn:U; [|exact E].
    apply andb_prop in U. destruct U as [U1 U2].
    apply N.leb_le in U1. apply N.leb_le in U2.
    unfold isDigit. apply andb_false_intro2. apply N.leb_gt. lia.
Qed.

Lemma trimStart_rename s : trimStart (List.map h s) = List.map h (trimStart s).
Proof.
  induction s as [|c s IH]; simpl; [reflexivity|].
  rewrite isSpace_rename. destruct (isSpace c); [exact IH | reflexivity].
Qed.

Lemma trim_rename s : trim (List.map h s) = List.map h (trim s).
Proof.
  unfold trim. rewrite trimStart_rename, <- map_rev, trimStart_rename, <- map_rev.
  reflexivity.
Qed.

Lemma map_rename_literal (n w : jstring) :
  forallb (fun c => negb (isDigit c)) w = true ->
  jeqb (List.map h n) w = jeqb n w.
Proof.
  intros Hw.
  assert (H : List.map h n = w <-> n = w).
  { revert w Hw. induction n as [|c n IH]; intros [|x w] Hw; simpl;
      try (split; intros; congruence).
    simpl in Hw. apply andb_prop in Hw. destruct Hw as [Hx Hw].
    apply negb_true_iff in Hx. specialize (IH w Hw).
    split; intros [= E1 E2].
    - apply IH in E2. subst w. f_equal.
      destruct (isDigit c) eqn:E; [|rewrite (h_other c E) in E1; exact E1].
      pose proof (h_digit c E). congruence.
    - subst x w. f_equal; [|apply IH; reflexivity].
      apply h_other, Hx. }
  unfold jeqb.
  destruct (list_eq_dec N.eq_dec (List.map h n) w) as [E|E];
    destruct (list_eq_dec N.eq_dec n w) as [E'|E']; try reflexivity.
  - apply H in E. contradiction.
  - apply H in E'. contradiction.
Qed.

Lemma isOngoingLiteral_rename n :
  isOngoingLiteral (List.map h n) = isOngoingLiteral n.
Proof.
  unfold isOngoingLiteral.
  rewrite !map_rename_literal by reflexivity. reflexivity.
Qed.

End Renaming.

(** *** Walking the chain of strategies on a renamed text *)

(** The next pattern applied to a renamed text fails, because it fails on
    the text. *)
Ltac skip Hh :=
  match goal with
  | |- context [jsMatch ?ci ?r (List.map ?h ?t)] =>
      rewrite (@jsMatch_rename_none h Hh ci r t eq_refl
                 ltac:(vm_compute; reflexivity))
  end.

(** The pattern [r] applied to a renamed text matches, because it matches
    the text; [m] is the match. *)
Ltac fire Hh r m Hm :=
  match goal with
  | |- context [jsMatch ?ci r (List.map ?h ?t)] =>
      let E := fresh "E" in
      destruct (@jsMatch_rename_some h Hh ci r t eq_refl
                  ltac:(vm_compute; discriminate)) as (m & E & Hm);
      rewrite E; clear E
  end.

(** The capture [i] of that match is the digits [ds]. *)
Ltac cap Hm i ds :=
  rewrite (Hm i);
  match goal with
  | |- context [option_map ?f (capture ?ci ?r ?t i)] =>
      change (option_map f (capture ci r t i)) with (Some ds)
  end.

Section Host.

Variable toLowerCase : jstring -> jstring.
Variable Date_parse : jstring -> option Z.
Variables getFullYear getMonth getDate : Z -> Z.
Variable now : Z.

Abbreviation parse := (parse toLowerCase Date_parse getFullYear getMonth getDate now).
Abbreviation parseRange := (parseRange toLowerCase).
Abbreviation parseNormalized :=
  (parseNormalized toLowerCase Date_parse getFullYear getMonth getDate now).
Abbreviation singleDate :=
  (singleDate Date_parse getFullYear getMonth getDate).

Lemma parse_rename h t :
  renamesDigits h -> lowersAscii toLowerCase -> isAscii t = true -> t <> [] ->
  parse (List.map h t)
  = parseNormalized (List.map h t) (List.map h (trim (List.map asciiLower t))).
Proof.
  intros Hh Hl Ha Hne.
  rewrite (@parse_ascii toLowerCase Date_parse getFullYear getMonth getDate now
             (List.map h t) Hl).
  - rewrite <- (trim_rename Hh). rewrite !map_map.
    rewrite (map_ext (fun x => asciiLower (h x)) (fun x => h (asciiLower x))
                     (asciiLower_rename Hh)).
    reflexivity.
  - destruct t; [congruence | discriminate].
  - apply isAscii_rename; assumption.
Qed.

Lemma orElse_some s rest : s <> [] -> orElse (Some s) rest = Normal (Some (point s)).
Proof. destruct s; [congruence | reflexivity]. Qed.

Lemma parseInt_digits ds :
  ds <> [] -> allDigits ds -> parseInt (Some ds) = Some (valueOf ds).
Proof.
  unfold allDigits, valueOf. destruct ds as [|d ds]; [congruence|].
  intros _ H. simpl in H. apply andb_prop in H. destruct H as [Hd _].
  unfold parseInt. rewrite Hd. reflexivity.
Qed.

Lemma rename_renames ds : allDigits ds -> renamesDigits (rename ds).
Proof.
  unfold allDigits. intros H c. unfold rename. destruct (isDigit c) eqn:E; [|reflexivity].
  destruct (nth_in_or_default (N.to_nat (c - 48)) ds c) as [Hin | ->]; [|exact E].
  rewrite forallb_forall in H. apply H, Hin.
Qed.

Lemma orElse_none rest : orElse None rest = rest.
Proof. reflexivity. Qed.

(** Rewrite [parseInt] of a capture with its value. *)
Ltac value Hv :=
  match type of Hv with
  | ?l = _ =>
      match goal with
      | |- context [parseInt ?x] => change (parseInt x) with l; rewrite Hv
      end
  end.

(** The text of the goal is the template [tpl] with the digits [ds] written
    for 0, 1, 2, ... *)
Ltac template Hl Hh ds tpl :=
  match goal with
  | |- context [DateParser.parse _ _ _ _ _ _ ?text] =>
      change text with (List.map (rename ds) tpl) at 1
  end;
  rewrite (@parse_rename (rename ds) tpl Hh Hl eq_refl ltac:(discriminate));
  let low := eval vm_compute in (trim (List.map asciiLower tpl)) in
  change (trim (List.map asciiLower tpl)) with low.

(** From [parse] of a renamed text that is no range to the chain of the
    single-date strategies. *)
Ltac to_single Hh :=
  unfold DateParser.parseNormalized;
  rewrite (isOngoingLiteral_rename Hh);
  match goal with
  | |- context [isOngoingLiteral ?n] => change (isOngoingLiteral n) with false
  end;
  cbv iota;
  unfold DateParser.parseRange;
  repeat skip Hh;
  cbv beta iota zeta delta [bind];
  unfold DateParser.singleDate.

Ltac open_strategy :=
  unfold parseFiscalYear, parseQuarter, parseSeason, parseMonth, parseVaguePeriod,
    parseEndOfYear, parseStartingIn, parseYear, SEASONS, MONTHS, vaguePatterns;
  cbn [parseSeasonIn parseMonthIn parseVagueIn].

(** The strategy at the head of the chain comes back empty-handed. *)
Ltac pass Hh :=
  match goal with
  | |- tryCatch (orElse ?s ?rest) _ = _ =>
      let E := fresh "E" in
      assert (E : s = None) by (open_strategy; repeat skip Hh; reflexivity);
      rewrite E; clear E;
      change (orElse None rest) with rest
  end.

(** Into the strategy at the head of the chain, up to its first pattern
    that matches. *)
Ltac enter Hh :=
  match goal with
  | |- tryCatch (orElse (?f _) _) _ = _ => unfold f
  end;
  unfold SEASONS, MONTHS, vaguePatterns;
  cbn [parseSeasonIn parseMonthIn parseVagueIn];
  repeat skip Hh;
  cbv beta iota zeta.

Ltac chain Hh := to_single Hh; repeat pass Hh; enter Hh.

Lemma fiscalYearOf_num v :
  stringOfNum (if numLt (Some v) 100 then numAdd (Some v) 2000 else Some v)
  = stringOfN (fiscalYearOf v).
Proof.
  unfold fiscalYearOf, numLt, numAdd, option_map.
  destruct (v <? 100)%N; reflexivity.
Qed.

Lemma digits_nonempty (ds : jstring) n : List.length ds = S n -> ds <> [].
Proof. destruct ds; [discriminate | discriminate]. Qed.

(** X15: "FY" followed by two to four digits is the fiscal year that ends on
    September 30: the point <year>-09-30, where the year is the number the
    digits write, plus 2000 when that number is below 100.  This holds for
    every such digit string ("FY27" and "FY2027" are both 2027-09-30, "FY123"
    is year 123). *)
Theorem parse_fiscal_year ds :
  lowersAscii toLowerCase -> allDigits ds -> (2 <= List.length ds <= 4)%nat ->
  parse (u "FY" ++ ds)
  = Normal (Some (point (stringOfN (fiscalYearOf (valueOf ds)) ++ u "-09-30"))).
Proof.
  intros Hl Hd Hlen.
  pose proof (rename_renames Hd) as Hh.
  assert (Hv : parseInt (Some ds) = Some (valueOf ds)).
  { apply parseInt_digits; [|exact Hd]. destruct ds; [simpl in Hlen; lia | discriminate]. }
  destruct ds as [|d1 [|d2 [|d3 [|d4 [|d5 ds]]]]]; simpl in Hlen; try lia.
  - template Hl Hh [d1; d2] (u "FY01"). chain Hh.
    fire Hh fyPattern m Hm. cap Hm 1%nat [d1; d2]. value Hv.
    rewrite fiscalYearOf_num, orElse_some by (apply app_nonempty; discriminate).
    reflexivity.
  - template Hl Hh [d1; d2; d3] (u "FY012"). chain Hh.
    fire Hh fyPattern m Hm. cap Hm 1%nat [d1; d2; d3]. value Hv.
    rewrite fiscalYearOf_num, orElse_some by (apply app_nonempty; discriminate).
    reflexivity.
  - template Hl Hh [d1; d2; d3; d4] (u "FY0123"). chain Hh.
    fire Hh fyPattern m Hm. cap Hm 1%nat [d1; d2; d3; d4]. value Hv.
    rewrite fiscalYearOf_num, orElse_some by (apply app_nonempty; discriminate).
    reflexivity.
Qed.

Ltac point_result :=
  rewrite orElse_some
    by (first [apply iso_nonempty | apply app_nonempty; discriminate]);
  reflexivity.

Lemma four_digits (ds : jstring) :
  List.length ds = 4%nat -> exists d1 d2 d3 d4, ds = [d1; d2; d3; d4].
Proof.
  destruct ds as [|d1 [|d2 [|d3 [|d4 [|d5 ds]]]]]; try discriminate.
  intros _. eauto.
Qed.

Lemma parseInt_four ds :
  allDigits ds -> List.length ds = 4%nat -> parseInt (Some ds) = Some (valueOf ds).
Proof.
  intros Hd Hlen. apply parseInt_digits; [|exact Hd].
  destruct ds; [discriminate | discriminate].
Qed.

(** "<word> <four digits>", by the pattern [pattern_of word]. *)
Ltac dated Hl Hh Hv ds pattern_of :=
  match goal with
  | |- context [u ?name ++ u " " ++ ds] =>
      let m := fresh "m" in
      let Hm := fresh "Hm" in
      template Hl Hh ds (u name ++ u " 0123"); chain Hh;
      fire Hh (pattern_of name) m Hm; cap Hm 1%nat ds; value Hv;
      point_result
  end.

(** X16: a season of the table followed by a space and four digits is the
    first day of the month after the table's month of that year: spring is
    April 1, summer July 1, fall and autumn October 1; winter is January 1 of
    the following year. *)
Theorem parse_season_year season month ds :
  lowersAscii toLowerCase -> In (season, month) SEASONS ->
  allDigits ds -> List.length ds = 4%nat ->
  parse (u season ++ u " " ++ ds)
  = Normal (Some (point
      (iso (stringOfN (if String.eqb season "winter"
                       then valueOf ds + 1 else valueOf ds)%N)
           (padStart2 (stringOfN (month + 1))) "01"))).
Proof.
  intros Hl Hin Hd Hlen.
  pose proof (rename_renames Hd) as Hh.
  pose proof (parseInt_four Hd Hlen) as Hv.
  destruct (four_digits ds Hlen) as (d1 & d2 & d3 & d4 & ->).
  unfold SEASONS in Hin. simpl in Hin.
  repeat (destruct Hin as [Hin | Hin]; [injection Hin as <- <- |]); [..|contradiction];
    dated Hl Hh Hv [d1; d2; d3; d4] seasonPattern.
Qed.

(** X17: each of the 24 month names and abbreviations of the table followed
    by a space and four digits is the first day of that month of that year. *)
Theorem parse_month_year monthName monthIndex ds :
  lowersAscii toLowerCase -> In (monthName, monthIndex) MONTHS ->
  allDigits ds -> List.length ds = 4%nat ->
  parse (u monthName ++ u " " ++ ds)
  = Normal (Some (point
      (iso (stringOfN (valueOf ds))
           (padStart2 (stringOfN (monthIndex + 1))) "01"))).
Proof.
  intros Hl Hin Hd Hlen.
  pose proof (rename_renames Hd) as Hh.
  pose proof (parseInt_four Hd Hlen) as Hv.
  destruct (four_digits ds Hlen) as (d1 & d2 & d3 & d4 & ->).
  unfold MONTHS in Hin. simpl in Hin.
  repeat (destruct Hin as [Hin | Hin]; [injection Hin as <- <- |]); [..|contradiction];
    dated Hl Hh Hv [d1; d2; d3; d4] monthPattern.
Qed.

(** "<phrase><four digits>", by the pattern [pattern]. *)
Ltac phrased Hl Hh Hv ds pattern :=
  match goal with
  | |- context [u ?phrase ++ ds] =>
      let m := fresh "m" in
      let Hm := fresh "Hm" in
      template Hl Hh ds (u phrase ++ u "0123"); chain Hh;
      fire Hh pattern m Hm; cap Hm 1%nat ds; value Hv;
      point_result
  end.

(** X18: "end of <year>" and "by the end of <year>" are December 31 of that
    year, for every four-digit year. *)
Theorem parse_end_of_year phrase ds :
  lowersAscii toLowerCase -> In phrase endOfYearPhrases ->
  allDigits ds -> List.length ds = 4%nat ->
  parse (u phrase ++ ds)
  = Normal (Some (point (stringOfN (valueOf ds) ++ u "-12-31"))).
Proof.
  intros Hl Hin Hd Hlen.
  pose proof (rename_renames Hd) as Hh.
  pose proof (parseInt_four Hd Hlen) as Hv.
  destruct (four_digits ds Hlen) as (d1 & d2 & d3 & d4 & ->).
  unfold endOfYearPhrases in Hin. simpl in Hin.
  repeat (destruct Hin as [<- | Hin]); [..|contradiction];
    phrased Hl Hh Hv [d1; d2; d3; d4] endPattern.
Qed.

(** X19: "starting in", "start in", "beginning in" and "beginning of"
    followed by a four-digit year are January 1 of that year. *)
Theorem parse_starting_in phrase ds :
  lowersAscii toLowerCase -> In phrase startingInPhrases ->
  allDigits ds -> List.length ds = 4%nat ->
  parse (u phrase ++ ds)
  = Normal (Some (point (stringOfN (valueOf ds) ++ u "-01-01"))).
Proof.
  intros Hl Hin Hd Hlen.
  pose proof (rename_renames Hd) as Hh.
  pose proof (parseInt_four Hd Hlen) as Hv.
  destruct (four_digits ds Hlen) as (d1 & d2 & d3 & d4 & ->).
  unfold startingInPhrases in Hin. simpl in Hin.
  repeat (destruct Hin as [<- | Hin]); [..|contradiction];
    phrased Hl Hh Hv [d1; d2; d3; d4] startPattern.
Qed.

(** X20: four digits on their own are July 1 of that year, and "by" followed
    by four digits is January 1 of that year, when the year is in 2000..2100;
    for any other year no pattern takes the text and it goes, as typed, to
    [new Date]. *)
Theorem parse_year_only ds :
  lowersAscii toLowerCase -> allDigits ds -> List.length ds = 4%nat ->
  parse ds
  = (if plausible (valueOf ds)
     then Normal (Some (point (stringOfN (valueOf ds) ++ u "-07-01")))
     else fallback Date_parse getFullYear getMonth getDate ds)
  /\ parse (u "by " ++ ds)
     = (if plausible (valueOf ds)
        then Normal (Some (point (stringOfN (valueOf ds) ++ u "-01-01")))
        else fallback Date_parse getFullYear getMonth getDate (u "by " ++ ds)).
Proof.
  intros Hl Hd Hlen.
  pose proof (rename_renames Hd) as Hh.
  pose proof (parseInt_four Hd Hlen) as Hv.
  destruct (four_digits ds Hlen) as (d1 & d2 & d3 & d4 & ->).
  unfold plausible.
  destruct ((2000 <=? valueOf [d1; d2; d3; d4])%N
            && (valueOf [d1; d2; d3; d4] <=? 2100)%N) eqn:Ep.
  - (* a plausible year *)
    split.
    + template Hl Hh [d1; d2; d3; d4] (u "0123"). chain Hh.
      fire Hh yearPattern m Hm. cap Hm 1%nat [d1; d2; d3; d4]. value Hv.
      unfold numGe, numLe. rewrite Ep. point_result.
    + template Hl Hh [d1; d2; d3; d4] (u "by 0123"). chain Hh.
      fire Hh byYearPattern m Hm. cap Hm 1%nat [d1; d2; d3; d4]. value Hv.
      unfold numGe, numLe. rewrite Ep. point_result.
  - (* any other year: both patterns of [parseYear] match and are turned down *)
    unfold fallback. split.
    + template Hl Hh [d1; d2; d3; d4] (u "0123"). chain Hh.
      fire Hh yearPattern m Hm. cap Hm 1%nat [d1; d2; d3; d4]. value Hv.
      unfold numGe, numLe. rewrite Ep.
      change (List.map (rename [d1; d2; d3; d4]) (u "0123")) with [d1; d2; d3; d4].
      destruct (Date_parse [d1; d2; d3; d4]); reflexivity.
    + template Hl Hh [d1; d2; d3; d4] (u "by 0123"). chain Hh.
      fire Hh byYearPattern m Hm. cap Hm 1%nat [d1; d2; d3; d4]. value Hv.
      unfold numGe, numLe. rewrite Ep.
      fire Hh yearPattern m' Hm'. cap Hm' 1%nat [d1; d2; d3; d4]. value Hv.
      unfold numGe, numLe. rewrite Ep.
      change (List.map (rename [d1; d2; d3; d4]) (u "by 0123"))
        with (u "by " ++ [d1; d2; d3; d4]).
      destruct (Date_parse (u "by " ++ [d1; d2; d3; d4])); reflexivity.
Qed.

Lemma allDigits_app (a b : jstring) : allDigits a -> allDigits b -> allDigits (a ++ b).
Proof. unfold allDigits. intros Ha Hb. rewrite forallb_app, Ha, Hb. reflexivity. Qed.

(** From [parse] of a renamed text to the range patterns, with those that
    fail on the text out of the way. *)
Ltac to_range Hh :=
  unfold DateParser.parseNormalized;
  rewrite (isOngoingLiteral_rename Hh);
  match goal with
  | |- context [isOngoingLiteral ?n] => change (isOngoingLiteral n) with false
  end;
  cbv iota;
  unfold DateParser.parseRange;
  repeat skip Hh;
  cbv beta iota zeta delta [bind].

(** X21: two four-digit years joined by a hyphen, with or without spaces
    around it, are the range from January 1 of the first to December 31 of the
    second, whatever the two years are: the second is not required to come
    after the first, and neither is limited to 2000..2100. *)
Theorem parse_year_range sep ds1 ds2 :
  lowersAscii toLowerCase -> In sep yearRangeSeparators ->
  allDigits ds1 -> List.length ds1 = 4%nat ->
  allDigits ds2 -> List.length ds2 = 4%nat ->
  parse (ds1 ++ u sep ++ ds2)
  = Normal (Some {| startDate := stringOfN (valueOf ds1) ++ u "-01-01";
                    endDate := Some (stringOfN (valueOf ds2) ++ u "-12-31");
                    isOngoing := false |}).
Proof.
  intros Hl Hin Hd1 Hlen1 Hd2 Hlen2.
  pose proof (rename_renames (allDigits_app Hd1 Hd2)) as Hh.
  pose proof (parseInt_four Hd1 Hlen1) as Hv1.
  pose proof (parseInt_four Hd2 Hlen2) as Hv2.
  destruct (four_digits ds1 Hlen1) as (d1 & d2 & d3 & d4 & ->).
  destruct (four_digits ds2 Hlen2) as (d5 & d6 & d7 & d8 & ->).
  unfold yearRangeSeparators in Hin. simpl in Hin.
  repeat (destruct Hin as [<- | Hin]); [..|contradiction].
  - template Hl Hh ([d1; d2; d3; d4] ++ [d5; d6; d7; d8]) (u "0123-4567").
    to_range Hh. fire Hh yearRangePattern m Hm. cbv beta iota.
    cap Hm 1%nat [d1; d2; d3; d4]. cap Hm 2%nat [d5; d6; d7; d8].
    value Hv1. value Hv2. reflexivity.
  - template Hl Hh ([d1; d2; d3; d4] ++ [d5; d6; d7; d8]) (u "0123 - 4567").
    to_range Hh. fire Hh yearRangePattern m Hm. cbv beta iota.
    cap Hm 1%nat [d1; d2; d3; d4]. cap Hm 2%nat [d5; d6; d7; d8].
    value Hv1. value Hv2. reflexivity.
Qed.

Ltac quarter_range Hl Hh Hv ds :=
  match goal with
  | |- context [u "Q" ++ stringOfN ?a ++ u "-Q" ++ stringOfN ?b ++ u " " ++ ds] =>
      let m := fresh "m" in
      let Hm := fresh "Hm" in
      template Hl Hh (u "01234" ++ ds)
        (u "Q" ++ stringOfN a ++ u "-Q" ++ stringOfN b ++ u " 5678");
      to_range Hh; fire Hh quarterRangePattern m Hm; cbv beta iota;
      cap Hm 1%nat (stringOfN a); cap Hm 2%nat (stringOfN b); cap Hm 3%nat ds;
      value Hv; reflexivity
  end.

(** X22: "Q<a>-Q<b> <year>" with a and b in 1..4 is the range from day 1 of
    the first month of quarter a (month 3a-2) to day 28 of the last month of
    quarter b (month 3b) of that year. *)
Theorem parse_quarter_range a b ds :
  lowersAscii toLowerCase -> (1 <= a <= 4)%N -> (1 <= b <= 4)%N ->
  allDigits ds -> List.length ds = 4%nat ->
  parse (u "Q" ++ stringOfN a ++ u "-Q" ++ stringOfN b ++ u " " ++ ds)
  = Normal (Some
      {| startDate := iso (stringOfN (valueOf ds))
                          (padStart2 (stringOfN (3 * a - 2))) "01";
         endDate := Some (iso (stringOfN (valueOf ds))
                              (padStart2 (stringOfN (3 * b))) "28");
         isOngoing := false |}).
Proof.
  intros Hl Ha Hb Hd Hlen.
  assert (Hd5 : allDigits (u "01234" ++ ds)) by (apply allDigits_app; [reflexivity | exact Hd]).
  pose proof (rename_renames Hd5) as Hh.
  pose proof (parseInt_four Hd Hlen) as Hv.
  destruct (four_digits ds Hlen) as (d1 & d2 & d3 & d4 & ->).
  apply quarters_In in Ha. apply quarters_In in Hb.
  simpl in Ha, Hb.
  repeat (destruct Ha as [<- | Ha]); try contradiction;
    repeat (destruct Hb as [<- | Hb]); try contradiction;
    quarter_range Hl Hh Hv [d1; d2; d3; d4].
Qed.

Lemma two_digits (ds : jstring) :
  List.length ds = 2%nat -> exists d1 d2, ds = [d1; d2].
Proof.
  destruct ds as [|d1 [|d2 [|d3 ds]]]; try discriminate. intros _. eauto.
Qed.

(** X30: no pattern of the parser takes an ISO date: for all digits,
    "YYYY-MM-DD" goes to [new Date] as typed and comes back through
    [formatDate], that is through the local-time getters of the host (null
    when [new Date] makes an invalid date of it).  The date returned is the
    date typed only where local time and UTC agree on the day. *)
Theorem parse_iso_date y m d :
  lowersAscii toLowerCase ->
  allDigits y -> List.length y = 4%nat ->
  allDigits m -> List.length m = 2%nat ->
  allDigits d -> List.length d = 2%nat ->
  parse (y ++ u "-" ++ m ++ u "-" ++ d)
  = fallback Date_parse getFullYear getMonth getDate (y ++ u "-" ++ m ++ u "-" ++ d).
Proof.
  intros Hl Hy Hly Hm Hlm Hd Hld.
  pose proof (rename_renames (allDigits_app Hy (allDigits_app Hm Hd))) as Hh.
  destruct (four_digits y Hly) as (d1 & d2 & d3 & d4 & ->).
  destruct (two_digits m Hlm) as (d5 & d6 & ->).
  destruct (two_digits d Hld) as (d7 & d8 & ->).
  template Hl Hh ([d1; d2; d3; d4] ++ [d5; d6] ++ [d7; d8]) (u "0123-45-67").
  to_single Hh. repeat pass Hh.
  unfold fallback.
  change (List.map (rename ([d1; d2; d3; d4] ++ [d5; d6] ++ [d7; d8])) (u "0123-45-67"))
    with ([d1; d2; d3; d4] ++ u "-" ++ [d5; d6] ++ u "-" ++ [d7; d8]).
  destruct (Date_parse ([d1; d2; d3; d4] ++ u "-" ++ [d5; d6] ++ u "-" ++ [d7; d8]));
    reflexivity.
Qed.

End Host.

End DigitsFacts.

Module DigitsExamples.

Import DateParser DateParserFacts Digits DigitsFacts.

Lemma refHost_lowers : lowersAscii RefHost.toLowerCase.
Proof. intros s _. reflexivity. Defined.

Lemma parse_fiscal_year_witness :
  lowersAscii RefHost.toLowerCase
  /\ allDigits (u "27") /\ (2 <= List.length (u "27") <= 4)%nat
  /\ RefHost.parse (u "FY27") = Normal (Some (point (u "2027-09-30"))).
Proof.
  assert (Hd : allDigits (u "27")) by reflexivity.
  assert (Hlen : (2 <= List.length (u "27") <= 4)%nat) by (simpl; lia).
  split; [exact refHost_lowers|]. split; [exact Hd|]. split; [exact Hlen|].
  exact (@parse_fiscal_year RefHost.toLowerCase RefHost.Date_parse
           RefHost.getFullYear RefHost.getMonth RefHost.getDate RefHost.now
           (u "27") refHost_lowers Hd Hlen).
Defined.

Lemma parse_season_year_witness :
  lowersAscii RefHost.toLowerCase
  /\ In ("winter"%string, 0%N) SEASONS
  /\ allDigits (u "2026") /\ List.length (u "2026") = 4%nat
  /\ RefHost.parse (u "winter 2026") = Normal (Some (point (u "2027-01-01"))).
Proof.
  assert (Hin : In ("winter"%string, 0%N) SEASONS) by (simpl; auto 10).
  assert (Hd : allDigits (u "2026")) by reflexivity.
  assert (Hlen : List.length (u "2026") = 4%nat) by reflexivity.
  split; [exact refHost_lowers|]. split; [exact Hin|].
  split; [exact Hd|]. split; [exact Hlen|].
  exact (@parse_season_year RefHost.toLowerCase RefHost.Date_parse
           RefHost.getFullYear RefHost.getMonth RefHost.getDate RefHost.now
           "winter"%string 0%N (u "2026") refHost_lowers Hin Hd Hlen).
Defined.

Lemma parse_month_year_witness :
  lowersAscii RefHost.toLowerCase
  /\ In ("sept"%string, 8%N) MONTHS
  /\ allDigits (u "2026") /\ List.length (u "2026") = 4%nat
  /\ RefHost.parse (u "sept 2026") = Normal (Some (point (u "2026-09-01"))).
Proof.
  assert (Hin : In ("sept"%string, 8%N) MONTHS) by (simpl; auto 30).
  assert (Hd : allDigits (u "2026")) by reflexivity.
  assert (Hlen : List.length (u "2026") = 4%nat) by reflexivity.
  split; [exact refHost_lowers|]. split; [exact Hin|].
  split; [exact Hd|]. split; [exact Hlen|].
  exact (@parse_month_year RefHost.toLowerCase RefHost.Date_parse
           RefHost.getFullYear RefHost.getMonth RefHost.getDate RefHost.now
           "sept"%string 8%N (u "2026") refHost_lowers Hin Hd Hlen).
Defined.

Lemma parse_end_of_year_witness :
  lowersAscii RefHost.toLowerCase
  /\ In "by the end of "%string endOfYearPhrases
  /\ allDigits (u "2026") /\ List.length (u "2026") = 4%nat
  /\ RefHost.parse (u "by the end of 2026") = Normal (Some (point (u "2026-12-31"))).
Proof.
  assert (Hin : In "by the end of "%string endOfYearPhrases) by (simpl; auto).
  assert (Hd : allDigits (u "2026")) by reflexivity.
  assert (Hlen : List.length (u "2026") = 4%nat) by reflexivity.
  split; [exact refHost_lowers|]. split; [exact Hin|].
  split; [exact Hd|]. split; [exact Hlen|].
  exact (@parse_end_of_year RefHost.toLowerCase RefHost.Date_parse
           RefHost.getFullYear RefHost.getMonth RefHost.getDate RefHost.now
           "by the end of "%string (u "2026") refHost_lowers Hin Hd Hlen).
Defined.

Lemma parse_starting_in_witness :
  lowersAscii RefHost.toLowerCase
  /\ In "beginning of "%string startingInPhrases
  /\ allDigits (u "2027") /\ List.length (u "2027") = 4%nat
  /\ RefHost.parse (u "beginning of 2027") = Normal (Some (point (u "2027-01-01"))).
Proof.
  assert (Hin : In "beginning of "%string startingInPhrases) by (simpl; auto 10).
  assert (Hd : allDigits (u "2027")) by reflexivity.
  assert (Hlen : List.length (u "2027") = 4%nat) by reflexivity.
  split; [exact refHost_lowers|]. split; [exact Hin|].
  split; [exact Hd|]. split; [exact Hlen|].
  exact (@parse_starting_in RefHost.toLowerCase RefHost.Date_parse
           RefHost.getFullYear RefHost.getMonth RefHost.getDate RefHost.now
           "beginning of "%string (u "2027") refHost_lowers Hin Hd Hlen).
Defined.

Lemma parse_year_only_witness :
  lowersAscii RefHost.toLowerCase
  /\ allDigits (u "2026") /\ List.length (u "2026") = 4%nat
  /\ RefHost.parse (u "2026") = Normal (Some (point (u "2026-07-01")))
  /\ RefHost.parse (u "by 2026") = Normal (Some (point (u "2026-01-01"))).
Proof.
  assert (Hd : allDigits (u "2026")) by reflexivity.
  assert (Hlen : List.length (u "2026") = 4%nat) by reflexivity.
  split; [exact refHost_lowers|]. split; [exact Hd|]. split; [exact Hlen|].
  exact (@parse_year_only RefHost.toLowerCase RefHost.Date_parse
           RefHost.getFullYear RefHost.getMonth RefHost.getDate RefHost.now
           (u "2026") refHost_lowers Hd Hlen).
Defined.

Lemma parse_year_range_witness :
  lowersAscii RefHost.toLowerCase
  /\ In " - "%string yearRangeSeparators
  /\ allDigits (u "2027") /\ List.length (u "2027") = 4%nat
  /\ allDigits (u "2026") /\ List.length (u "2026") = 4%nat
  /\ RefHost.parse (u "2027 - 2026")
     = Normal (Some {| startDate := u "2027-01-01";
                       endDate := Some (u "2026-12-31");
                       isOngoing := false |}).
Proof.
  assert (Hin : In " - "%string yearRangeSeparators) by (simpl; auto).
  assert (Hd1 : allDigits (u "2027")) by reflexivity.
  assert (Hlen1 : List.length (u "2027") = 4%nat) by reflexivity.
  assert (Hd2 : allDigits (u "2026")) by reflexivity.
  assert (Hlen2 : List.length (u "2026") = 4%nat) by reflexivity.
  split; [exact refHost_lowers|]. split; [exact Hin|].
  split; [exact Hd1|]. split; [exact Hlen1|].
  split; [exact Hd2|]. split; [exact Hlen2|].
  exact (@parse_year_range RefHost.toLowerCase RefHost.Date_parse
           RefHost.getFullYear RefHost.getMonth RefHost.getDate RefHost.now
           " - "%string (u "2027") (u "2026") refHost_lowers Hin Hd1 Hlen1 Hd2 Hlen2).
Defined.

Lemma parse_quarter_range_witness :
  lowersAscii RefHost.toLowerCase
  /\ (1 <= 1 <= 4)%N /\ (1 <= 2 <= 4)%N
  /\ allDigits (u "2026") /\ List.length (u "2026") = 4%nat
  /\ RefHost.parse (u "Q1-Q2 2026")
     = Normal (Some {| startDate := u "2026-01-01";
                       endDate := Some (u "2026-06-28");
                       isOngoing := false |}).
Proof.
  assert (Ha : (1 <= 1 <= 4)%N) by lia.
  assert (Hb : (1 <= 2 <= 4)%N) by lia.
  assert (Hd : allDigits (u "2026")) by reflexivity.
  assert (Hlen : List.length (u "2026") = 4%nat) by reflexivity.
  split; [exact refHost_lowers|]. split; [exact Ha|]. split; [exact Hb|].
  split; [exact Hd|]. split; [exact Hlen|].
  exact (@parse_quarter_range RefHost.toLowerCase RefHost.Date_parse
           RefHost.getFullYear RefHost.getMonth RefHost.getDate RefHost.now
           1%N 2%N (u "2026") refHost_lowers Ha Hb Hd Hlen).
Defined.

Lemma parse_iso_date_witness :
  lowersAscii RefHost.toLowerCase
  /\ allDigits (u "2026") /\ List.length (u "2026") = 4%nat
  /\ allDigits (u "03") /\ List.length (u "03") = 2%nat
  /\ allDigits (u "15") /\ List.length (u "15") = 2%nat
  /\ DateParser.parse RefHost.toLowerCase RefHost.Date_parse
       westGetFullYear westGetMonth westGetDate RefHost.now (u "2026-03-15")
     = Normal (Some (point (u "2026-03-14"))).
Proof.
  assert (Hy : allDigits (u "2026")) by reflexivity.
  assert (Hly : List.length (u "2026") = 4%nat) by reflexivity.
  assert (Hm : allDigits (u "03")) by reflexivity.
  assert (Hlm : List.length (u "03") = 2%nat) by reflexivity.
  assert (Hd : allDigits (u "15")) by reflexivity.
  assert (Hld : List.length (u "15") = 2%nat) by reflexivity.
  split; [exact refHost_lowers|].
  split; [exact Hy|]. split; [exact Hly|]. split; [exact Hm|]. split; [exact Hlm|].
  split; [exact Hd|]. split; [exact Hld|].
  exact (@parse_iso_date RefHost.toLowerCase RefHost.Date_parse
           westGetFullYear westGetMonth westGetDate RefHost.now
           (u "2026") (u "03") (u "15") refHost_lowers Hy Hly Hm Hlm Hd Hld).
Defined.

End DigitsExamples.

Module ChainFacts.

Import DateParser DateParserFacts.

Section Host.

Variable toLowerCase : jstring -> jstring.
Variable Date_parse : jstring -> option Z.
Variables getFullYear getMonth getDate : Z -> Z.
Variable now : Z.

Abbreviation parse := (parse toLowerCase Date_parse getFullYear getMonth getDate now).
Abbreviation parseRange := (parseRange toLowerCase).
Abbreviation parseNormalized :=
  (parseNormalized toLowerCase Date_parse getFullYear getMonth getDate now).
Abbreviation singleDate :=
  (singleDate Date_parse getFullYear getMonth getDate).

Lemma parse_some_nonempty text r : parse text = Normal (Some r) -> text <> [].
Proof. intros H ->. discriminate H. Qed.

(** X23: [parse] answers "ongoing" for the four literals and for nothing
    else: a result is ongoing exactly when the trimmed, lower-cased text is
    one of "ongoing", "continuous", "tbd", "indefinite", and then it starts
    today and has no end date. *)
Theorem parse_ongoing_iff text r :
  parse text = Normal (Some r) ->
  (isOngoing r = true <-> isOngoingLiteral (trim (toLowerCase text)) = true)
  /\ (isOngoing r = true ->
      r = {| startDate := formatDate getFullYear getMonth getDate now;
             endDate := None;
             isOngoing := true |}).
Proof.
  intros H. destruct text as [|c text]; [discriminate H|].
  rewrite parse_cons in H. unfold DateParser.parseNormalized in H.
  destruct (isOngoingLiteral (trim (toLowerCase (c :: text)))).
  - injection H as <-. split; [split; reflexivity | reflexivity].
  - assert (Ho : isOngoing r = false).
    { destruct (parseRange_normal toLowerCase Date_parse getFullYear getMonth getDate now
                 (trim (toLowerCase (c :: text))))
        as [[r'|] E]; rewrite E in H; simpl in H.
      - injection H as <-. apply (parseRange_shape _ _ E).
      - destruct (singleDate_cases Date_parse getFullYear getMonth getDate
                    (c :: text) (trim (toLowerCase (c :: text))))
          as [[s Es] | [Es _]]; rewrite Es in H; simpl in H; [|discriminate H].
        injection H as <-. reflexivity. }
    rewrite Ho. split; [split; discriminate | discriminate].
Qed.

Lemma orElse_same x restA restB :
  (forall s, x = Some s -> s <> []) ->
  orElse x restA = orElse x restB
  \/ (x = None /\ orElse x restA = restA /\ orElse x restB = restB).
Proof.
  intros Hne. destruct x as [s|]; [left | right; auto].
  destruct s; [exfalso; eapply Hne; reflexivity | reflexivity].
Qed.

Ltac step nonempty :=
  match goal with
  | |- orElse ?x ?ra = orElse ?x ?rb \/ _ =>
      let E := fresh "E" in
      destruct (@orElse_same x ra rb nonempty) as [E | (E & -> & ->)];
      [left; exact E|]
  end.

(** The chain of single-date strategies looks at the raw text only when
    every strategy came back empty-handed. *)
Lemma singleDate_same a b normalized :
  singleDate a normalized = singleDate b normalized
  \/ (parseFiscalYear normalized = None
      /\ parseQuarter normalized = None
      /\ parseSeason normalized = None
      /\ parseMonth normalized = None
      /\ parseVaguePeriod normalized = None
      /\ parseEndOfYear normalized = None
      /\ parseStartingIn normalized = None
      /\ parseYear normalized = None).
Proof.
  unfold DateParser.singleDate.
  step (@parseFiscalYear_nonempty normalized).
  step (@parseQuarter_nonempty normalized).
  step (@parseSeason_nonempty normalized).
  step (@parseMonth_nonempty normalized).
  step (@parseVaguePeriod_nonempty normalized).
  step (@parseEndOfYear_nonempty normalized).
  step (@parseStartingIn_nonempty normalized).
  step (@parseYear_nonempty normalized).
  right. repeat split; assumption.
Qed.

(** X24: letter case and surrounding white space never decide what a pattern
    gives: two texts with the same trimmed, lower-cased form that some
    strategy takes have the same result.  Only the fallback to [new Date]
    sees the text as it was typed. *)
Theorem parse_reads_normalized_text a b :
  a <> [] -> b <> [] ->
  trim (toLowerCase a) = trim (toLowerCase b) ->
  ~ noStrategyMatches toLowerCase (trim (toLowerCase a)) ->
  parse a = parse b.
Proof.
  intros Ha Hb Hn Hs.
  destruct a as [|x a]; [congruence|]. destruct b as [|y b]; [congruence|].
  rewrite !parse_cons, <- Hn.
  set (n := trim (toLowerCase (x :: a))) in *.
  unfold DateParser.parseNormalized.
  destruct (isOngoingLiteral n) eqn:Eo; [reflexivity|].
  destruct (parseRange_normal toLowerCase Date_parse getFullYear getMonth getDate now n) as [[r|] Er]; rewrite Er; simpl;
    [reflexivity|].
  destruct (singleDate_same (x :: a) (y :: b) n) as [-> | H]; [reflexivity|].
  exfalso. apply Hs. unfold noStrategyMatches. tauto.
Qed.

End Host.

End ChainFacts.

Module ChainExamples.

Import DateParser ChainFacts.

Lemma parse_ongoing_iff_witness :
  RefHost.parse (u " TBD ")
  = Normal (Some {| startDate := u "2026-11-02"; endDate := None; isOngoing := true |})
  /\ (true = true <-> isOngoingLiteral (trim (RefHost.toLowerCase (u " TBD "))) = true)
  /\ (true = true ->
      {| startDate := u "2026-11-02"; endDate := None; isOngoing := true |}
      = {| startDate := formatDate RefHost.getFullYear RefHost.getMonth
                                   RefHost.getDate RefHost.now;
           endDate := None;
           isOngoing := true |}).
Proof.
  assert (H : RefHost.parse (u " TBD ")
              = Normal (Some {| startDate := u "2026-11-02"; endDate := None;
                                isOngoing := true |}))
    by (vm_compute; reflexivity).
  split; [exact H|].
  exact (@parse_ongoing_iff RefHost.toLowerCase RefHost.Date_parse
           RefHost.getFullYear RefHost.getMonth RefHost.getDate RefHost.now
           (u " TBD ")
           {| startDate := u "2026-11-02"; endDate := None; isOngoing := true |} H).
Defined.

Lemma parse_reads_normalized_text_witness :
  u "  Q3 2026 " <> [] /\ u "q3 2026" <> []
  /\ trim (RefHost.toLowerCase (u "  Q3 2026 ")) = trim (RefHost.toLowerCase (u "q3 2026"))
  /\ ~ noStrategyMatches RefHost.toLowerCase (trim (RefHost.toLowerCase (u "  Q3 2026 ")))
  /\ RefHost.parse (u "  Q3 2026 ") = RefHost.parse (u "q3 2026").
Proof.
  assert (Ha : u "  Q3 2026 " <> []) by discriminate.
  assert (Hb : u "q3 2026" <> []) by discriminate.
  assert (Hn : trim (RefHost.toLowerCase (u "  Q3 2026 "))
               = trim (RefHost.toLowerCase (u "q3 2026"))) by reflexivity.
  assert (Hs : ~ noStrategyMatches RefHost.toLowerCase
                   (trim (RefHost.toLowerCase (u "  Q3 2026 ")))).
  { intros (_ & _ & _ & H & _). vm_compute in H. discriminate H. }
  split; [exact Ha|]. split; [exact Hb|]. split; [exact Hn|]. split; [exact Hs|].
  exact (@parse_reads_normalized_text RefHost.toLowerCase RefHost.Date_parse
           RefHost.getFullYear RefHost.getMonth RefHost.getDate RefHost.now
           (u "  Q3 2026 ") (u "q3 2026") Ha Hb Hn Hs).
Defined.

End ChainExamples.

Module DataManagerFacts.

Import DateParser DataManager.

(** *** Objects *)

Lemma get_set_same k v o : get (set k v o) k = v.
Proof.
  unfold get, set, has.
  destruct (existsb (fun kv => String.eqb (fst kv) k) o) eqn:E.
  - induction o as [|[k' v'] o IH]; simpl in *; [discriminate|].
    destruct (String.eqb k' k) eqn:Ek; simpl.
    + rewrite String.eqb_refl. reflexivity.
    + rewrite Ek. apply IH. exact E.
  - induction o as [|[k' v'] o IH]; simpl in *.
    + rewrite String.eqb_refl. reflexivity.
    + destruct (String.eqb k' k) eqn:Ek; [discriminate|]. apply IH. exact E.
Qed.

Lemma get_set_other k k' v o : k' <> k -> get (set k v o) k' = get o k'.
Proof.
  intros Hne. unfold get, set, has.
  destruct (existsb (fun kv => String.eqb (fst kv) k) o).
  - induction o as [|[k0 v0] o IH]; simpl; [reflexivity|].
    destruct (String.eqb k0 k) eqn:Ek; simpl.
    + apply String.eqb_eq in Ek. subst k0.
      destruct (String.eqb k k') eqn:E'.
      * apply String.eqb_eq in E'. congruence.
      * exact IH.
    + destruct (String.eqb k0 k'); [reflexivity | exact IH].
  - induction o as [|[k0 v0] o IH]; simpl.
    + destruct (String.eqb k k') eqn:E'; [|reflexivity].
      apply String.eqb_eq in E'. congruence.
    + destruct (String.eqb k0 k'); [reflexivity | exact IH].
Qed.

Lemma get_delete_other k k' o : k' <> k -> get (delete k o) k' = get o k'.
Proof.
  intros Hne. unfold get, delete.
  induction o as [|[k0 v0] o IH]; simpl; [reflexivity|].
  destruct (String.eqb k0 k) eqn:Ek; simpl.
  - apply String.eqb_eq in Ek. subst k0.
    destruct (String.eqb k k') eqn:E'; [|exact IH].
    apply String.eqb_eq in E'. congruence.
  - destruct (String.eqb k0 k'); [reflexivity | exact IH].
Qed.

Lemma has_delete_same k o : has (delete k o) k = false.
Proof.
  unfold has, delete. induction o as [|[k0 v0] o IH]; simpl; [reflexivity|].
  destruct (String.eqb k0 k) eqn:Ek; simpl; [exact IH|].
  rewrite Ek. exact IH.
Qed.

Lemma has_false_get o k : has o k = false -> get o k = Undefined.
Proof.
  unfold has, get. induction o as [|[k0 v0] o IH]; simpl; [reflexivity|].
  destruct (String.eqb k0 k); [discriminate | exact IH].
Qed.

Lemma has_snoc (source : obj) k0 v0 k :
  has (source ++ [(k0, v0)]) k = has source k || String.eqb k0 k.
Proof. unfold has. rewrite existsb_app. simpl. rewrite orb_false_r. reflexivity. Qed.

Lemma get_snoc (source : obj) k0 v0 k :
  get (source ++ [(k0, v0)]) k
  = if has source k then get source k
    else if String.eqb k0 k then v0 else Undefined.
Proof.
  unfold get, has. induction source as [|[k1 v1] source IH]; simpl.
  - destruct (String.eqb k0 k); reflexivity.
  - destruct (String.eqb k1 k); simpl; [reflexivity | exact IH].
Qed.

Lemma has_In (o : obj) k : has o k = true <-> In k (List.map fst o).
Proof.
  unfold has. rewrite existsb_exists. split.
  - intros ([k' v] & Hin & E). apply String.eqb_eq in E. simpl in E. subst k'.
    apply in_map_iff. exists (k, v). auto.
  - intros Hin. apply in_map_iff in Hin. destruct Hin as ([k' v] & E & Hin).
    simpl in E. subst k'. exists (k, v). split; [exact Hin|].
    apply String.eqb_refl.
Qed.

(** [Object.assign] gives the target the properties of the source, and
    leaves its other properties alone. *)
Lemma get_assign source : wellFormed source -> forall target k,
  get (assign target source) k
  = if has source k then get source k else get target k.
Proof.
  unfold assign, wellFormed.
  induction source as [|[k0 v0] source IH] using rev_ind; intros Hwf target k.
  - reflexivity.
  - rewrite map_app in Hwf. simpl in Hwf.
    apply NoDup_remove in Hwf. rewrite app_nil_r in Hwf. destruct Hwf as [Hwf Hk0].
    rewrite fold_left_app. simpl. rewrite has_snoc, get_snoc.
    destruct (String.eqb k0 k) eqn:Ek.
    + apply String.eqb_eq in Ek. subst k0. rewrite get_set_same, orb_true_r.
      destruct (has source k) eqn:Es; [|reflexivity].
      exfalso. apply Hk0. apply has_In. exact Es.
    + rewrite orb_false_r, get_set_other.
      * rewrite (IH Hwf). destruct (has source k); reflexivity.
      * intros ->. rewrite String.eqb_refl in Ek. discriminate.
Qed.

(** *** Names out of comma-separated text *)

Lemma trimStart_suffix l : exists p, l = p ++ trimStart l.
Proof.
  induction l as [|c l [p IH]]; simpl.
  - exists []. reflexivity.
  - destruct (isSpace c).
    + exists (c :: p). simpl. f_equal. exact IH.
    + exists []. reflexivity.
Qed.

Lemma trimStart_head l c r : trimStart l = c :: r -> isSpace c = false.
Proof.
  induction l as [|x l IH]; simpl; [discriminate|].
  destruct (isSpace x) eqn:E; [exact IH|].
  intros [= <- _]. exact E.
Qed.

Lemma trimStart_fixed c r : isSpace c = false -> trimStart (c :: r) = c :: r.
Proof. intros H. simpl. rewrite H. reflexivity. Qed.

Lemma trimStart_idem l : trimStart (trimStart l) = trimStart l.
Proof.
  destruct (trimStart l) as [|c r] eqn:E; [reflexivity|].
  apply trimStart_fixed. apply (@trimStart_head l c r E).
Qed.

Lemma trimStart_In l x : In x (trimStart l) -> In x l.
Proof.
  destruct (trimStart_suffix l) as [p E]. intros H. rewrite E.
  apply in_or_app. right. exact H.
Qed.

Lemma trim_In s x : In x (trim s) -> In x s.
Proof.
  unfold trim. intros H. apply in_rev in H.
  apply trimStart_In in H. apply in_rev in H. apply trimStart_In in H. exact H.
Qed.

(** The trimmed text starts with what the text starts with once its
    leading white space is gone. *)
Lemma trim_head s c r : trim s = c :: r -> isSpace c = false.
Proof.
  unfold trim. intros E.
  destruct (trimStart_suffix (rev (trimStart s))) as [p Hp].
  set (b := trimStart (rev (trimStart s))) in *.
  assert (Ha : trimStart s = rev b ++ rev p).
  { rewrite <- (rev_involutive (trimStart s)), Hp, rev_app_distr. reflexivity. }
  rewrite E in Ha. simpl in Ha.
  apply (@trimStart_head s c _ Ha).
Qed.

Lemma trim_idem s : trim (trim s) = trim s.
Proof.
  destruct (trim s) as [|c r] eqn:E; [reflexivity|].
  pose proof (@trim_head s c r E) as Hc.
  unfold trim in *. rewrite (@trimStart_fixed c r Hc).
  rewrite <- E, rev_involutive, trimStart_idem. reflexivity.
Qed.

Lemma splitOn_nonempty sep s : splitOn sep s <> [].
Proof.
  induction s as [|c s IH]; simpl; [discriminate|].
  destruct (N.eqb c sep); [discriminate|].
  destruct (splitOn sep s); discriminate.
Qed.

Lemma splitOn_no_sep sep s piece : In piece (splitOn sep s) -> ~ In sep piece.
Proof.
  revert piece. induction s as [|c s IH]; simpl; intros piece H.
  - destruct H as [<- | []]. intros [].
  - destruct (N.eqb c sep) eqn:E.
    + destruct H as [<- | H]; [intros [] | apply IH, H].
    + destruct (splitOn sep s) as [|p ps] eqn:Es.
      * destruct H as [<- | []]. intros [-> | []].
        rewrite N.eqb_refl in E. discriminate.
      * destruct H as [<- | H].
        -- intros [-> | Hin]; [rewrite N.eqb_refl in E; discriminate|].
           apply (IH p); [left; reflexivity | exact Hin].
        -- apply IH. right. exact H.
Qed.

Lemma splitNames_clean s : Forall cleanName (splitNames s).
Proof.
  unfold splitNames. apply Forall_forall. intros e He.
  apply filter_In in He. destruct He as [He Hne].
  apply in_map_iff in He. destruct He as (piece & <- & Hp).
  unfold cleanName. split; [|split].
  - destruct (trim piece); [discriminate | discriminate].
  - apply trim_idem.
  - intros Hc. apply trim_In in Hc. apply (@splitOn_no_sep comma s piece Hp Hc).
Qed.

(** *** Lists updated in place *)

Lemma map_updateAt {A B} (g : A -> B) (f : A -> A) :
  (forall x, g (f x) = g x) ->
  forall i l, List.map g (updateAt i f l) = List.map g l.
Proof.
  intros Hf i l. revert i. induction l as [|x l IH]; intros [|i]; simpl;
    try reflexivity.
  - rewrite Hf. reflexivity.
  - rewrite IH. reflexivity.
Qed.

Lemma nth_error_updateAt {A} (f : A -> A) : forall i l,
  nth_error (updateAt i f l) i = option_map f (nth_error l i).
Proof.
  intros i l. revert i. induction l as [|x l IH]; intros [|i]; simpl;
    try reflexivity.
  apply IH.
Qed.

Lemma updateAt_updateAt {A} (f g : A -> A) : forall i l,
  updateAt i f (updateAt i g l) = updateAt i (fun x => f (g x)) l.
Proof.
  intros i l. revert i. induction l as [|x l IH]; intros [|i]; simpl;
    try reflexivity.
  rewrite IH. reflexivity.
Qed.

Lemma updateAt_same {A} (f : A -> A) :
  forall i l, (forall x, nth_error l i = Some x -> f x = x) -> updateAt i f l = l.
Proof.
  intros i l. revert i. induction l as [|x l IH]; intros [|i] H; simpl;
    try reflexivity.
  - rewrite (H x eq_refl). reflexivity.
  - rewrite IH; [reflexivity|]. intros y Hy. apply H. exact Hy.
Qed.

Lemma findIndex_Some {A} (p : A -> bool) : forall l i,
  findIndex p l = Some i ->
  exists x, nth_error l i = Some x /\ p x = true
            /\ forall j y, (j < i)%nat -> nth_error l j = Some y -> p y = false.
Proof.
  induction l as [|x l IH]; intros i H; simpl in H; [discriminate|].
  destruct (p x) eqn:E.
  - injection H as <-. exists x. repeat split; auto. intros j y Hj. lia.
  - destruct (findIndex p l) as [i'|] eqn:Ei; [|discriminate].
    injection H as <-. destruct (IH i' eq_refl) as (y & Hy & Hp & Hbefore).
    exists y. repeat split; auto.
    intros [|j] z Hj Hz; simpl in Hz.
    + injection Hz as <-. exact E.
    + apply (Hbefore j z); [lia | exact Hz].
Qed.

Lemma findIndex_None {A} (p : A -> bool) l :
  findIndex p l = None -> forall x, In x l -> p x = false.
Proof.
  induction l as [|x l IH]; simpl; intros H y Hy; [contradiction|].
  destruct (p x) eqn:E; [discriminate|].
  destruct (findIndex p l); [discriminate|].
  destruct Hy as [<- | Hy]; [exact E | apply IH; auto].
Qed.

Lemma findIndex_find {A} (p : A -> bool) l :
  find p l = match findIndex p l with Some i => nth_error l i | None => None end.
Proof.
  induction l as [|x l IH]; simpl; [reflexivity|].
  destruct (p x); [reflexivity|]. rewrite IH.
  destruct (findIndex p l); reflexivity.
Qed.

Lemma findIndex_snoc {A} (p : A -> bool) l x :
  (forall y, In y l -> p y = false) -> p x = true ->
  findIndex p (l ++ [x]) = Some (List.length l).
Proof.
  intros Hl Hx. induction l as [|y l IH]; simpl.
  - rewrite Hx. reflexivity.
  - rewrite (Hl y (or_introl eq_refl)), IH; [reflexivity|].
    intros z Hz. apply Hl. right. exact Hz.
Qed.

Lemma removeAt_snoc {A} (l : list A) x : removeAt (List.length l) (l ++ [x]) = l.
Proof. induction l as [|y l IH]; simpl; [reflexivity | rewrite IH; reflexivity]. Qed.

Lemma removeAt_In {A} (l : list A) i x : In x (removeAt i l) -> In x l.
Proof.
  revert i. induction l as [|y l IH]; intros [|i] H; simpl in *; auto.
  destruct H as [-> | H]; [auto | right; apply (IH i H)].
Qed.

Lemma removeAt_keeps {A} (l : list A) i x :
  In x l -> nth_error l i <> Some x -> In x (removeAt i l).
Proof.
  revert i. induction l as [|y l IH]; intros [|i] Hin Hn; simpl in *; auto.
  - destruct Hin as [-> | Hin]; [congruence | exact Hin].
  - destruct Hin as [-> | Hin]; [left; reflexivity | right; apply IH; auto].
Qed.

(** *** The active timeline *)

Lemma getActiveTimeline_index d :
  getActiveTimeline d
  = match activeIndex d with
    | Some i => nth_error (timelines d) i
    | None => None
    end.
Proof.
  unfold getActiveTimeline, activeIndex. rewrite findIndex_find.
  destruct (findIndex (isActive d) (timelines d)) as [i|] eqn:E.
  - destruct (findIndex_Some _ _ E) as (x & Hx & _). rewrite Hx. reflexivity.
  - destruct (timelines d); reflexivity.
Qed.

Lemma isTimeline_eq id t : isTimeline id t = true <-> t_id t = id.
Proof. unfold isTimeline. apply jeqb_eq. Qed.

(** When the active id is the id of a timeline, [getActiveTimeline] returns
    a timeline with that id, not the first timeline it falls back to. *)
Lemma activeExists_get d :
  activeExists d ->
  exists t, getActiveTimeline d = Some t /\ In t (timelines d)
            /\ activeTimelineId d = Some (t_id t).
Proof.
  intros (_ & _ & id & Ha & Hin). unfold getActiveTimeline.
  unfold timelineIds in Hin. apply in_map_iff in Hin. destruct Hin as (t & Ht & Hin).
  destruct (find (isActive d) (timelines d)) as [t'|] eqn:E.
  - apply find_some in E. destruct E as [Hin' Hp]. exists t'.
    unfold isActive in Hp. rewrite Ha in Hp. apply isTimeline_eq in Hp.
    repeat split; auto. congruence.
  - exfalso. pose proof (find_none _ _ E t Hin) as Hp.
    unfold isActive in Hp. rewrite Ha in Hp.
    assert (isTimeline id t = true) by (apply isTimeline_eq; exact Ht). congruence.
Qed.

(** *** Small facts about lists, objects and names *)

Lemma findIndex_updateAt {A} (p : A -> bool) (f : A -> A) :
  (forall x, p (f x) = p x) ->
  forall i l, findIndex p (updateAt i f l) = findIndex p l.
Proof.
  intros Hf i l. revert i. induction l as [|x l IH]; intros [|i]; simpl;
    try reflexivity.
  - rewrite Hf. reflexivity.
  - rewrite IH. reflexivity.
Qed.

Lemma withEvents_same t : withEvents (t_events t) t = t.
Proof. destruct t; reflexivity. Qed.

Lemma hasId_own event id : get event "id" = Str id -> hasId id event = true.
Proof. unfold hasId. intros ->. apply jeqb_eq. reflexivity. Qed.

Lemma find_snoc {A} (p : A -> bool) l x :
  (forall y, In y l -> p y = false) -> p x = true -> find p (l ++ [x]) = Some x.
Proof.
  intros Hl Hx. induction l as [|y l IH]; simpl.
  - rewrite Hx. reflexivity.
  - rewrite (Hl y (or_introl eq_refl)). apply IH.
    intros z Hz. apply Hl. right. exact Hz.
Qed.

Lemma wellFormed_set k v o : wellFormed o -> wellFormed (set k v o).
Proof.
  unfold wellFormed, set. intros H.
  destruct (has o k) eqn:E.
  - rewrite map_map.
    rewrite (map_ext_in _ fst); [exact H|].
    intros [k' v'] _. simpl. destruct (String.eqb k' k) eqn:Ek; [|reflexivity].
    apply String.eqb_eq in Ek. simpl. congruence.
  - rewrite map_app. simpl.
    assert (Hk : ~ In k (List.map fst o)).
    { intros Hin. apply has_In in Hin. congruence. }
    clear E. induction o as [|[k0 v0] o IH]; simpl in *.
    + constructor; [intros [] | constructor].
    + inversion H as [|? ? Hn Hd]; subst. constructor.
      * rewrite in_app_iff. intros [Hin | [-> | []]]; [contradiction|].
        apply Hk. left. reflexivity.
      * apply IH; [exact Hd|]. intros Hin. apply Hk. right. exact Hin.
Qed.

Lemma wellFormed_delete k o : wellFormed o -> wellFormed (delete k o).
Proof.
  unfold wellFormed, delete. intros H.
  induction o as [|[k0 v0] o IH]; simpl in *; [constructor|].
  inversion H as [|? ? Hn Hd]; subst.
  destruct (String.eqb k0 k); simpl; [apply IH, Hd|].
  constructor; [|apply IH, Hd].
  intros Hin. apply Hn. apply in_map_iff in Hin.
  destruct Hin as ([k1 v1] & E & Hin). apply filter_In in Hin.
  simpl in E. subst k1. apply in_map_iff. exists (k0, v1). tauto.
Qed.

Lemma get_has o k : get o k <> Undefined -> has o k = true.
Proof.
  intros H. destruct (has o k) eqn:E; [reflexivity|].
  exfalso. apply H. apply has_false_get, E.
Qed.

Lemma get_redated parsed event k :
  k <> "startDate"%string -> k <> "endDate"%string ->
  k <> "isOngoing"%string -> k <> "computedDate"%string ->
  get (redated parsed event) k = get event k.
Proof.
  intros H1 H2 H3 H4. unfold redated.
  rewrite !get_set_other by assumption. reflexivity.
Qed.

Lemma redated_dates parsed event :
  get (redated parsed event) "startDate" = parsedStart parsed
  /\ get (redated parsed event) "endDate" = parsedEnd parsed
  /\ get (redated parsed event) "isOngoing" = parsedOngoing parsed
  /\ get (redated parsed event) "computedDate" = parsedStart parsed.
Proof.
  unfold redated. repeat split.
  - rewrite !get_set_other by discriminate. apply get_set_same.
  - rewrite !get_set_other by discriminate. apply get_set_same.
  - rewrite !get_set_other by discriminate. apply get_set_same.
  - apply get_set_same.
Qed.

Lemma names_empty : names [] = Arr [].
Proof. reflexivity. Qed.

Lemma createdEntities_text eventData s :
  oror (get eventData "entities") (get eventData "entity") = Str s ->
  createdEntities eventData = names s.
Proof.
  unfold createdEntities. intros ->. destruct s; reflexivity.
Qed.

Lemma createdSecondaryEntities_text eventData s :
  get eventData "secondaryEntities" = Str s ->
  createdSecondaryEntities eventData = names s.
Proof.
  unfold createdSecondaryEntities. intros ->. destruct s; reflexivity.
Qed.

Lemma oror_same v : oror v v = v.
Proof. unfold oror. destruct (truthy v); reflexivity. Qed.

Section Host.

Variable toLowerCase : jstring -> jstring.
Variable Date_parse : jstring -> option Z.
Variables getFullYear getMonth getDate : Z -> Z.
Variable now : Z.
Variable generateIdAt : nat -> jstring.
Variable nowIso : jstring.

Abbreviation createEvent :=
  (createEvent toLowerCase Date_parse getFullYear getMonth getDate now
               generateIdAt nowIso).
Abbreviation createEvents :=
  (createEvents toLowerCase Date_parse getFullYear getMonth getDate now
                generateIdAt nowIso).
Abbreviation addEvent :=
  (addEvent toLowerCase Date_parse getFullYear getMonth getDate now
            generateIdAt nowIso).
Abbreviation updateEvent :=
  (updateEvent toLowerCase Date_parse getFullYear getMonth getDate now).
Abbreviation importTimeline :=
  (importTimeline toLowerCase Date_parse getFullYear getMonth getDate now
                  generateIdAt nowIso).
Abbreviation step :=
  (step toLowerCase Date_parse getFullYear getMonth getDate now generateIdAt nowIso).
Abbreviation run :=
  (run toLowerCase Date_parse getFullYear getMonth getDate now generateIdAt nowIso).
Abbreviation parseValue :=
  (parseValue toLowerCase Date_parse getFullYear getMonth getDate now).

(** *** What the operations leave alone *)

Lemma createEvent_data eventData w : data (fst (createEvent eventData w)) = data w.
Proof.
  unfold DataManager.createEvent.
  destruct (createdDates _ _ _ _ _ _ eventData) as [[[[sd ed] og] cd]|e];
    [|reflexivity].
  destruct (truthy (get eventData "id")); reflexivity.
Qed.

Lemma createEvents_data evs : forall w, data (fst (createEvents evs w)) = data w.
Proof.
  induction evs as [|e rest IH]; intros w; simpl; [reflexivity|].
  pose proof (createEvent_data e w) as H1.
  destruct (createEvent e w) as [w1 [event|err]]; simpl in H1; [|exact H1].
  pose proof (IH w1) as H2.
  destruct (createEvents rest w1) as [w2 [events|err]]; simpl in *; congruence.
Qed.

Lemma reidentify_data evs : forall w,
  data (snd (reidentify generateIdAt evs w)) = data w.
Proof.
  induction evs as [|e rest IH]; intros w; simpl; [reflexivity|].
  pose proof (IH {| data := data w; calls := S (calls w) |}) as H.
  destruct (reidentify generateIdAt rest {| data := data w; calls := S (calls w) |}).
  exact H.
Qed.

Lemma onActiveEvents_ids f i w :
  timelineIds (data (onActiveEvents f i w)) = timelineIds (data w)
  /\ activeTimelineId (data (onActiveEvents f i w)) = activeTimelineId (data w).
Proof.
  unfold onActiveEvents, timelineIds. simpl. split; [|reflexivity].
  apply map_updateAt. reflexivity.
Qed.

Lemma activeExists_ids d d' :
  timelineIds d' = timelineIds d -> activeTimelineId d' = activeTimelineId d ->
  activeExists d -> activeExists d'.
Proof. unfold activeExists. intros -> ->. tauto. Qed.

(** A timeline pushed and made active. *)
Lemma activeExists_push ts t :
  t_id t <> [] ->
  Forall (fun id => id <> []) (List.map t_id ts) ->
  activeExists {| timelines := ts ++ [t]; activeTimelineId := Some (t_id t) |}.
Proof.
  intros Ht Hts. unfold activeExists, timelineIds. simpl. rewrite map_app. simpl.
  split; [|split].
  - destruct (List.map t_id ts); discriminate.
  - apply Forall_app. split; [exact Hts | constructor; [exact Ht | constructor]].
  - exists (t_id t). split; [reflexivity|]. apply in_or_app. right. left. reflexivity.
Qed.

Section FreshIds.

Hypothesis ids_nonempty : forall n, generateIdAt n <> [].

Lemma step_activeExists op w :
  keepsIds op -> activeExists (data w) -> activeExists (data (step w op)).
Proof.
  intros Hop Hinv. pose proof Hinv as (Hne & Hids & a & Ha & Hin).
  destruct op as [name | id updates | id | id | id | eventData | id updates | id
                 | imported | ]; cbn [DataManager.step].
  - (* addTimeline *)
    unfold addTimeline, createTimeline, generateId. simpl.
    apply activeExists_push; [apply ids_nonempty | exact Hids].
  - (* updateTimeline *)
    unfold updateTimeline.
    destruct (findIndex (isTimeline id) (timelines (data w))) as [i|]; [|exact Hinv].
    simpl. eapply activeExists_ids; [| |exact Hinv]; [|reflexivity].
    unfold timelineIds. simpl. apply map_updateAt.
    intros t. unfold assignTimeline. simpl in Hop. rewrite Hop. reflexivity.
  - (* deleteTimeline *)
    unfold deleteTimeline.
    destruct (findIndex (isTimeline id) (timelines (data w))) as [index|] eqn:Ei;
      [|exact Hinv].
    destruct (findIndex_Some _ _ Ei) as (gone & Hgone & Hp & _).
    apply isTimeline_eq in Hp.
    destruct (removeAt index (timelines (data w))) as [|t0 rest] eqn:Er.
    + unfold createTimeline, generateId. simpl.
      exact (@activeExists_push []
               {| t_id := generateIdAt (calls w); t_name := u "My Timeline";
                  t_events := []; t_createdAt := nowIso |}
               (@ids_nonempty (calls w)) (Forall_nil _)).
    + simpl. rewrite <- Er.
      assert (Hsub : forall t, In t (removeAt index (timelines (data w))) ->
                               In t (timelines (data w)))
        by (intros t; apply removeAt_In).
      assert (Hids' : Forall (fun id0 => id0 <> [])
                        (List.map t_id (removeAt index (timelines (data w))))).
      { apply Forall_forall. intros x Hx. apply in_map_iff in Hx.
        destruct Hx as (t & <- & Ht). rewrite Forall_forall in Hids.
        apply Hids. unfold timelineIds. apply in_map, Hsub, Ht. }
      unfold activeExists, timelineIds. simpl.
      split; [rewrite Er; discriminate|]. split; [exact Hids'|].
      rewrite Ha. destruct (jeqb a id) eqn:Eid.
      * rewrite Er. unfold firstId.
        assert (Ht0 : t_id t0 <> []).
        { rewrite Er in Hids'. simpl in Hids'. inversion Hids'. assumption. }
        destruct (t_id t0) as [|c0 id0] eqn:E0; [congruence|].
        exists (c0 :: id0). split; [reflexivity|]. simpl. left. exact E0.
      * exists a. split; [reflexivity|].
        unfold timelineIds in Hin. apply in_map_iff in Hin.
        destruct Hin as (t & Ht & Hin). subst a.
        apply in_map. apply removeAt_keeps; [exact Hin|].
        rewrite Hgone. intros [= ->].
        assert (jeqb (t_id t) id = true) by (apply jeqb_eq; exact Hp). congruence.
  - (* duplicateTimeline *)
    unfold duplicateTimeline.
    destruct (find (isTimeline id) (timelines (data w))) as [timeline|]; [|exact Hinv].
    unfold generateId. simpl.
    pose proof (reidentify_data (t_events timeline)
                  {| data := data w; calls := S (calls w) |}) as Hd.
    destruct (reidentify generateIdAt (t_events timeline)
                {| data := data w; calls := S (calls w) |}) as [evs w'].
    simpl in *. rewrite Hd.
    apply (@activeExists_push (timelines (data w))
             {| t_id := generateIdAt (calls w);
                t_name := t_name timeline ++ u " (Copy)";
                t_events := evs; t_createdAt := nowIso |});
      [apply ids_nonempty | exact Hids].
  - (* setActiveTimeline *)
    unfold setActiveTimeline.
    destruct (existsb (isTimeline id) (timelines (data w))) eqn:E; [|exact Hinv].
    simpl. unfold activeExists, timelineIds. simpl.
    split; [exact Hne|]. split; [exact Hids|].
    exists id. split; [reflexivity|].
    apply existsb_exists in E. destruct E as (t & Ht & Hp).
    apply isTimeline_eq in Hp. subst id. apply in_map, Ht.
  - (* addEvent *)
    unfold DataManager.addEvent.
    destruct (activeIndex (data w)) as [i|]; [|exact Hinv].
    pose proof (createEvent_data eventData w) as Hd.
    destruct (createEvent eventData w) as [w' [event|err]]; simpl in *.
    + destruct (onActiveEvents_ids (fun evs => evs ++ [event]) i w') as [H1 H2].
      eapply activeExists_ids; [exact H1 | exact H2 | rewrite Hd; exact Hinv].
    + rewrite Hd. exact Hinv.
  - (* updateEvent *)
    unfold DataManager.updateEvent.
    destruct (activeIndex (data w)) as [i|]; [|exact Hinv].
    destruct (nth_error (timelines (data w)) i) as [timeline|]; [|exact Hinv].
    destruct (findIndex (hasId id) (t_events timeline)) as [j|]; [|exact Hinv].
    destruct (truthy (get (normalizedUpdates updates) "deadlineText")).
    + destruct (parseValue (get (normalizedUpdates updates) "deadlineText"));
        cbn [fst];
        match goal with
        | |- activeExists (data (onActiveEvents ?f i w)) =>
            destruct (onActiveEvents_ids f i w) as [H1 H2];
            eapply activeExists_ids; [exact H1 | exact H2 | exact Hinv]
        end.
    + cbn [fst].
      match goal with
      | |- activeExists (data (onActiveEvents ?f i w)) =>
          destruct (onActiveEvents_ids f i w) as [H1 H2];
          eapply activeExists_ids; [exact H1 | exact H2 | exact Hinv]
      end.
  - (* deleteEvent *)
    unfold deleteEvent.
    destruct (activeIndex (data w)) as [i|]; [|exact Hinv].
    destruct (nth_error (timelines (data w)) i) as [timeline|]; [|exact Hinv].
    destruct (findIndex (hasId id) (t_events timeline)) as [index|]; [|exact Hinv].
    cbn [snd]. destruct (onActiveEvents_ids (removeAt index) i w) as [H1 H2].
    eapply activeExists_ids; [exact H1 | exact H2 | exact Hinv].
  - (* importTimeline *)
    unfold DataManager.importTimeline.
    destruct (im_name imported) as [|c name]; [exact Hinv|].
    destruct (im_events imported) as [evs|]; [|exact Hinv].
    destruct (forallb validEvent evs); [|exact Hinv].
    unfold createTimeline, generateId. simpl.
    pose proof (createEvents_data evs {| data := data w; calls := S (calls w) |}) as Hd.
    destruct (createEvents evs {| data := data w; calls := S (calls w) |})
      as [w' [events|err]]; simpl in *.
    + rewrite Hd.
      apply (@activeExists_push (timelines (data w))
               (withEvents events
                  {| t_id := generateIdAt (calls w); t_name := c :: name;
                     t_events := []; t_createdAt := nowIso |}));
        [apply ids_nonempty | exact Hids].
    + rewrite Hd. exact Hinv.
  - (* clearAll *)
    unfold clearAll, createTimeline, generateId. simpl.
    exact (@activeExists_push []
             {| t_id := generateIdAt (calls w); t_name := u "My Timeline";
                t_events := []; t_createdAt := nowIso |}
             (@ids_nonempty (calls w)) (Forall_nil _)).
Qed.

End FreshIds.

(** X25: once there is a timeline and the active id names one, this stays
    so whatever is done: adding, renaming, deleting, duplicating and
    activating timelines, adding, updating and deleting events, importing
    and clearing, in any order.  So [getActiveTimeline] always returns the
    timeline with the active id and never has to fall back to the first one.
    It takes that [generateId] never returns the empty string and that no
    [updateTimeline] is given an [id] to assign. *)
Theorem active_timeline_always_exists ops w :
  (forall n, generateIdAt n <> []) ->
  Forall keepsIds ops ->
  activeExists (data w) ->
  activeExists (data (run ops w))
  /\ exists t, getActiveTimeline (data (run ops w)) = Some t
               /\ In t (timelines (data (run ops w)))
               /\ activeTimelineId (data (run ops w)) = Some (t_id t).
Proof.
  intros Hids Hops Hinv.
  assert (H : activeExists (data (run ops w))).
  { unfold DataManager.run. revert w Hinv.
    induction Hops as [|op ops Hop Hops IH]; intros w Hinv; simpl; [exact Hinv|].
    apply IH. apply step_activeExists; assumption. }
  split; [exact H | apply activeExists_get, H].
Qed.

(** *** What [createEvent] stores *)

(** The properties of the object [createEvent] returns. *)
Lemma createEvent_fields eventData w w' event :
  createEvent eventData w = (w', Normal event) ->
  exists startDate endDate isOngoing computedDate,
    createdDates toLowerCase Date_parse getFullYear getMonth getDate now eventData
    = Normal (startDate, endDate, isOngoing, computedDate)
    /\ get event "entities" = createdEntities eventData
    /\ get event "secondaryEntities" = createdSecondaryEntities eventData
    /\ get event "startDate" = startDate
    /\ get event "endDate" = endDate
    /\ get event "isOngoing" = isOngoing
    /\ get event "computedDate" = computedDate.
Proof.
  unfold DataManager.createEvent.
  destruct (createdDates _ _ _ _ _ _ eventData) as [[[[sd ed] og] cd]|e];
    [|discriminate].
  intros H. exists sd, ed, og, cd. split; [reflexivity|].
  destruct (truthy (get eventData "id")); injection H as <- <-;
    repeat split; reflexivity.
Qed.

(** X26: the entity names [createEvent] stores out of comma-separated text
    are clean: for [entities] (or [entity]) and for [secondaryEntities] given
    as a string, the stored value is the array of the pieces between commas,
    trimmed, the empty ones dropped, so that every stored name is non-empty,
    has no white space around it and holds no comma. *)
Theorem createEvent_stores_clean_names eventData w w' event :
  createEvent eventData w = (w', Normal event) ->
  (forall s, oror (get eventData "entities") (get eventData "entity") = Str s ->
     get event "entities" = Arr (List.map Str (splitNames s)))
  /\ (forall s, get eventData "secondaryEntities" = Str s ->
        get event "secondaryEntities" = Arr (List.map Str (splitNames s)))
  /\ forall s, Forall cleanName (splitNames s).
Proof.
  intros H.
  destruct (createEvent_fields _ _ H) as (sd & ed & og & cd & _ & He & Hs & _).
  split; [|split].
  - intros s Hs'. rewrite He. apply createdEntities_text, Hs'.
  - intros s Hs'. rewrite Hs. apply createdSecondaryEntities_text, Hs'.
  - apply splitNames_clean.
Qed.

Lemma parse_normal s :
  exists r, DateParser.parse toLowerCase Date_parse getFullYear getMonth getDate now s
            = Normal r.
Proof.
  destruct s as [|c s]; [exists None; reflexivity|].
  rewrite DateParserFacts.parse_cons. apply DateParserFacts.parseNormalized_normal.
Qed.

Lemma parse_ongoing_no_end s r :
  DateParser.parse toLowerCase Date_parse getFullYear getMonth getDate now s
  = Normal (Some r) ->
  DateParser.isOngoing r = true -> DateParser.endDate r = None.
Proof.
  destruct s as [|c s]; [discriminate|].
  rewrite DateParserFacts.parse_cons. intros H Ho.
  destruct (DateParserFacts.parseNormalized_kind _ _ _ _ _ _ _ _ H)
    as [[_ He] | [[_ Hf] | [_ Hf]]]; [exact He | congruence | congruence].
Qed.

Lemma parseValue_ongoing_no_end text parsed :
  parseValue text = Normal parsed ->
  parsedOngoing parsed = Bool true -> parsedEnd parsed = Null.
Proof.
  unfold parsedOngoing, parsedEnd. destruct parsed as [r|]; [|discriminate].
  intros H [= Ho]. destruct text as [| |[|]|s|l]; try discriminate H.
  simpl in H. rewrite (parse_ongoing_no_end _ H Ho). reflexivity.
Qed.

(** X27: [createEvent] does not throw when the deadline is text, and the
    dates it stores agree: the renderer's [event.startDate ||
    event.computedDate] is the stored [startDate], [startDate] and
    [computedDate] are both set or both empty, and when the dates come from
    the deadline text they are equal, and an ongoing event has no end date. *)
Theorem createEvent_dates eventData w :
  (forall s, get eventData "deadlineText" = Str s ->
     exists event, snd (createEvent eventData w) = Normal event)
  /\ forall w' event, createEvent eventData w = (w', Normal event) ->
       oror (get event "startDate") (get event "computedDate") = get event "startDate"
       /\ truthy (get event "startDate") = truthy (get event "computedDate")
       /\ (truthy (oror (get eventData "startDate") (get eventData "computedDate"))
           = false ->
           get event "computedDate" = get event "startDate"
           /\ (get event "isOngoing" = Bool true -> get event "endDate" = Null)).
Proof.
  split.
  - intros s Hs. unfold DataManager.createEvent, createdDates.
    destruct (truthy (oror (get eventData "startDate") (get eventData "computedDate"))).
    + destruct (truthy (get eventData "id")); eexists; reflexivity.
    + rewrite Hs. cbn [DataManager.parseValue].
      destruct (parse_normal s) as [r ->]. cbn [bind].
      destruct (truthy (get eventData "id")); eexists; reflexivity.
  - intros w' event H.
    destruct (createEvent_fields _ _ H)
      as (sd & ed & og & cd & Hd & _ & _ & -> & -> & -> & ->).
    unfold createdDates in Hd.
    destruct (truthy (oror (get eventData "startDate") (get eventData "computedDate")))
      eqn:Et.
    + injection Hd as <- <- <- <-.
      unfold oror in *.
      destruct (truthy (get eventData "startDate")) eqn:E1;
        destruct (truthy (get eventData "computedDate")) eqn:E2;
        rewrite ?E1, ?E2; repeat split; try reflexivity; try congruence.
    + destruct (parseValue (get eventData "deadlineText")) as [parsed|e] eqn:Ep;
        [|discriminate Hd].
      cbn [bind] in Hd. injection Hd as <- <- <- <-.
      rewrite oror_same. repeat split; try reflexivity.
      apply (parseValue_ongoing_no_end _ Ep).
Qed.

(** *** Adding, finding and deleting an event *)

Lemma activeIndex_onActiveEvents f i w :
  activeIndex (data (onActiveEvents f i w)) = activeIndex (data w).
Proof.
  unfold activeIndex, onActiveEvents. simpl.
  rewrite (@findIndex_updateAt Timeline
             (isActive {| timelines := updateAt i (fun t => withEvents (f (t_events t)) t)
                                                (timelines (data w));
                          activeTimelineId := activeTimelineId (data w) |})
             (fun t => withEvents (f (t_events t)) t)) by reflexivity.
  replace (findIndex (isActive _) (timelines (data w)))
    with (findIndex (isActive (data w)) (timelines (data w))) by reflexivity.
  destruct (findIndex (isActive (data w)) (timelines (data w))); [reflexivity|].
  destruct (timelines (data w)) as [|t ts]; destruct i; reflexivity.
Qed.

Lemma activeIndex_nth d i :
  activeIndex d = Some i -> exists t, nth_error (timelines d) i = Some t.
Proof.
  unfold activeIndex.
  destruct (findIndex (isActive d) (timelines d)) as [j|] eqn:E.
  - intros [= <-]. destruct (findIndex_Some _ _ E) as (t & Ht & _). eauto.
  - destruct (timelines d) as [|t ts]; [discriminate|]. intros [= <-]. simpl. eauto.
Qed.

Lemma getEvents_index d i t :
  activeIndex d = Some i -> nth_error (timelines d) i = Some t ->
  getEvents d = t_events t /\ forall id, getEvent id d = find (hasId id) (t_events t).
Proof.
  intros Hi Ht. unfold getEvents, getEvent.
  rewrite getActiveTimeline_index, Hi, Ht. split; reflexivity.
Qed.

(** X28: an event added is the last of the events of the active timeline,
    and when no event of that timeline had its id before, [getEvent] of that
    id finds exactly it and [deleteEvent] of that id puts the cache back as it
    was before the event was added. *)
Theorem addEvent_getEvent_deleteEvent eventData w w' event :
  addEvent eventData w = (w', Normal (Some event)) ->
  getEvents (data w') = getEvents (data w) ++ [event]
  /\ forall id, get event "id" = Str id ->
       (forall e, In e (getEvents (data w)) -> hasId id e = false) ->
       getEvent id (data w') = Some event
       /\ data (snd (deleteEvent id w')) = data w.
Proof.
  unfold DataManager.addEvent.
  destruct (activeIndex (data w)) as [i|] eqn:Hi; [|discriminate].
  pose proof (createEvent_data eventData w) as Hd.
  destruct (createEvent eventData w) as [w1 [event1|err]]; [|discriminate].
  simpl in Hd. intros [= <- <-].
  destruct (activeIndex_nth _ Hi) as (t & Ht).
  destruct (getEvents_index _ Hi Ht) as [Hevs _].
  assert (Hi' : activeIndex (data (onActiveEvents (fun evs => evs ++ [event1]) i w1))
                = Some i)
    by (rewrite activeIndex_onActiveEvents, Hd; exact Hi).
  assert (Ht' : nth_error
                  (timelines (data (onActiveEvents (fun evs => evs ++ [event1]) i w1))) i
                = Some (withEvents (t_events t ++ [event1]) t)).
  { unfold onActiveEvents. simpl. rewrite nth_error_updateAt, Hd, Ht. reflexivity. }
  destruct (getEvents_index _ Hi' Ht') as [Hevs' Hget'].
  split; [rewrite Hevs', Hevs; reflexivity|].
  intros id Hid Hfresh. rewrite Hevs in Hfresh.
  pose proof (hasId_own _ Hid) as Hown.
  split.
  - rewrite Hget'. simpl. apply find_snoc; assumption.
  - unfold deleteEvent. rewrite Hi', Ht'. cbn [t_events withEvents].
    rewrite (findIndex_snoc _ _ _ Hfresh Hown). cbn [snd].
    unfold onActiveEvents. cbn [data timelines activeTimelineId withData].
    rewrite updateAt_updateAt, Hd.
    rewrite updateAt_same.
    + destruct (data w); reflexivity.
    + intros x Hx. rewrite Ht in Hx. injection Hx as <-.
      cbn [t_events withEvents]. rewrite removeAt_snoc.
      destruct t; reflexivity.
Qed.

(** *** What [updateEvent] stores *)

(** X29: [updateEvent] with the data of the edit form (a non-empty [entity]
    text and a [secondaryEntities] text) stores the primary names as
    [createEvent] does, as the array of the trimmed pieces, but stores
    [secondaryEntities] as the text that was typed, not as an array, where
    [createEvent] would have stored the array of names.  When a non-empty
    deadline text is given, the four date properties are those of its
    parse, whatever dates [updates] carried. *)
Theorem updateEvent_keeps_secondary_text id updates w w' event s t :
  wellFormed updates ->
  get updates "entity" = Str s -> s <> [] ->
  get updates "secondaryEntities" = Str t ->
  updateEvent id updates w = (w', Normal (Some event)) ->
  get event "entities" = names s
  /\ get event "secondaryEntities" = Str t
  /\ createdSecondaryEntities updates = names t
  /\ forall d, get updates "deadlineText" = Str d -> d <> [] ->
       exists parsed,
         DateParser.parse toLowerCase Date_parse getFullYear getMonth getDate now d
         = Normal parsed
         /\ get event "startDate" = parsedStart parsed
         /\ get event "endDate" = parsedEnd parsed
         /\ get event "isOngoing" = parsedOngoing parsed
         /\ get event "computedDate" = parsedStart parsed.
Proof.
  intros Hwf He Hs Ht.
  assert (Hn : normalizedUpdates updates
               = delete "entity" (set "entities" (names s) updates)).
  { unfold normalizedUpdates. rewrite He. destruct s; [congruence | reflexivity]. }
  assert (Hwf' : wellFormed (normalizedUpdates updates))
    by (rewrite Hn; apply wellFormed_delete, wellFormed_set, Hwf).
  assert (Hge : get (normalizedUpdates updates) "entities" = names s).
  { rewrite Hn, get_delete_other by discriminate. apply get_set_same. }
  assert (Hgs : get (normalizedUpdates updates) "secondaryEntities" = Str t).
  { rewrite Hn, get_delete_other, get_set_other by discriminate. exact Ht. }
  assert (Hgd : get (normalizedUpdates updates) "deadlineText"
                = get updates "deadlineText").
  { rewrite Hn, get_delete_other, get_set_other by discriminate. reflexivity. }
  assert (Hae : forall e, get (assign e (normalizedUpdates updates)) "entities" = names s).
  { intros e. rewrite (get_assign Hwf'), (get_has _ _) by (rewrite Hge; discriminate).
    exact Hge. }
  assert (Has : forall e, get (assign e (normalizedUpdates updates)) "secondaryEntities"
                          = Str t).
  { intros e. rewrite (get_assign Hwf'), (get_has _ _) by (rewrite Hgs; discriminate).
    exact Hgs. }
  unfold DataManager.updateEvent.
  destruct (activeIndex (data w)) as [i|]; [|discriminate].
  destruct (nth_error (timelines (data w)) i) as [timeline|]; [|discriminate].
  destruct (findIndex (hasId id) (t_events timeline)) as [j|]; [|discriminate].
  rewrite Hgd.
  destruct (truthy (get updates "deadlineText")) eqn:Etd.
  - destruct (parseValue (get updates "deadlineText")) as [parsed|err] eqn:Ep;
      [|discriminate].
    destruct (nth_error (t_events timeline) j) as [e|]; [|discriminate].
    intros [= _ <-].
    split; [rewrite get_redated by discriminate; apply Hae|].
    split; [rewrite get_redated by discriminate; apply Has|].
    split; [apply createdSecondaryEntities_text, Ht|].
    intros d Hd _. rewrite Hd in Ep. cbn [DataManager.parseValue] in Ep.
    exists parsed. split; [exact Ep | apply redated_dates].
  - destruct (nth_error (t_events timeline) j) as [e|]; [|discriminate].
    intros [= _ <-].
    split; [apply Hae|]. split; [apply Has|].
    split; [apply createdSecondaryEntities_text, Ht|].
    intros d Hd Hne. rewrite Hd in Etd. destruct d; [congruence | discriminate Etd].
Qed.

End Host.

End DataManagerFacts.

Module DataManagerExamples.

Import DataManager DataManagerFacts DataExamples.

Lemma active_timeline_always_exists_witness :
  (forall n, generateIdAt n <> [])
  /\ Forall keepsIds session
  /\ activeExists (data start)
  /\ activeExists (data (run session start))
  /\ exists t, getActiveTimeline (data (run session start)) = Some t
               /\ In t (timelines (data (run session start)))
               /\ activeTimelineId (data (run session start)) = Some (t_id t).
Proof.
  assert (Hids : forall n, generateIdAt n <> []) by (intros n; discriminate).
  assert (Hops : Forall keepsIds session) by (repeat constructor).
  assert (Hinv : activeExists (data start)).
  { split; [discriminate|]. split; [repeat constructor; discriminate|].
    exists (u "id0"). split; [reflexivity | left; reflexivity]. }
  split; [exact Hids|]. split; [exact Hops|]. split; [exact Hinv|].
  exact (@active_timeline_always_exists RefHost.toLowerCase RefHost.Date_parse
           RefHost.getFullYear RefHost.getMonth RefHost.getDate RefHost.now
           generateIdAt nowIso session start Hids Hops Hinv).
Defined.

Lemma createEvent_stores_clean_names_witness :
  createEvent formData start = (fst created, Normal createdEvent)
  /\ (forall s, oror (get formData "entities") (get formData "entity") = Str s ->
        get createdEvent "entities" = Arr (List.map Str (splitNames s)))
  /\ (forall s, get formData "secondaryEntities" = Str s ->
        get createdEvent "secondaryEntities" = Arr (List.map Str (splitNames s)))
  /\ forall s, Forall cleanName (splitNames s).
Proof.
  assert (H : createEvent formData start = (fst created, Normal createdEvent))
    by (vm_compute; reflexivity).
  split; [exact H|].
  exact (@createEvent_stores_clean_names RefHost.toLowerCase RefHost.Date_parse
           RefHost.getFullYear RefHost.getMonth RefHost.getDate RefHost.now
           generateIdAt nowIso formData start (fst created) createdEvent H).
Defined.

Lemma addEvent_getEvent_deleteEvent_witness :
  addEvent formData start = (fst added, Normal (Some addedEvent))
  /\ getEvents (data (fst added)) = getEvents (data start) ++ [addedEvent]
  /\ forall id, get addedEvent "id" = Str id ->
       (forall e, In e (getEvents (data start)) -> hasId id e = false) ->
       getEvent id (data (fst added)) = Some addedEvent
       /\ data (snd (deleteEvent id (fst added))) = data start.
Proof.
  assert (H : addEvent formData start = (fst added, Normal (Some addedEvent)))
    by (vm_compute; reflexivity).
  split; [exact H|].
  exact (@addEvent_getEvent_deleteEvent RefHost.toLowerCase RefHost.Date_parse
           RefHost.getFullYear RefHost.getMonth RefHost.getDate RefHost.now
           generateIdAt nowIso formData start (fst added) addedEvent H).
Defined.

Lemma updateEvent_keeps_secondary_text_witness :
  wellFormed formData
  /\ get formData "entity" = Str (u "Alice, Bob ,,")
  /\ u "Alice, Bob ,," <> []
  /\ get formData "secondaryEntities" = Str (u " Carol , Dave")
  /\ updateEvent (u "id1") formData (fst added) = (fst edited, Normal (Some editedEvent))
  /\ get editedEvent "entities" = Arr [Str (u "Alice"); Str (u "Bob")]
  /\ get editedEvent "secondaryEntities" = Str (u " Carol , Dave")
  /\ createdSecondaryEntities formData = Arr [Str (u "Carol"); Str (u "Dave")].
Proof.
  assert (Hwf : wellFormed formData).
  { unfold wellFormed. simpl.
    repeat (constructor; [simpl; intuition discriminate|]). constructor. }
  assert (He : get formData "entity" = Str (u "Alice, Bob ,,")) by reflexivity.
  assert (Hs : u "Alice, Bob ,," <> []) by discriminate.
  assert (Ht : get formData "secondaryEntities" = Str (u " Carol , Dave"))
    by reflexivity.
  assert (H : updateEvent (u "id1") formData (fst added)
              = (fst edited, Normal (Some editedEvent)))
    by (vm_compute; reflexivity).
  split; [exact Hwf|]. split; [exact He|]. split; [exact Hs|]. split; [exact Ht|].
  split; [exact H|].
  pose proof (@updateEvent_keeps_secondary_text RefHost.toLowerCase RefHost.Date_parse
                RefHost.getFullYear RefHost.getMonth RefHost.getDate RefHost.now
                (u "id1") formData (fst added) (fst edited) editedEvent
                (u "Alice, Bob ,,") (u " Carol , Dave") Hwf He Hs Ht H)
    as (H1 & H2 & H3 & _).
  split; [exact H1|]. split; [exact H2 | exact H3].
Defined.

End DataManagerExamples.
